(** * Contest log checker (main.py): scoring, ranking and re-export

    A shallow embedding of the scoring core of [main.py]: the token
    normalizers, the CTESTWIN line parser and exporter, the claimed figures
    read from the summary sheet, the duplicate pass, the recomputation with
    its manual override and verdict, the ranking and the award lists.

    Modelling conventions.
    - A Python [str] is a [string]; the character classes of the regular
      expressions ([\d], [\s]), [str.strip], [str.split], [str.upper] and
      [str.isdigit] are modelled on the ASCII range (code points 0..127).
      UTF-8 bytes above 127 are treated as ordinary non-space, non-digit,
      caseless characters.  Regular expressions are modelled by the
      functions that compute their leftmost match.
    - A Python [int] is a [Z]; the interpreter's limit on the number of digits
      in int/str conversions is not modelled.  The [float] arithmetic of
      the band normalizer is computed exactly on rationals with binary64
      rounding.
    - In-place mutation of records is modelled by returning the updated
      record; a list of records is assumed to hold distinct objects, as the
      parsers produce them.
    - [print] calls write to the console only and are dropped. *)

From Stdlib Require Import ZArith Ascii String List Lia Bool Sorted.
From stdpp Require Import base gmap sets list strings.

Set Warnings "-clear-no-such-hyp".

Local Open Scope Z_scope.

(** ** Text primitives *)

Module Text.

(** Code point of a character. *)
Definition code (c : ascii) : N := N_of_ascii c.

(** [str.isspace] on the ASCII range: TAB..CR, FS..US and the blank. *)
Definition is_space (c : ascii) : bool :=
  let n := code c in
  ((9 <=? n) && (n <=? 13) || (28 <=? n) && (n <=? 32))%N.

(** [\d] on the ASCII range. *)
Definition is_digit (c : ascii) : bool :=
  let n := code c in ((48 <=? n) && (n <=? 57))%N.

Definition is_upper_letter (c : ascii) : bool :=
  let n := code c in ((65 <=? n) && (n <=? 90))%N.

Definition is_lower_letter (c : ascii) : bool :=
  let n := code c in ((97 <=? n) && (n <=? 122))%N.

Definition upper_char (c : ascii) : ascii :=
  if is_lower_letter c then ascii_of_N (code c - 32) else c.

Definition lower_char (c : ascii) : ascii :=
  if is_upper_letter c then ascii_of_N (code c + 32) else c.

Fixpoint map_chars (f : ascii -> ascii) (s : string) : string :=
  match s with
  | EmptyString => EmptyString
  | String c r => String (f c) (map_chars f r)
  end.

(** [s.upper()] and [s.lower()]. *)
Definition upper (s : string) : string := map_chars upper_char s.
Definition lower (s : string) : string := map_chars lower_char s.

Fixpoint all_chars (p : ascii -> bool) (s : string) : bool :=
  match s with
  | EmptyString => true
  | String c r => p c && all_chars p r
  end.

Fixpoint filter_chars (p : ascii -> bool) (s : string) : string :=
  match s with
  | EmptyString => EmptyString
  | String c r => if p c then String c (filter_chars p r) else filter_chars p r
  end.

(** [s.lstrip()], [s.rstrip()], [s.strip()]. *)
Fixpoint lstrip (s : string) : string :=
  match s with
  | EmptyString => EmptyString
  | String c r => if is_space c then lstrip r else s
  end.

Fixpoint rstrip (s : string) : string :=
  match s with
  | EmptyString => EmptyString
  | String c r =>
      match rstrip r with
      | EmptyString => if is_space c then EmptyString else String c EmptyString
      | r' => String c r'
      end
  end.

Definition strip (s : string) : string := rstrip (lstrip s).

(** [s.startswith(p)]. *)
Fixpoint startswith (p s : string) : bool :=
  match p, s with
  | EmptyString, _ => true
  | String a p', String b s' => if Ascii.eqb a b then startswith p' s' else false
  | String _ _, EmptyString => false
  end.

Fixpoint drop (n : nat) (s : string) : string :=
  match n, s with
  | O, _ => s
  | S n', String _ r => drop n' r
  | S _, EmptyString => EmptyString
  end.

Fixpoint take (n : nat) (s : string) : string :=
  match n, s with
  | O, _ => EmptyString
  | S n', String c r => String c (take n' r)
  | S _, EmptyString => EmptyString
  end.

(** [sub in s] for a non-empty [sub]. *)
Fixpoint contains (sub s : string) : bool :=
  startswith sub s ||
  match s with
  | EmptyString => false
  | String _ r => contains sub r
  end.

(** [s.replace(old, new)] for a non-empty [old]: non-overlapping
    occurrences, left to right.  [fuel] bounds the number of
    characters still to be scanned. *)
Fixpoint replace_go (fuel : nat) (old new s : string) : string :=
  match fuel with
  | O => s
  | S fuel' =>
      match s with
      | EmptyString => EmptyString
      | String c r =>
          if startswith old s
          then new +:+ replace_go fuel' old new (drop (String.length old) s)
          else String c (replace_go fuel' old new r)
      end
  end.

Definition replace (old new s : string) : string :=
  replace_go (String.length s) old new s.

(** [s.split()]: maximal runs of non-space characters.  [cur] is the
    token being read, reversed. *)
Fixpoint split_go (cur : string) (s : string) : list string :=
  match s with
  | EmptyString =>
      match cur with EmptyString => [] | _ => [cur] end
  | String c r =>
      if is_space c
      then match cur with
           | EmptyString => split_go EmptyString r
           | _ => cur :: split_go EmptyString r
           end
      else split_go (cur +:+ String c EmptyString) r
  end.

Definition split (s : string) : list string := split_go EmptyString s.

(** [s.split(sep)] for a one-character separator: always at least one
    field. *)
Fixpoint split_on (sep : ascii) (s : string) : list string :=
  match s with
  | EmptyString => [EmptyString]
  | String c r =>
      if Ascii.eqb c sep then EmptyString :: split_on sep r
      else match split_on sep r with
           | f :: fs => String c f :: fs
           | [] => [String c EmptyString]
           end
  end.

(** [sep.join(parts)]. *)
Fixpoint join (sep : string) (parts : list string) : string :=
  match parts with
  | [] => EmptyString
  | [p] => p
  | p :: rest => p +:+ sep +:+ join sep rest
  end.

(** Lexicographic order on strings by code point, as Python compares
    [str] values. *)
Definition ltb (a b : string) : bool :=
  match String.compare a b with Lt => true | _ => false end.

Definition leb (a b : string) : bool :=
  match String.compare a b with Gt => false | _ => true end.

End Text.

(** ** Integers and their decimal text *)

Module PyInt.

Definition digit_val (c : ascii) : Z := Z.of_N (Text.code c) - 48.

Definition digit_char (d : Z) : ascii := ascii_of_N (Z.to_N (d + 48)).

(** Value of a string of decimal digits, most significant first. *)
Fixpoint digits_val (acc : Z) (s : string) : Z :=
  match s with
  | EmptyString => acc
  | String c r => digits_val (10 * acc + digit_val c) r
  end.

(** Decimal digits of a positive number. *)
Fixpoint pos_digits (fuel : nat) (n : Z) (acc : string) : string :=
  match fuel with
  | O => acc
  | S fuel' =>
      let acc' := String (digit_char (n mod 10)) acc in
      if n <? 10 then acc' else pos_digits fuel' (n / 10) acc'
  end.

(** [str(n)] for an int. *)
Definition str (n : Z) : string :=
  if n <? 0 then String "-"%char (pos_digits (Z.to_nat (Z.log2 (- n)) + 1) (- n) EmptyString)
  else pos_digits (Z.to_nat (Z.log2 n) + 1) n EmptyString.

(** The digit part of an int literal: digits, with single underscores
    allowed between digits. *)
Fixpoint digits_with_underscores (prev_digit : bool) (s : string) : bool :=
  match s with
  | EmptyString => prev_digit
  | String c r =>
      if Text.is_digit c then digits_with_underscores true r
      else if Ascii.eqb c "_"%char then prev_digit && digits_with_underscores false r
      else false
  end.

(** [int(s)] in base 10: surrounding whitespace, an optional sign, digits
    with optional single underscores.  [None] stands for [ValueError]. *)
Definition parse (s : string) : option Z :=
  let t := Text.strip s in
  let '(neg, body) :=
    match t with
    | String "-"%char r => (true, r)
    | String "+"%char r => (false, r)
    | _ => (false, t)
    end in
  if digits_with_underscores false body
  then let v := digits_val 0 (Text.filter_chars Text.is_digit body) in
       Some (if neg then - v else v)
  else None.

End PyInt.

(** ** Data model *)

(** [QsoRecord]. *)
Record QsoRecord := mkQso {
  date : string;
  time : string;
  band_mhz : string;
  mode : string;
  worked_call : string;
  sent_exch : string;
  rcvd_exch : string;
  pts : Z;
  dup : bool;
  raw : string
}.

Definition set_dup (b : bool) (q : QsoRecord) : QsoRecord :=
  mkQso (date q) (time q) (band_mhz q) (mode q) (worked_call q)
        (sent_exch q) (rcvd_exch q) (pts q) b (raw q).

Definition set_pts (p : Z) (q : QsoRecord) : QsoRecord :=
  mkQso (date q) (time q) (band_mhz q) (mode q) (worked_call q)
        (sent_exch q) (rcvd_exch q) p (dup q) (raw q).

(** ** Duplicate pass *)

Definition DupKey : Type := string * string * string.

(** [key = (q.band_mhz.strip(), q.mode.strip().upper(),
            q.worked_call.strip().upper())]. *)
Definition dup_key (q : QsoRecord) : DupKey :=
  (Text.strip (band_mhz q),
   Text.upper (Text.strip (mode q)),
   Text.upper (Text.strip (worked_call q))).

(** The loop of [mark_duplicates], started with the set [seen]; returns the
    updated records and the final [seen] set. *)
Fixpoint mark_duplicates_loop (seen : gset DupKey) (qsos : list QsoRecord)
  : list QsoRecord * gset DupKey :=
  match qsos with
  | [] => ([], seen)
  | q :: rest =>
      let key := dup_key q in
      if decide (key ∈ seen) then
        let '(out, seen') := mark_duplicates_loop seen rest in
        (set_pts 0 (set_dup true q) :: out, seen')
      else
        let q' := if pts q =? 0 then set_dup true q else set_dup false q in
        let '(out, seen') := mark_duplicates_loop ({[key]} ∪ seen) rest in
        (q' :: out, seen')
  end.

Definition mark_duplicates (qsos : list QsoRecord) : list QsoRecord :=
  fst (mark_duplicates_loop ∅ qsos).

(** ** Numeric helpers of the source *)

(** The values [_safe_int] is applied to: [None], an int, or text. *)
Inductive PyVal :=
| PyNone
| PyIntV (n : Z)
| PyStrV (s : string).

Definition of_opt_int (o : option Z) : PyVal :=
  match o with Some n => PyIntV n | None => PyNone end.

Definition of_opt_str (o : option string) : PyVal :=
  match o with Some s => PyStrV s | None => PyNone end.

(** [_safe_int(x, default)]. *)
Definition _safe_int (x : PyVal) (default : Z) : Z :=
  match x with
  | PyNone => default
  | PyIntV n => n
  | PyStrV s =>
      let s := Text.replace "," "" (Text.strip s) in
      if decide (s = "" ∨ s = "-") then default
      else match PyInt.parse s with
           | Some n => n
           | None => default
           end
  end.

(** [_canon_exchange(exch)]. *)
Definition _canon_exchange (exch : string) : string :=
  let s := Text.strip exch in
  if decide (s = "" ∨ s = "-") then ""
  else
    let s := Text.filter_chars Text.is_digit s in
    if decide (s = "") then ""
    else match PyInt.parse s with
         | Some n => PyInt.str n
         | None => s
         end.

(** Truth value of a [str]: non-empty. *)
Definition truthy (s : string) : bool :=
  match s with EmptyString => false | _ => true end.

(** ** Station entries *)

(** [StationEntry]; the field [match] of the source is [match_] here. *)
Record StationEntry := mkEntry {
  callsign : string;
  category : string;
  category_name : string;
  opplace : string;
  address : string;
  comments : string;
  logsheet_type : string;
  claimed_qso : option Z;
  claimed_pts : option Z;
  claimed_mult : option Z;
  claimed_total : option Z;
  qsos : list QsoRecord;
  recalced_qso : Z;
  recalced_pts : Z;
  recalced_mult : Z;
  recalced_total : Z;
  manual_enabled : bool;
  manual_qso : option Z;
  manual_pts : option Z;
  manual_mult : option Z;
  manual_total : option Z;
  manual_note : string;
  manual_opplace : string;
  match_ : bool;
  reason : string;
  source_name : string;
  raw_submission_text : string;
  is_checklog : bool
}.

(** [StationEntry()] with the dataclass defaults. *)
Definition StationEntry_default : StationEntry :=
  mkEntry "" "" "" "" "" "" "" None None None None []
          0 0 0 0 false None None None None "" "" true "" "" "" false.

Definition set_opplace (v : string) (e : StationEntry) : StationEntry :=
  mkEntry (callsign e) (category e) (category_name e) v (address e)
    (comments e) (logsheet_type e) (claimed_qso e) (claimed_pts e)
    (claimed_mult e) (claimed_total e) (qsos e) (recalced_qso e)
    (recalced_pts e) (recalced_mult e) (recalced_total e) (manual_enabled e)
    (manual_qso e) (manual_pts e) (manual_mult e) (manual_total e)
    (manual_note e) (manual_opplace e) (match_ e) (reason e) (source_name e)
    (raw_submission_text e) (is_checklog e).

Definition set_qsos (v : list QsoRecord) (e : StationEntry) : StationEntry :=
  mkEntry (callsign e) (category e) (category_name e) (opplace e) (address e)
    (comments e) (logsheet_type e) (claimed_qso e) (claimed_pts e)
    (claimed_mult e) (claimed_total e) v (recalced_qso e)
    (recalced_pts e) (recalced_mult e) (recalced_total e) (manual_enabled e)
    (manual_qso e) (manual_pts e) (manual_mult e) (manual_total e)
    (manual_note e) (manual_opplace e) (match_ e) (reason e) (source_name e)
    (raw_submission_text e) (is_checklog e).

Definition set_recalced_qso (v : Z) (e : StationEntry) : StationEntry :=
  mkEntry (callsign e) (category e) (category_name e) (opplace e) (address e)
    (comments e) (logsheet_type e) (claimed_qso e) (claimed_pts e)
    (claimed_mult e) (claimed_total e) (qsos e) v
    (recalced_pts e) (recalced_mult e) (recalced_total e) (manual_enabled e)
    (manual_qso e) (manual_pts e) (manual_mult e) (manual_total e)
    (manual_note e) (manual_opplace e) (match_ e) (reason e) (source_name e)
    (raw_submission_text e) (is_checklog e).

Definition set_recalced_pts (v : Z) (e : StationEntry) : StationEntry :=
  mkEntry (callsign e) (category e) (category_name e) (opplace e) (address e)
    (comments e) (logsheet_type e) (claimed_qso e) (claimed_pts e)
    (claimed_mult e) (claimed_total e) (qsos e) (recalced_qso e)
    v (recalced_mult e) (recalced_total e) (manual_enabled e)
    (manual_qso e) (manual_pts e) (manual_mult e) (manual_total e)
    (manual_note e) (manual_opplace e) (match_ e) (reason e) (source_name e)
    (raw_submission_text e) (is_checklog e).

Definition set_recalced_mult (v : Z) (e : StationEntry) : StationEntry :=
  mkEntry (callsign e) (category e) (category_name e) (opplace e) (address e)
    (comments e) (logsheet_type e) (claimed_qso e) (claimed_pts e)
    (claimed_mult e) (claimed_total e) (qsos e) (recalced_qso e)
    (recalced_pts e) v (recalced_total e) (manual_enabled e)
    (manual_qso e) (manual_pts e) (manual_mult e) (manual_total e)
    (manual_note e) (manual_opplace e) (match_ e) (reason e) (source_name e)
    (raw_submission_text e) (is_checklog e).

Definition set_recalced_total (v : Z) (e : StationEntry) : StationEntry :=
  mkEntry (callsign e) (category e) (category_name e) (opplace e) (address e)
    (comments e) (logsheet_type e) (claimed_qso e) (claimed_pts e)
    (claimed_mult e) (claimed_total e) (qsos e) (recalced_qso e)
    (recalced_pts e) (recalced_mult e) v (manual_enabled e)
    (manual_qso e) (manual_pts e) (manual_mult e) (manual_total e)
    (manual_note e) (manual_opplace e) (match_ e) (reason e) (source_name e)
    (raw_submission_text e) (is_checklog e).

Definition set_verdict (m : bool) (r : string) (e : StationEntry) : StationEntry :=
  mkEntry (callsign e) (category e) (category_name e) (opplace e) (address e)
    (comments e) (logsheet_type e) (claimed_qso e) (claimed_pts e)
    (claimed_mult e) (claimed_total e) (qsos e) (recalced_qso e)
    (recalced_pts e) (recalced_mult e) (recalced_total e) (manual_enabled e)
    (manual_qso e) (manual_pts e) (manual_mult e) (manual_total e)
    (manual_note e) (manual_opplace e) m r (source_name e)
    (raw_submission_text e) (is_checklog e).

Definition set_is_checklog (v : bool) (e : StationEntry) : StationEntry :=
  mkEntry (callsign e) (category e) (category_name e) (opplace e) (address e)
    (comments e) (logsheet_type e) (claimed_qso e) (claimed_pts e)
    (claimed_mult e) (claimed_total e) (qsos e) (recalced_qso e)
    (recalced_pts e) (recalced_mult e) (recalced_total e) (manual_enabled e)
    (manual_qso e) (manual_pts e) (manual_mult e) (manual_total e)
    (manual_note e) (manual_opplace e) (match_ e) (reason e) (source_name e)
    (raw_submission_text e) v.

(** ** Recomputation, manual override and verdict *)

(** [(not q.dup) and q.pts > 0]. *)
Definition is_valid (q : QsoRecord) : bool := negb (dup q) && (0 <? pts q).

(** The loop filling [mult_set]. *)
Definition mult_set_of (valid : list QsoRecord) : gset string :=
  foldl (fun acc q =>
           let ex := _canon_exchange (rcvd_exch q) in
           if truthy ex then {[ex]} ∪ acc else acc)
        ∅ valid.

Definition sum_pts (valid : list QsoRecord) : Z :=
  foldl (fun acc q => acc + pts q) 0 valid.

(** The reason recorded for a zero claim. *)
Definition zero_claim_reason : string := "申告が0のため 0扱い（訂正しない）".

(** [add_reason(label, a, b)]: the reasons it appends. *)
Definition add_reason (label : string) (a : option Z) (b : Z) : list string :=
  match a with
  | None => []
  | Some v =>
      if _safe_int (PyIntV v) (-999999) =? b then []
      else [label +:+ "差（申告" +:+ PyInt.str v +:+ "/再計算" +:+ PyInt.str b +:+ "）"]
  end.

Section Scoring.

(** [normalize_opplace_any(text, fallback_text)], the place-name
    normalizer: a total function on text whose result only reaches the
    [opplace] field. *)
Variable normalize_opplace_any : string -> string -> string.

(** [_apply_manual_override(entry)]. *)
Definition _apply_manual_override (entry : StationEntry) : StationEntry :=
  if negb (manual_enabled entry) then entry
  else
    let entry := match manual_qso entry with
                 | Some v => set_recalced_qso v entry
                 | None => entry
                 end in
    let entry := match manual_pts entry with
                 | Some v => set_recalced_pts v entry
                 | None => entry
                 end in
    let entry := match manual_mult entry with
                 | Some v => set_recalced_mult v entry
                 | None => entry
                 end in
    let entry := match manual_total entry with
                 | Some v => set_recalced_total v entry
                 | None => set_recalced_total
                             (recalced_pts entry * recalced_mult entry) entry
                 end in
    if truthy (Text.strip (manual_opplace entry))
    then set_opplace (normalize_opplace_any
                        (Text.strip (manual_opplace entry)) (address entry))
                     entry
    else entry.

(** Lines 806-819 of [recalc_entry]: the duplicate pass and the four
    recomputed figures. *)
Definition recalc_scores (entry : StationEntry) : StationEntry :=
  let qsos := mark_duplicates (qsos entry) in
  let entry := set_qsos qsos entry in
  let valid := filter (fun q => is_valid q = true) qsos in
  let entry := set_recalced_qso (Z.of_nat (length valid)) entry in
  let entry := set_recalced_pts (sum_pts valid) entry in
  let mult_set := mult_set_of valid in
  let entry := set_recalced_mult (Z.of_nat (size mult_set)) entry in
  set_recalced_total (recalced_pts entry * recalced_mult entry) entry.

(** Lines 823-843 of [recalc_entry]: the comparison with the claim. *)
Definition recalc_verdict (entry : StationEntry) : StationEntry :=
  if match claimed_total entry with
     | Some v => _safe_int (PyIntV v) 0 =? 0
     | None => false
     end
  then set_verdict true zero_claim_reason entry
  else
    let reasons :=
      add_reason "QSO数" (claimed_qso entry) (recalced_qso entry) ++
      add_reason "素点" (claimed_pts entry) (recalced_pts entry) ++
      add_reason "マルチ" (claimed_mult entry) (recalced_mult entry) ++
      add_reason "総得点" (claimed_total entry) (recalced_total entry) in
    let note :=
      if manual_enabled entry && truthy (Text.strip (manual_note entry))
      then " / 手動:" +:+ manual_note entry else "" in
    set_verdict (Nat.eqb (length reasons) 0)
                (Text.join " / " reasons +:+ note) entry.

(** [recalc_entry(entry)]. *)
Definition recalc_entry (entry : StationEntry) : StationEntry :=
  recalc_verdict (_apply_manual_override (recalc_scores entry)).

End Scoring.

(** ** Ranking *)

Definition Metrics : Type := Z * Z * Z * Z.

(** [_entry_rank_metrics(e)]. *)
Definition _entry_rank_metrics (e : StationEntry) : Metrics :=
  (recalced_total e, recalced_pts e, recalced_mult e, recalced_qso e).

Definition metrics_eqb (a b : Metrics) : bool := bool_decide (a = b).

(** Comparison of the sort keys
    [(-total, -pts, -mult, -qso, callsign)] of two entries. *)
Definition sort_key_compare (a b : StationEntry) : comparison :=
  match Z.compare (- recalced_total a) (- recalced_total b) with
  | Eq =>
    match Z.compare (- recalced_pts a) (- recalced_pts b) with
    | Eq =>
      match Z.compare (- recalced_mult a) (- recalced_mult b) with
      | Eq =>
        match Z.compare (- recalced_qso a) (- recalced_qso b) with
        | Eq => String.compare (callsign a) (callsign b)
        | c => c
        end
      | c => c
      end
    | c => c
    end
  | c => c
  end.

Section Sorting.

Context {A : Type} (cmp : A -> A -> comparison).

Fixpoint insert_sorted (x : A) (l : list A) : list A :=
  match l with
  | [] => [x]
  | y :: r =>
      match cmp x y with
      | Gt => y :: insert_sorted x r
      | _ => x :: l
      end
  end.

(** [sorted(l, key=...)]: a stable sort; elements with equal keys keep
    their order. *)
Definition sorted (l : list A) : list A := foldr insert_sorted [] l.

End Sorting.

(** The ranking loop of [rank_entries]: [i] is the position counted from
    1, [prev_metrics] and [prev_rank] those of the previous entry. *)
Fixpoint rank_loop (i : Z) (prev_metrics : option Metrics) (prev_rank : Z)
         (es : list StationEntry) : list (Z * StationEntry) :=
  match es with
  | [] => []
  | e :: rest =>
      let metrics := _entry_rank_metrics e in
      let rank :=
        match prev_metrics with
        | Some pm => if metrics_eqb metrics pm then prev_rank else i
        | None => i
        end in
      (rank, e) :: rank_loop (i + 1) (Some metrics) rank rest
  end.

(** [rank_entries(entries)]. *)
Definition rank_entries (entries : list StationEntry) : list (Z * StationEntry) :=
  let sorted_es := sorted sort_key_compare entries in
  let ranked := rank_loop 1 None 0 sorted_es in
  let checklog_entries := filter (fun e => is_checklog e = true) entries in
  ranked ++ map (fun e => (0, e)) checklog_entries.

(** The selection loop of [top_n_with_ties]; stopping models [break]. *)
Fixpoint top_n_loop (n : Z) (cutoff_metrics : Metrics)
         (out ranked : list (Z * StationEntry)) : list (Z * StationEntry) :=
  match ranked with
  | [] => out
  | (r, e) :: rest =>
      if Z.of_nat (length out) <? n
      then top_n_loop n cutoff_metrics (out ++ [(r, e)]) rest
      else if metrics_eqb (_entry_rank_metrics e) cutoff_metrics
           then top_n_loop n cutoff_metrics (out ++ [(r, e)]) rest
           else out
  end.

(** [top_n_with_ties(entries, n)]. *)
Definition top_n_with_ties (entries : list StationEntry) (n : Z)
  : list (Z * StationEntry) :=
  let ranked := rank_entries entries in
  if (n <=? 0) || Nat.eqb (length ranked) 0 then []
  else if Z.of_nat (length ranked) <=? n then ranked
  else match ranked !! Z.to_nat (n - 1) with
       | Some (_, cutoff_entry) =>
           top_n_loop n (_entry_rank_metrics cutoff_entry) [] ranked
       | None => []
       end.

(** ** Award lists *)

(** Exceptions a modelled function can raise. *)
Inductive PyExn := ValueError.

Inductive Result (A : Type) :=
| Ok (a : A)
| Raise (e : PyExn).
Arguments Ok {A} a.
Arguments Raise {A} e.

Definition bind {A B} (r : Result A) (k : A -> Result B) : Result B :=
  match r with
  | Ok a => k a
  | Raise e => Raise e
  end.

(** [int(s)], raising [ValueError] on malformed text. *)
Definition int_of_str (s : string) : Result Z :=
  match PyInt.parse s with
  | Some n => Ok n
  | None => Raise ValueError
  end.

(** [extract_call_area_digit_base(callsign)]. *)
Definition extract_call_area_digit_base (callsign : string) : Result (option Z) :=
  let parts := Text.split_on "/"%char callsign in
  if (1 <? length parts)%nat then
    match parts !! 1%nat with
    | Some area => bind (int_of_str area) (fun n => Ok (Some n))
    | None => Ok None
    end
  else Ok None.

(** A [dict] keyed by area, in insertion order: assigning to a present
    key keeps its position. *)
Fixpoint dict_set (k : Z) (v : StationEntry) (d : list (Z * StationEntry))
  : list (Z * StationEntry) :=
  match d with
  | [] => [(k, v)]
  | (k', v') :: r => if k' =? k then (k, v) :: r else (k', v') :: dict_set k v r
  end.

Fixpoint dict_get (k : Z) (d : list (Z * StationEntry)) : option StationEntry :=
  match d with
  | [] => None
  | (k', v') :: r => if k' =? k then Some v' else dict_get k r
  end.

(** The loop over [out_entries] of [build_award_lists]. *)
Fixpoint area_loop (area_winners : list (Z * StationEntry))
         (out_entries : list StationEntry) : Result (list (Z * StationEntry)) :=
  match out_entries with
  | [] => Ok area_winners
  | e :: rest =>
      bind (extract_call_area_digit_base (callsign e)) (fun area =>
        match area with
        | Some a =>
            match dict_get a area_winners with
            | None => area_loop (dict_set a e area_winners) rest
            | Some w =>
                if recalced_total w <? recalced_total e
                then area_loop (dict_set a e area_winners) rest
                else area_loop area_winners rest
            end
        | None => area_loop area_winners rest
        end)
  end.

Definition in_area_cats : list string := ["1F"; "1P"; "1Q"; "SWL"].

Definition category_is (cat : string) (e : StationEntry) : bool :=
  bool_decide (Text.strip (category e) = cat).

(** [build_award_lists(entries)]. *)
Definition build_award_lists (entries : list StationEntry)
  : Result (list (string * Z * StationEntry) * list (Z * Z * StationEntry)) :=
  let valid_entries := filter (fun e => is_checklog e = false) entries in
  let in_entries :=
    filter (fun e => Text.strip (category e) ∈ in_area_cats) valid_entries in
  let out_entries := filter (fun e => category_is "1X" e = true) valid_entries in
  let cats :=
    sorted String.compare
           (remove_dups (map (fun e => Text.strip (category e)) in_entries)) in
  let rows_in :=
    flat_map (fun cat =>
                let es := filter (fun e => category_is cat e = true) in_entries in
                map (fun '(rank, e) => (cat, rank, e)) (top_n_with_ties es 3))
             cats in
  bind (area_loop [] out_entries) (fun area_winners =>
    Ok (rows_in, map (fun '(area, e) => (area, 1, e)) area_winners)).

(** ** Token normalizers *)

Definition RST_PREFIXES : list string := ["59"; "57"; "55"; "58"; "56"].

(** [re.fullmatch] of a fixed sequence of one-character classes. *)
Fixpoint fullmatch_classes (cls : list (ascii -> bool)) (s : string) : bool :=
  match cls, s with
  | [], EmptyString => true
  | p :: cls', String c r => p c && fullmatch_classes cls' r
  | _, _ => false
  end.

Definition is_char (x : ascii) (c : ascii) : bool := Ascii.eqb c x.

Definition is_date_sep (c : ascii) : bool :=
  is_char "-"%char c || is_char "/"%char c.

(** [re.fullmatch(r"\d+", s)]. *)
Definition all_digits (s : string) : bool :=
  truthy s && Text.all_chars Text.is_digit s.

(** [_looks_date(s)]: [\d{4}[-/]\d{2}[-/]\d{2}]. *)
Definition _looks_date (s : string) : bool :=
  fullmatch_classes
    [Text.is_digit; Text.is_digit; Text.is_digit; Text.is_digit; is_date_sep;
     Text.is_digit; Text.is_digit; is_date_sep; Text.is_digit; Text.is_digit]
    (Text.strip s).

Definition is_hh_colon_mm (s : string) : bool :=
  fullmatch_classes
    [Text.is_digit; Text.is_digit; is_char ":"%char; Text.is_digit; Text.is_digit] s.

Definition is_four_digits (s : string) : bool :=
  fullmatch_classes [Text.is_digit; Text.is_digit; Text.is_digit; Text.is_digit] s.

(** [_looks_time(s)]. *)
Definition _looks_time (s : string) : bool :=
  let s := Text.strip s in
  is_hh_colon_mm s || is_four_digits s.

(** [_parse_time(tok)]. *)
Definition _parse_time (tok : string) : string :=
  if negb (truthy tok) then ""
  else
    let s := Text.strip tok in
    if is_hh_colon_mm s then s
    else if is_four_digits s then Text.take 2 s +:+ ":" +:+ Text.drop 2 s
    else s.

(** [_parse_band_mhz(tok)]. *)
Definition _parse_band_mhz (tok : string) : string :=
  let s := Text.strip tok in
  Text.strip (Text.replace "mhz" "" (Text.replace "MHz" "" s)).

(** [_clean_callsign(call)]. *)
Definition _clean_callsign (call : string) : string :=
  if negb (truthy call) then "" else Text.upper (Text.strip call).

Definition is_call_char (c : ascii) : bool :=
  Text.is_upper_letter c || Text.is_digit c || is_char "/"%char c.

Fixpoint any_char (p : ascii -> bool) (s : string) : bool :=
  match s with
  | EmptyString => false
  | String c r => p c || any_char p r
  end.

(** [_looks_callsign(tok)]. *)
Definition _looks_callsign (tok : string) : bool :=
  let s := Text.upper (Text.strip tok) in
  if negb (truthy s) then false
  else if negb (Text.all_chars is_call_char s) then false
  else any_char Text.is_upper_letter s.

(** The first RST code that [s] starts with and is longer than, as the
    [for] loop of [_extract_exchange_from_token] finds it. *)
Fixpoint first_rst_prefix (rsts : list string) (s : string) : option string :=
  match rsts with
  | [] => None
  | rst :: more =>
      if Text.startswith rst s && (String.length rst <? String.length s)%nat
      then Some rst
      else first_rst_prefix more s
  end.

(** [_extract_exchange_from_token(tok)]. *)
Definition _extract_exchange_from_token (tok : string) : string :=
  let s := Text.strip tok in
  if decide (s = "" ∨ s = "-") then ""
  else if bool_decide (s ∈ RST_PREFIXES) then ""
  else match first_rst_prefix RST_PREFIXES s with
       | Some rst =>
           Text.filter_chars Text.is_digit (Text.drop (String.length rst) s)
       | None => Text.filter_chars Text.is_digit s
       end.

(** ** Binary64 arithmetic of [_canon_band_token]

    [float(s)], [round(f)] and the comparison with [1e-9] are computed
    exactly on rationals: a finite double is [m * 2^e] with
    [0 <= m < 2^53] and [-1074 <= e <= 971]. *)

Module Float64.

(** Round the non-negative rational [num/den] to the nearest integer,
    ties to even. *)
Definition round_half_even (num den : Z) : Z :=
  let q := num / den in
  let r := num mod den in
  match Z.compare (2 * r) den with
  | Lt => q
  | Gt => q + 1
  | Eq => if Z.even q then q else q + 1
  end.

(** [num/den >= 2^x]. *)
Definition ge_pow2 (num den x : Z) : bool :=
  if 0 <=? x then den * 2 ^ x <=? num else den <=? num * 2 ^ (- x).

(** The double nearest to [num/den] ([num >= 0], [den > 0]), ties to
    even; [None] is the infinite result of an overflow. *)
Definition of_ratio (num den : Z) : option (Z * Z) :=
  if num =? 0 then Some (0, 0)
  else
    let l := Z.log2 num - Z.log2 den in
    let fl := if ge_pow2 num den l then l else l - 1 in
    let e := Z.max (fl - 52) (-1074) in
    let m := if 0 <=? e then round_half_even num (den * 2 ^ e)
             else round_half_even (num * 2 ^ (- e)) den in
    let '(m, e) := if m =? 2 ^ 53 then (2 ^ 52, e + 1) else (m, e) in
    if 971 <? e then None else Some (m, e).

(** [round(f)] of the finite double [m * 2^e]. *)
Definition round (m e : Z) : Z :=
  if 0 <=? e then m * 2 ^ e else round_half_even m (2 ^ (- e)).

(** [abs(f - r) < 1e-9] for the double [f = m * 2^e] and the integer
    [r = round(f)]; the difference is exact, and the double written
    [1e-9] is [4835703278458517 / 2^82]. *)
Definition near (m e r : Z) : bool :=
  if 0 <=? e then true
  else Z.abs (m - r * 2 ^ (- e)) * 2 ^ 82 <? 4835703278458517 * 2 ^ (- e).

End Float64.

(** [re.fullmatch(r"\d+(\.\d+)?", s)]: the integer and fraction digits. *)
Definition split_decimal (s : string) : option (string * string) :=
  match Text.split_on "."%char s with
  | [ip] => if all_digits ip then Some (ip, "") else None
  | [ip; fp] => if all_digits ip && all_digits fp then Some (ip, fp) else None
  | _ => None
  end.

(** [_canon_band_token(tok)]. *)
Definition _canon_band_token (tok : string) : string :=
  let s := Text.strip (_parse_band_mhz tok) in
  if decide (s = "") then ""
  else match split_decimal s with
       | Some (ip, fp) =>
           let num := PyInt.digits_val 0 (ip +:+ fp) in
           let den := 10 ^ Z.of_nat (String.length fp) in
           match Float64.of_ratio num den with
           | Some (m, e) =>
               let r := Float64.round m e in
               if Float64.near m e r then PyInt.str r else s
           | None => s
           end
       | None => s
       end.

(** ** The CTESTWIN line parser *)

(** [re.search(r"\s0\s*$", s)]. *)
Fixpoint ends_with_blank_zero (s : string) : bool :=
  match s with
  | EmptyString => false
  | String a r =>
      (Text.is_space a &&
       match r with
       | String z r' => is_char "0"%char z && Text.all_chars Text.is_space r'
       | EmptyString => false
       end)
      || ends_with_blank_zero r
  end.

Definition is_dup_word (tok : string) : bool :=
  bool_decide (Text.lower tok ∈ ["dupe"; "dup"]).

Definition pts_text (tok : string) : string :=
  Text.strip (Text.replace "," "" tok).

(** [_take_pts_from_tail(tokens, raw_line)]; a token matching [\d+] is
    always accepted by [int]. *)
Definition _take_pts_from_tail (tokens : list string) (raw_line : string)
  : Z * list string :=
  match last tokens with
  | None => (2, tokens)
  | Some tk =>
      let tail := pts_text tk in
      if all_digits tail
      then (PyInt.digits_val 0 tail, removelast tokens)
      else
        let by_dup :=
          if (2 <=? length tokens)%nat && is_dup_word tk then
            match last (removelast tokens) with
            | Some tk2 =>
                let tail2 := pts_text tk2 in
                if all_digits tail2
                then Some (PyInt.digits_val 0 tail2, removelast (removelast tokens))
                else None
            | None => None
            end
          else None in
        match by_dup with
        | Some res => res
        | None =>
            if ends_with_blank_zero raw_line then (0, tokens) else (2, tokens)
        end
  end.

(** [[i for i, tok in enumerate(rest) if tok in RST_PREFIXES]]. *)
Fixpoint rst_indices (i : nat) (rest : list string) : list nat :=
  match rest with
  | [] => []
  | tok :: more =>
      if bool_decide (tok ∈ RST_PREFIXES) then i :: rst_indices (S i) more
      else rst_indices (S i) more
  end.

Definition item_or_empty (l : list string) (i : nat) : string :=
  default "" (l !! i).

(** The sent and received exchange tokens picked from [rest]. *)
Definition pick_exchanges (rest : list string) : string * string :=
  match rst_indices 0 rest with
  | i1 :: i2 :: _ => (item_or_empty rest (i1 + 1), item_or_empty rest (i2 + 1))
  | [i] =>
      (match i with O => "" | S j => item_or_empty rest j end,
       item_or_empty rest (i + 1))
  | [] => (item_or_empty rest 0, item_or_empty rest 1)
  end.

(** The body of the loop of [parse_logsheet_ctestwin] for one line;
    [None] when the line is skipped. *)
Definition parse_ctestwin_line (raw : string) : option QsoRecord :=
  let s := Text.strip raw in
  if negb (truthy s) then None
  else if Text.startswith "DATE" s || Text.startswith "---" s
          || Text.startswith "Date" s then None
  else
    let parts := Text.split s in
    if (length parts <? 6)%nat then None
    else match parts with
         | p0 :: p1 :: p2 :: p3 :: p4 :: rest =>
             if negb (_looks_date p0) || negb (_looks_time p1) then None
             else
               let date := Text.replace "/" "-" p0 in
               let time := _parse_time p1 in
               let band := _parse_band_mhz p2 in
               let mode :=
                 if all_digits p3 && (6 <=? length parts)%nat && _looks_callsign p4
                 then "AM" else p3 in
               let call := _clean_callsign p4 in
               let '(pts, rest) := _take_pts_from_tail rest s in
               let '(sent_tok, rcvd_tok) := pick_exchanges rest in
               let sent_exch := _canon_exchange (_extract_exchange_from_token sent_tok) in
               let rcvd_exch := _canon_exchange (_extract_exchange_from_token rcvd_tok) in
               let pts :=
                 if pts <=? 0 then
                   if ends_with_blank_zero s
                      || Text.contains "dupe" (Text.lower s)
                      || Text.contains "dup" (Text.lower s)
                   then 0 else 2
                 else pts in
               Some (mkQso date time band mode call sent_exch rcvd_exch pts false raw)
         | _ => None
         end.

(** [parse_logsheet_ctestwin(lines)]. *)
Definition parse_logsheet_ctestwin (lines : list string) : list QsoRecord :=
  omap parse_ctestwin_line lines.

(** ** Export to the canonical line *)

Definition or_else (s d : string) : string := if truthy s then s else d.

(** [qso_to_ctestwin_line(q)]. *)
Definition qso_to_ctestwin_line (q : QsoRecord) : string :=
  let date := Text.strip (Text.replace "/" "-" (date q)) in
  let time := Text.strip (_parse_time (time q)) in
  let band := or_else (_canon_band_token (band_mhz q)) "50" in
  let mode := Text.upper (Text.strip (or_else (mode q) "AM")) in
  let call := _clean_callsign (worked_call q) in
  let sent := or_else (_canon_exchange (sent_exch q)) "-" in
  let rcvd := or_else (_canon_exchange (rcvd_exch q)) "-" in
  let pts := _safe_int (PyIntV (pts q)) 2 in
  date +:+ " " +:+ time +:+ " " +:+ band +:+ " " +:+ mode +:+ " " +:+ call
       +:+ " 59 " +:+ sent +:+ " 59 " +:+ rcvd +:+ " " +:+ PyInt.str pts.

(** The tuple compared by the round trip. *)
Definition qso_tuple (q : QsoRecord)
  : string * string * string * string * string * Z :=
  (worked_call q, band_mhz q, mode q, sent_exch q, rcvd_exch q, pts q).

(** ** Summary sheet *)

Definition CR : string := String "013"%char EmptyString.
Definition LF : string := String "010"%char EmptyString.

(** [_clean(s)]. *)
Definition _clean (s : string) : string :=
  Text.replace CR LF (Text.replace (CR +:+ LF) LF s).

Definition is_blank (c : ascii) : bool :=
  is_char " "%char c || is_char "009"%char c.

(** [re.sub(r"[ \t]+", " ", s)]. *)
Fixpoint collapse_blanks (prev_blank : bool) (s : string) : string :=
  match s with
  | EmptyString => EmptyString
  | String c r =>
      if is_blank c
      then if prev_blank then collapse_blanks true r
           else String " "%char (collapse_blanks true r)
      else String c (collapse_blanks false r)
  end.

(** [_strip_tags_text(x)]. *)
Definition _strip_tags_text (x : string) : string :=
  Text.strip (collapse_blanks false (Text.strip x)).

(** The text before and after the first occurrence of [pat] in [s],
    letter case ignored. *)
Fixpoint partition_ci (pat s : string) : option (string * string) :=
  if Text.startswith (Text.lower pat) (Text.lower s)
  then Some (EmptyString, Text.drop (String.length pat) s)
  else match s with
       | EmptyString => None
       | String c r =>
           match partition_ci pat r with
           | Some (before, after) => Some (String c before, after)
           | None => None
           end
       end.

(** [_find_tag(text, tag)] for an alphanumeric [tag]: the first opening
    tag that is followed by a closing tag, and the text up to the nearest
    closing tag. *)
Definition _find_tag (text tag : string) : option string :=
  match partition_ci ("<" +:+ tag +:+ ">") text with
  | Some (_, rest) =>
      match partition_ci ("</" +:+ tag +:+ ">") rest with
      | Some (inner, _) => Some (_strip_tags_text inner)
      | None => None
      end
  | None => None
  end.

(** [_to_int(x)] of [_parse_score_triplet]. *)
Definition _to_int (x : string) : option Z :=
  let x := Text.strip (Text.replace "," "" x) in
  if decide (x = "" ∨ x = "-") then None else PyInt.parse x.

(** [_parse_score_triplet(score_text)]. *)
Definition _parse_score_triplet (score_text : string)
  : option Z * option Z * option Z :=
  if negb (truthy score_text) then (None, None, None)
  else match map Text.strip (Text.split_on ","%char score_text) with
       | p0 :: p1 :: p2 :: _ => (_to_int p0, _to_int p1, _to_int p2)
       | _ => (None, None, None)
       end.

(** The dictionary returned by [parse_summarysheet]; every key is always
    present. *)
Record Summary := mkSummary {
  sm_contestname : string;
  sm_categorycode : string;
  sm_categoryname : string;
  sm_callsign : string;
  sm_opcallsign : string;
  sm_address : string;
  sm_opplace : string;
  sm_comments : string;
  sm_claimed_qso : option Z;
  sm_claimed_pts : option Z;
  sm_claimed_mult : option Z;
  sm_claimed_total : Z
}.

Definition tag_or_empty (sb tag : string) : string :=
  default "" (_find_tag sb tag).

(** [\w] on the ASCII range; bytes above 127 count as word characters. *)
Definition is_word_char (c : ascii) : bool :=
  Text.is_upper_letter c || Text.is_lower_letter c || Text.is_digit c
  || is_char "_"%char c || (128 <=? Text.code c)%N.

(** [s] starts with [pat], letter case ignored. *)
Definition startswith_ci (pat s : string) : bool :=
  Text.startswith (Text.lower pat) (Text.lower s).

(** The text before and after the first [ch] in [s]. *)
Fixpoint partition_char (ch : ascii) (s : string) : option (string * string) :=
  match s with
  | EmptyString => None
  | String c r =>
      if Ascii.eqb c ch then Some (EmptyString, r)
      else match partition_char ch r with
           | Some (before, after) => Some (String c before, after)
           | None => None
           end
  end.

(** A double quote (code 34) or a single quote. *)
Definition is_quote (c : ascii) : bool :=
  is_char (ascii_of_N 34) c || is_char "'"%char c.

(** [BAND\s*=\s*Q?band], where Q is a quote, letter case ignored, matched
    at the start of [s]. *)
Definition band_attr_at (band s : string) : bool :=
  if startswith_ci "BAND" s then
    match Text.lstrip (Text.drop 4 s) with
    | String eq after_eq =>
        if is_char "="%char eq then
          let v := Text.lstrip after_eq in
          let v := match v with
                   | String c r => if is_quote c then r else v
                   | EmptyString => v
                   end in
          startswith_ci band v
        else false
    | EmptyString => false
    end
  else false.

(** The same, matched somewhere in [attrs]. *)
Fixpoint band_attr_in (band attrs : string) : bool :=
  band_attr_at band attrs
  || match attrs with
     | EmptyString => false
     | String _ r => band_attr_in band r
     end.

(** The pattern [<SCORE\b[^>]*BAND\s*=\s*Q?band\1?[^>]*>(.*?)</SCORE>],
    where Q is the optional quote group 1, matched at the start of [s]: the
    attributes run up to the first [>], the text up to the nearest closing
    tag. *)
Definition score_at (band s : string) : option string :=
  if startswith_ci "<SCORE" s then
    let rest := Text.drop 6 s in
    if match rest with
       | String c _ => negb (is_word_char c)
       | EmptyString => true
       end
    then match partition_char ">"%char rest with
         | Some (attrs, after) =>
             if band_attr_in band attrs then
               match partition_ci "</SCORE>" after with
               | Some (inner, _) => Some inner
               | None => None
               end
             else None
         | None => None
         end
    else None
  else None.

(** [re.search] of that pattern: group 2 of the leftmost match. *)
Fixpoint search_score (band s : string) : option string :=
  match score_at band s with
  | Some inner => Some inner
  | None =>
      match s with
      | EmptyString => None
      | String _ r => search_score band r
      end
  end.

(** The score text [score_50 or ""] of [parse_summarysheet]: the [50MHz]
    score element, else the [TOTAL] one. *)
Definition score_text (sb : string) : string :=
  let score_50 := option_map _strip_tags_text (search_score "50MHz" sb) in
  let score_50 :=
    if negb (truthy (default "" score_50))
    then match search_score "TOTAL" sb with
         | Some t => Some (_strip_tags_text t)
         | None => score_50
         end
    else score_50 in
  default "" score_50.

(** [parse_summarysheet(summary_block)]. *)
Definition parse_summarysheet (summary_block : string) : Summary :=
  let sb := _clean summary_block in
  let '(qso, pts, mult) := _parse_score_triplet (score_text sb) in
  mkSummary
    (tag_or_empty sb "CONTESTNAME")
    (tag_or_empty sb "CATEGORYCODE")
    (tag_or_empty sb "CATEGORYNAME")
    (_clean_callsign (tag_or_empty sb "CALLSIGN"))
    (_clean_callsign (tag_or_empty sb "OPCALLSIGN"))
    (_strip_tags_text (tag_or_empty sb "ADDRESS"))
    (_strip_tags_text (tag_or_empty sb "OPPLACE"))
    (_strip_tags_text (tag_or_empty sb "COMMENTS"))
    qso pts mult
    (_safe_int (of_opt_str (_find_tag sb "TOTALSCORE")) 0).

(** The claimed figures copied from the summary by
    [build_station_entry_from_text] ([sd.get(...)] on keys that are always
    present). *)
Definition set_claimed (sd : Summary) (e : StationEntry) : StationEntry :=
  mkEntry (callsign e) (category e) (category_name e) (opplace e) (address e)
    (comments e) (logsheet_type e) (sm_claimed_qso sd) (sm_claimed_pts sd)
    (sm_claimed_mult sd) (Some (sm_claimed_total sd)) (qsos e) (recalced_qso e)
    (recalced_pts e) (recalced_mult e) (recalced_total e) (manual_enabled e)
    (manual_qso e) (manual_pts e) (manual_mult e) (manual_total e)
    (manual_note e) (manual_opplace e) (match_ e) (reason e) (source_name e)
    (raw_submission_text e) (is_checklog e).

(** ** Specification-side definitions *)

(** What the duplicate pass does to one contact, given the keys of the
    contacts before it. *)
Definition mark_one (earlier : list DupKey) (q : QsoRecord) : QsoRecord :=
  if bool_decide (dup_key q ∈ earlier)
  then set_pts 0 (set_dup true q)
  else set_dup (pts q =? 0) q.

(** The duplicate pass as a reading of the prose that records a key only
    for a contact marked not-duplicate. *)
Fixpoint mark_duplicates_key_of_valid_only (seen : gset DupKey)
         (qsos : list QsoRecord) : list QsoRecord * gset DupKey :=
  match qsos with
  | [] => ([], seen)
  | q :: rest =>
      let key := dup_key q in
      if decide (key ∈ seen) then
        let '(out, seen') := mark_duplicates_key_of_valid_only seen rest in
        (set_pts 0 (set_dup true q) :: out, seen')
      else if pts q =? 0 then
        let '(out, seen') := mark_duplicates_key_of_valid_only seen rest in
        (set_dup true q :: out, seen')
      else
        let '(out, seen') :=
          mark_duplicates_key_of_valid_only ({[key]} ∪ seen) rest in
        (set_dup false q :: out, seen')
  end.

(** The distinct non-empty canonical received exchanges of a list of
    contacts, in order of first appearance. *)
Definition distinct_exchanges (valid : list QsoRecord) : list string :=
  remove_dups
    (filter (fun ex => ex ≠ "")
            (map (fun q => _canon_exchange (rcvd_exch q)) valid)).

(** The valid contacts of an entry after the duplicate pass. *)
Definition valid_qsos (e : StationEntry) : list QsoRecord :=
  filter (fun q => is_valid q = true) (mark_duplicates (qsos e)).

(** The last clause of the prose reading: every key in the final [seen]
    set belongs to a contact that was marked not-duplicate. *)
Definition seen_only_for_not_duplicates (qsos : list QsoRecord) : Prop :=
  ∀ k, k ∈ (mark_duplicates_loop ∅ qsos).2 →
       ∃ q, q ∈ (mark_duplicates_loop ∅ qsos).1 ∧ dup q = false ∧ dup_key q = k.

(** ** Sample data *)

(** A contact on 50 MHz AM with the given callsign, received exchange and
    points. *)
Definition sample_qso (call rcvd : string) (p : Z) : QsoRecord :=
  mkQso "2025-05-05" "10:00" "50" "AM" call "5" rcvd p false "".

(** A zero-point contact followed by a two-point contact with the same
    station. *)
Definition zero_then_two : list QsoRecord :=
  [sample_qso "JA1ABC" "12" 0; sample_qso "JA1ABC" "12" 2].

Definition sample_log : list QsoRecord :=
  [sample_qso "JA1ABC" "12" 2; sample_qso "JA1XYZ" "13" 0;
   sample_qso "ja1abc" "12" 2; sample_qso "JH1QRP" "012" 2].

(** The place-name normalizer used when evaluating sample entries. *)
Definition opplace_unchanged (text fallback_text : string) : string := text.

(** An entry claiming 99 contacts and a total of zero, with the sample
    log. *)
Definition zero_claim_entry : StationEntry :=
  mkEntry "JA1ZZZ" "1F" "" "" "" "" "" (Some 99) None None (Some 0) sample_log
          0 0 0 0 false None None None None "" "" true "" "" "" false.

(** An entry with the given recomputed figures. *)
Definition scored_entry (call cat : string) (qso pts mult : Z) (chk : bool)
  : StationEntry :=
  mkEntry call cat "" "" "" "" "" None None None None []
          qso pts mult (pts * mult) false None None None None "" "" true "" ""
          "" chk.

Definition competitor : StationEntry := scored_entry "JA1ABC" "1F" 5 10 3 false.

(** A station outside area 1 operating portable. *)
Definition portable_station : StationEntry :=
  scored_entry "JA2XYZ/P" "1X" 5 10 3 false.

(** A summary sheet with a score line and no [TOTALSCORE] element. *)
Definition summary_without_totalscore : string :=
  "<SUMMARYSHEET VERSION=R1.0><CALLSIGN>JA1ZZZ</CALLSIGN>"
  +:+ "<SCORE BAND=50MHz>99,198,50</SCORE></SUMMARYSHEET>".

(** The entry being built when the summary is read: the sample log, no
    claimed figure yet. *)
Definition unclaimed_entry : StationEntry :=
  mkEntry "JA1ZZZ" "1F" "" "" "" "" "" None None None None sample_log
          0 0 0 0 false None None None None "" "" true "" "" "" false.

(** ** Round trip through the canonical line *)

(** Export every record and parse the lines again. *)
Definition reexport_and_reparse (qsos : list QsoRecord) : list QsoRecord :=
  parse_logsheet_ctestwin (map qso_to_ctestwin_line qsos).

(** Two logs have the same set of tuples. *)
Definition same_tuple_set (a b : list QsoRecord) : Prop :=
  ∀ t, t ∈ map qso_tuple a ↔ t ∈ map qso_tuple b.

(** A non-empty text without white space: one item of [str.split]. *)
Definition is_token (s : string) : bool :=
  truthy s && Text.all_chars (fun c => negb (Text.is_space c)) s.

(** An exchange the exporter and the parser leave as it is: digits only
    (possibly none), canonical, and neither an RST code nor an RST code
    followed by more digits. *)
Definition exchange_ok (x : string) : bool :=
  Text.all_chars Text.is_digit x
  && String.eqb (_canon_exchange x) x
  && String.eqb (_extract_exchange_from_token x) x.

(** A record already in the form of the canonical line: the parser accepts
    its date and time; band, mode and callsign are single tokens that the
    normalizers leave unchanged, the mode not a number; both exchanges are
    [exchange_ok]; the points are not negative. *)
Definition canonical_qso (q : QsoRecord) : bool :=
  _looks_date (date q) && _looks_time (time q)
  && is_token (band_mhz q)
  && String.eqb (_canon_band_token (band_mhz q)) (band_mhz q)
  && String.eqb (_parse_band_mhz (band_mhz q)) (band_mhz q)
  && is_token (mode q)
  && String.eqb (Text.upper (mode q)) (mode q)
  && negb (all_digits (mode q))
  && is_token (worked_call q)
  && String.eqb (Text.upper (worked_call q)) (worked_call q)
  && exchange_ok (sent_exch q) && exchange_ok (rcvd_exch q)
  && (0 <=? pts q).

(** A log line whose sent exchange is the number 59. *)
Definition line_with_exchange_59 : string :=
  "2025-05-05 10:00 50 AM JA1ABC 5959 5912 2".

(** Canonical records: an ordinary contact, a zero-point contact, a
    contact without a sent exchange. *)
Definition canonical_log : list QsoRecord :=
  [mkQso "2025-05-05" "10:00" "50" "AM" "JA1ABC" "5" "12" 2 false "";
   mkQso "2025/05/05" "1001" "50" "AM" "JA1XYZ/1" "5" "13" 0 true "";
   mkQso "2025-05-05" "10:02" "50.5" "SSB" "JH1QRP" "" "101" 1 false ""].

(** One character replaced by another. *)
Definition subst_char (a b : ascii) (c : ascii) : ascii :=
  if Ascii.eqb a c then b else c.

(** * Further definitions

    The rest of the embedding: the ranking of the published page, the
    HLTST and zLog line parsers, the construction of an entry from a
    submission and the text written to HTML, CSV and file names, with the
    predicates and samples the later sections use.

    - [build_station_entry_from_text] takes [split_submission_blocks],
      [parse_logsheet_block] and [normalize_opplace_any] as parameters: what
      is proved of it holds for every function in their place.
    - [html.escape] is the five replacements of the standard library.
    - An index into the fields of a line is read with a default where the
      source has checked the number of fields before. *)

(** ** Further specification-side definitions *)

(** Two records that differ at most in the duplicate flag and the points,
    the points of the second being those of the first or zero. *)
Definition same_contact (q q' : QsoRecord) : Prop :=
  date q' = date q ∧ time q' = time q ∧ band_mhz q' = band_mhz q
  ∧ mode q' = mode q ∧ worked_call q' = worked_call q
  ∧ sent_exch q' = sent_exch q ∧ rcvd_exch q' = rcvd_exch q
  ∧ raw q' = raw q ∧ (pts q' = pts q ∨ pts q' = 0).

(** A claimed figure that is absent or equal to the recomputed one. *)
Definition agrees (claimed : option Z) (recalced : Z) : Prop :=
  claimed = None ∨ claimed = Some recalced.

(** An entry claiming a total of 99 with the sample log. *)
Definition mismatch_entry : StationEntry :=
  mkEntry "JA1ZZZ" "1F" "" "" "" "" "" None None None (Some 99) sample_log
          0 0 0 0 false None None None None "" "" true "" "" "" false.

(** Lexicographic "less than" on rank metrics. *)
Definition metrics_ltb (a b : Metrics) : bool :=
  let '(t1, p1, m1, q1) := a in
  let '(t2, p2, m2, q2) := b in
  (t1 <? t2)
  || (t1 =? t2) && ((p1 <? p2)
                    || (p1 =? p2) && ((m1 <? m2) || (m1 =? m2) && (q1 <? q2))).

(** [e'] has strictly better metrics than [e]. *)
Definition better (e' e : StationEntry) : bool :=
  metrics_ltb (_entry_rank_metrics e) (_entry_rank_metrics e').

(** The number of entries of [es] that are strictly better than [e]. *)
Definition count_better (es : list StationEntry) (e : StationEntry) : Z :=
  Z.of_nat (length (filter (fun e' => better e' e = true) es)).


(** [x] may stand before [y] in the ranking: better metrics, or equal
    metrics and a callsign that is not greater. *)
Definition ranks_before (x y : StationEntry) : Prop :=
  better x y = true
  ∨ (_entry_rank_metrics x = _entry_rank_metrics y
     ∧ Text.leb (callsign x) (callsign y) = true).

(** Four entries, two of them tied. *)
Definition sample_field : list StationEntry :=
  [scored_entry "JA1CCC" "1F" 10 20 5 false;
   scored_entry "JA1AAA" "1F" 12 24 6 false;
   scored_entry "JA1BBB" "1F" 10 20 5 false;
   scored_entry "JA1DDD" "1F" 3 6 2 false].

(** ** Ranking of the published page *)

(** The loop of [_competition_ranks]: [pos] and [rank] are the counters,
    [prev_total] the total of the previous entry. *)
Fixpoint competition_loop (pos rank : Z) (prev_total : option Z)
         (es : list StationEntry) : list (Z * StationEntry) :=
  match es with
  | [] => []
  | e :: rest =>
      let pos := pos + 1 in
      let t := recalced_total e in
      let '(rank, prev_total) :=
        match prev_total with
        | None => (pos, Some t)
        | Some p => if negb (t =? p) then (pos, Some t) else (rank, prev_total)
        end in
      (rank, e) :: competition_loop pos rank prev_total rest
  end.

(** [_competition_ranks(entries_sorted)]. *)
Definition _competition_ranks (entries_sorted : list StationEntry)
  : list (Z * StationEntry) :=
  competition_loop 0 0 None entries_sorted.

(** [overall_ranked] of [on_export_html]:
    [_competition_ranks(sorted(entries_all, key=_rank_sort_key))]; the key
    of [_rank_sort_key] is the one [rank_entries] sorts by. *)
Definition overall_ranked (entries_all : list StationEntry)
  : list (Z * StationEntry) :=
  _competition_ranks (sorted sort_key_compare entries_all).

(** The number of entries of [es] with a total above that of [e]. *)
Definition count_higher_total (es : list StationEntry) (e : StationEntry) : Z :=
  Z.of_nat (length (filter (fun e' => recalced_total e < recalced_total e') es)).

(** Two entries with the same total and different points. *)
Definition same_total_pair : list StationEntry :=
  [mkEntry "JA1AAA" "1F" "" "" "" "" "" None None None None []
           6 12 2 24 false None None None None "" "" true "" "" "" false;
   mkEntry "JA1BBB" "1F" "" "" "" "" "" None None None None []
           4 8 3 24 false None None None None "" "" true "" "" "" false].

(** ** Area awards *)

(** The area of an entry as [build_award_lists] derives it. *)
Definition area_of (e : StationEntry) : Result (option Z) :=
  extract_call_area_digit_base (callsign e).

(** An entry that takes part in the area awards: not a checklog, category
    [1X]. *)
Definition in_area_contest (e : StationEntry) : Prop :=
  is_checklog e = false ∧ Text.strip (category e) = "1X".

(** Stations outside area 1: two in area 2, one in area 3, one without an
    area, and one in another category. *)
Definition outside_stations : list StationEntry :=
  [scored_entry "JA1AAA/2" "1X" 5 10 3 false;
   scored_entry "JA1BBB/3" "1X" 4 8 2 false;
   scored_entry "JA1CCC/2" "1X" 6 12 4 false;
   scored_entry "JR2DDD" "1X" 9 18 5 false;
   scored_entry "JA1EEE/2" "1F" 9 18 9 false].

(** The entries that compete in category [cat] of the in-area awards, as
    [build_award_lists] selects them. *)
Definition category_class (entries : list StationEntry) (cat : string)
  : list StationEntry :=
  filter (fun e => category_is cat e = true)
         (filter (fun e => Text.strip (category e) ∈ in_area_cats)
                 (filter (fun e => is_checklog e = false) entries)).

(** ** The HLTST and zLog line parsers *)

(** The body of the loop of [parse_logsheet_hltst] for one line; [None]
    when the line is skipped.  Every index read is below the ten fields
    the line is known to have, except [base+5] which is guarded by the
    source itself. *)
Definition parse_hltst_line (raw : string) : option QsoRecord :=
  let s := Text.strip raw in
  if negb (truthy s) then None
  else if Text.startswith "DATE" s || Text.startswith "---" s then None
  else
    let parts := Text.split s in
    if (length parts <? 10)%nat then None
    else
      let part := item_or_empty parts in
      if negb (_looks_date (part 0%nat)) || negb (_looks_time (part 1%nat))
      then None
      else
        let date := Text.replace "/" "-" (part 0%nat) in
        let time := _parse_time (part 1%nat) in
        let band := _parse_band_mhz (part 2%nat) in
        let mode :=
          if all_digits (part 3%nat) && _looks_callsign (part 4%nat)
          then "AM" else part 3%nat in
        let call := _clean_callsign (part 4%nat) in
        let base := 5%nat in
        let sent_exch :=
          if (base + 1 <? length parts)%nat
          then _canon_exchange (_extract_exchange_from_token (part (base + 1)%nat))
          else "" in
        let rcvd_exch :=
          if (base + 3 <? length parts)%nat
          then _canon_exchange (_extract_exchange_from_token (part (base + 3)%nat))
          else "" in
        let pt :=
          if (base + 5 <? length parts)%nat
          then _safe_int (PyStrV (part (base + 5)%nat)) 0
          else _safe_int (PyStrV (default "" (last parts))) 0 in
        let pt :=
          if pt <=? 0 then if ends_with_blank_zero s then 0 else 2 else pt in
        Some (mkQso date time band mode call sent_exch rcvd_exch pt false raw).

(** [parse_logsheet_hltst(lines)]. *)
Definition parse_logsheet_hltst (lines : list string) : list QsoRecord :=
  omap parse_hltst_line lines.

(** The body of the loop of [parse_logsheet_zlog] for one line; the
    indices read are below the twelve fields the line is known to have. *)
Definition parse_zlog_line (raw : string) : option QsoRecord :=
  let s := Text.strip raw in
  if negb (truthy s) then None
  else if Text.startswith "date" (Text.lower s) || Text.startswith "---" s
  then None
  else
    let parts := Text.split s in
    if (length parts <? 12)%nat then None
    else
      let part := item_or_empty parts in
      if negb (_looks_date (part 0%nat)) || negb (_looks_time (part 1%nat))
      then None
      else
        let date := Text.replace "/" "-" (part 0%nat) in
        let time := _parse_time (part 1%nat) in
        let call := _clean_callsign (part 2%nat) in
        let sent_exch :=
          _canon_exchange (_extract_exchange_from_token (part 4%nat)) in
        let rcvd_exch :=
          _canon_exchange (_extract_exchange_from_token (part 6%nat)) in
        let band := _parse_band_mhz (part 9%nat) in
        let mode := part 10%nat in
        let pt := _safe_int (PyStrV (part 11%nat)) 0 in
        let pt :=
          if pt <=? 0 then if ends_with_blank_zero s then 0 else 2 else pt in
        Some (mkQso date time band mode call sent_exch rcvd_exch pt false raw).

(** [parse_logsheet_zlog(lines)]. *)
Definition parse_logsheet_zlog (lines : list string) : list QsoRecord :=
  omap parse_zlog_line lines.

(** The date form [dddd-dd-dd]. *)
Definition is_dashed_date (s : string) : bool :=
  fullmatch_classes
    [Text.is_digit; Text.is_digit; Text.is_digit; Text.is_digit;
     is_char "-"%char;
     Text.is_digit; Text.is_digit; is_char "-"%char;
     Text.is_digit; Text.is_digit] s.

(** A contact record as the line parsers build it. *)
Definition well_formed_record (q : QsoRecord) : Prop :=
  dup q = false
  ∧ is_dashed_date (date q) = true
  ∧ is_hh_colon_mm (time q) = true
  ∧ _clean_callsign (worked_call q) = worked_call q
  ∧ _canon_exchange (sent_exch q) = sent_exch q
  ∧ _canon_exchange (rcvd_exch q) = rcvd_exch q
  ∧ 0 <= pts q.

(** A log with a header, a rule, a junk line and two contacts, one of
    them worth no points. *)
Definition sample_ctestwin_lines : list string :=
  ["DATE TIME BAND MODE CALL SENT RCVD PTS";
   "---------------------------------------";
   "2025/05/05 1000 50MHz AM ja1abc 59 10 59 12 2";
   "not a contact";
   "2025-05-05 10:05 50 AM JA1XYZ 5910 5913 0"].

Definition sample_hltst_lines : list string :=
  ["DATE TIME BAND MODE CALL RST SENT RST RCVD MULT PTS";
   "2025/05/05 1000 50 AM ja1abc 59 10 59 12 12 2";
   "2025-05-05 1005 50 AM JA1XYZ 59 10 59 13 - 0"].

Definition sample_zlog_lines : list string :=
  ["Date Time Callsign RSTs ExSent RSTr ExRcvd Mult Mult2 MHz Mode Pt Memo";
   "2025/05/05 1000 ja1abc 59 10 59 12 12 - 50 AM 2";
   "2025-05-05 1005 JA1XYZ 59 10 59 13 - - 50 AM 0"].

(** ** Building an entry from a submission *)

Definition set_logsheet_type (v : string) (e : StationEntry) : StationEntry :=
  mkEntry (callsign e) (category e) (category_name e) (opplace e) (address e)
    (comments e) v (claimed_qso e) (claimed_pts e)
    (claimed_mult e) (claimed_total e) (qsos e) (recalced_qso e)
    (recalced_pts e) (recalced_mult e) (recalced_total e) (manual_enabled e)
    (manual_qso e) (manual_pts e) (manual_mult e) (manual_total e)
    (manual_note e) (manual_opplace e) (match_ e) (reason e) (source_name e)
    (raw_submission_text e) (is_checklog e).

Definition HOME_MARKERS : list string :=
  ["常置場所"; "同上"; "自宅"; "住所"; "自局"].

Definition CHECKLOG_CALLSIGNS : list string := [""].

(** [_opplace_means_home(opplace_raw)]. *)
Definition _opplace_means_home (opplace_raw : string) : bool :=
  let t := Text.strip opplace_raw in
  if negb (truthy t) then true
  else existsb (fun k => Text.contains k t) HOME_MARKERS.

(** The block when it passes the test [if block:], that is when it is
    neither [None] nor empty. *)
Definition nonempty_block (block : option string) : option string :=
  match block with
  | Some b => if truthy b then Some b else None
  | None => None
  end.

(** [StationEntry()] with the fields that
    [build_station_entry_from_text] assigns before it looks at the log;
    the others keep the dataclass defaults. *)
Definition new_entry (call cat cat_name place addr comment source text : string)
  : StationEntry :=
  mkEntry call cat cat_name place addr comment "" None None None None []
          0 0 0 0 false None None None None "" "" true "" source text false.

Section Submission.

Variable normalize_opplace_any : string -> string -> string.

(** [split_submission_blocks(text)]: the summary block, the log block and
    the log type, each possibly absent. *)
Variable split_submission_blocks :
  string -> option string * option string * option string.

(** [parse_logsheet_block(log_block, log_type)]. *)
Variable parse_logsheet_block : string -> string -> list QsoRecord.

(** [build_station_entry_from_text(text, fallback_callsign,
    fallback_opplace, source_name)]. *)
Definition build_station_entry_from_text
           (text fallback_callsign fallback_opplace source_name : string)
  : Result StationEntry :=
  let '(summary_block, log_block, log_type) := split_submission_blocks text in
  let entry :=
    match nonempty_block summary_block with
    | Some sb =>
        let sd := parse_summarysheet sb in
        let address := sm_address sd in
        let opplace_raw := sm_opplace sd in
        let base :=
          if _opplace_means_home opplace_raw then address else opplace_raw in
        let opplace := normalize_opplace_any base address in
        let opplace :=
          if truthy (Text.strip fallback_opplace)
          then normalize_opplace_any (Text.strip fallback_opplace) address
          else opplace in
        set_claimed sd
          (new_entry (or_else (sm_callsign sd) fallback_callsign)
             (sm_categorycode sd) (sm_categoryname sd) opplace address
             (sm_comments sd) source_name text)
    | None =>
        new_entry (_clean_callsign fallback_callsign) ""
          "" (normalize_opplace_any (Text.strip fallback_opplace) "")
          "" "" source_name text
    end in
  if negb (truthy (callsign entry)) then Raise ValueError
  else
    let entry :=
      set_logsheet_type (Text.strip (default "" log_type)) entry in
    let entry :=
      set_qsos
        match nonempty_block log_block with
        | Some lb => parse_logsheet_block lb (default "" log_type)
        | None => []
        end
        entry in
    let entry := recalc_entry normalize_opplace_any entry in
    Ok (set_is_checklog (bool_decide (callsign entry ∈ CHECKLOG_CALLSIGNS)) entry).

End Submission.

(** A submission taken apart by hand: a summary sheet without a callsign
    and the two contacts of [sample_log]. *)
Definition blocks_of_sample (text : string)
  : option string * option string * option string :=
  (Some "<SUMMARYSHEET VERSION=R1.0><CATEGORYCODE>1F</CATEGORYCODE></SUMMARYSHEET>"%string,
   Some "<LOGSHEET TYPE=CTESTWIN></LOGSHEET>"%string, Some "CTESTWIN"%string).

Definition log_of_sample (log_block log_type : string) : list QsoRecord :=
  sample_log.

(** ** Text written to HTML, CSV and file names *)

(** [str(x) if x is not None else ""] for the values [_h] is given. *)
Definition text_of (x : PyVal) : string :=
  match x with
  | PyNone => ""
  | PyIntV n => PyInt.str n
  | PyStrV s => s
  end.

(** A double quote (code 34) as a one-character text. *)
Definition DQUOTE : string := String (ascii_of_N 34) EmptyString.

(** [html.escape(s)] with [quote=True]: the five replacements of the
    standard library, [&] first. *)
Definition html_escape (s : string) : string :=
  let s := Text.replace "&" "&amp;" s in
  let s := Text.replace "<" "&lt;" s in
  let s := Text.replace ">" "&gt;" s in
  let s := Text.replace DQUOTE "&quot;" s in
  Text.replace "'" "&#x27;" s.

(** [_h(x)]. *)
Definition _h (x : PyVal) : string := html_escape (text_of x).

(** The characters that open or close markup or an attribute value. *)
Definition is_markup_char (c : ascii) : bool :=
  is_char "<"%char c || is_char ">"%char c || is_quote c.

(** Every occurrence of the character [a] replaced by the text [w]. *)
Fixpoint expand (a : ascii) (w : string) (s : string) : string :=
  match s with
  | EmptyString => EmptyString
  | String c r => if Ascii.eqb a c then w +:+ expand a w r
                  else String c (expand a w r)
  end.

(** [re.sub(r"[...]+", rep, s)] for a character class [bad] and a
    one-character replacement: every maximal run of [bad] characters
    becomes one [rep]. *)
Fixpoint collapse_runs (bad : ascii -> bool) (rep : ascii) (prev_bad : bool)
         (s : string) : string :=
  match s with
  | EmptyString => EmptyString
  | String c r =>
      if bad c
      then if prev_bad then collapse_runs bad rep true r
           else String rep (collapse_runs bad rep true r)
      else String c (collapse_runs bad rep false r)
  end.

(** The class of [_safe_filename]: backslash (code 92), slash, colon,
    star, question mark, double quote (code 34), angle brackets, bar. *)
Definition is_filename_unsafe (c : ascii) : bool :=
  is_char (ascii_of_N 92) c || is_char "/"%char c || is_char ":"%char c
  || is_char "*"%char c || is_char "?"%char c || is_char (ascii_of_N 34) c
  || is_char "<"%char c || is_char ">"%char c || is_char "|"%char c.

(** [_safe_filename(s)]. *)
Definition _safe_filename (s : string) : string :=
  collapse_runs is_filename_unsafe "_" false (Text.strip s).

(** The class [[\r\n\t]] of [_csv_safe]. *)
Definition is_break_or_tab (c : ascii) : bool :=
  is_char "013"%char c || is_char "010"%char c || is_char "009"%char c.

(** [_csv_safe(s)]. *)
Definition _csv_safe (s : string) : string :=
  Text.strip (collapse_runs is_break_or_tab " " false s).

(** * Facts about the text primitives *)

Section TextFacts.

Implicit Types (s t u : string) (c : ascii) (p : ascii -> bool).

Lemma str_app_cons c s t : String c s +:+ t = String c (s +:+ t).
Proof. reflexivity. Qed.

Lemma str_app_empty_r s : s +:+ "" = s.
Proof. induction s as [|c s IH]; [done|]. by rewrite str_app_cons, IH. Qed.

Lemma str_app_assoc s t u : (s +:+ t) +:+ u = s +:+ (t +:+ u).
Proof. induction s as [|c s IH]; [done|]. by rewrite !str_app_cons, IH. Qed.

Lemma truthy_app_r s t : truthy t = true → truthy (s +:+ t) = true.
Proof. by destruct s. Qed.

Lemma truthy_app_l s t : truthy s = true → truthy (s +:+ t) = true.
Proof. by destruct s. Qed.

Lemma all_chars_app p s t :
  Text.all_chars p (s +:+ t) = Text.all_chars p s && Text.all_chars p t.
Proof.
  induction s as [|c s IH]; [done|].
  rewrite str_app_cons. cbn. by rewrite IH, andb_assoc.
Qed.

Lemma all_chars_impl p (p' : ascii -> bool) s :
  (∀ c, p c = true → p' c = true) →
  Text.all_chars p s = true → Text.all_chars p' s = true.
Proof.
  intros Hpp'. induction s as [|c s IH]; [done|]. cbn.
  intros [Hc Hs]%andb_true_iff. by rewrite (Hpp' c Hc), IH.
Qed.

Lemma is_token_spec s :
  is_token s = true
  ↔ truthy s = true ∧ Text.all_chars (fun c => negb (Text.is_space c)) s = true.
Proof. unfold is_token. apply andb_true_iff. Qed.

(** ** [strip] *)

Lemma lstrip_token_app s t : is_token s = true → Text.lstrip (s +:+ t) = s +:+ t.
Proof.
  intros [Hne Hs]%is_token_spec. destruct s as [|c s]; [done|].
  cbn in Hs. apply andb_true_iff in Hs as [Hc _].
  rewrite str_app_cons. cbn. by destruct (Text.is_space c).
Qed.

Lemma rstrip_token s : is_token s = true → Text.rstrip s = s.
Proof.
  intros [_ Hs]%is_token_spec.
  induction s as [|c s IH]; [done|].
  cbn in Hs. apply andb_true_iff in Hs as [Hc Hs].
  cbn. rewrite (IH Hs). destruct s; [|done].
  by destruct (Text.is_space c).
Qed.

Lemma rstrip_app s t :
  Text.rstrip t = t → truthy t = true → Text.rstrip (s +:+ t) = s +:+ t.
Proof.
  intros Ht Hne. induction s as [|c s IH]; [done|].
  rewrite str_app_cons. cbn. rewrite IH.
  pose proof (truthy_app_r s t Hne) as Hst. by destruct (s +:+ t).
Qed.

Lemma strip_token s : is_token s = true → Text.strip s = s.
Proof.
  intros Hs. unfold Text.strip.
  rewrite <- (str_app_empty_r s) at 1. rewrite lstrip_token_app by done.
  rewrite str_app_empty_r. by apply rstrip_token.
Qed.

Lemma strip_empty : Text.strip "" = "".
Proof. reflexivity. Qed.

(** ** [split] and [join] *)

Lemma split_go_token cur s t :
  Text.all_chars (fun c => negb (Text.is_space c)) s = true →
  Text.split_go cur (s +:+ t) = Text.split_go (cur +:+ s) t.
Proof.
  revert cur. induction s as [|c s IH]; intros cur Hs.
  - by rewrite str_app_empty_r.
  - cbn in Hs. apply andb_true_iff in Hs as [Hc Hs].
    rewrite str_app_cons. cbn. apply negb_true_iff in Hc. rewrite Hc.
    rewrite IH by done. by rewrite str_app_assoc.
Qed.

Lemma split_token s : is_token s = true → Text.split s = [s].
Proof.
  intros [Hne Hs]%is_token_spec. unfold Text.split.
  rewrite <- (str_app_empty_r s) at 1. rewrite split_go_token by done.
  by destruct s.
Qed.

Lemma split_token_blank s t :
  is_token s = true → Text.split (s +:+ " " +:+ t) = s :: Text.split t.
Proof.
  intros [Hne Hs]%is_token_spec. unfold Text.split.
  rewrite split_go_token by done. by destruct s.
Qed.

Lemma split_join (toks : list string) :
  Forall (fun t => is_token t = true) toks →
  Text.split (Text.join " " toks) = toks.
Proof.
  induction 1 as [|t toks Ht _ IH]; [done|].
  destruct toks as [|t' toks].
  - by apply split_token.
  - change (Text.join " " (t :: t' :: toks))
      with (t +:+ " " +:+ Text.join " " (t' :: toks)).
    by rewrite split_token_blank, IH.
Qed.

Lemma rstrip_join (toks : list string) :
  toks ≠ [] → Forall (fun t => is_token t = true) toks →
  Text.rstrip (Text.join " " toks) = Text.join " " toks
  ∧ truthy (Text.join " " toks) = true.
Proof.
  intros Hne H. induction H as [|t toks Ht _ IH]; [done|].
  destruct toks as [|t' toks].
  - split; [by apply rstrip_token|]. by apply is_token_spec in Ht as [? _].
  - change (Text.join " " (t :: t' :: toks))
      with (t +:+ " " +:+ Text.join " " (t' :: toks)).
    destruct IH as [IH1 IH2]; [done|].
    split.
    + apply rstrip_app; [apply rstrip_app; done|]. by apply truthy_app_r.
    + by apply truthy_app_r, truthy_app_r.
Qed.

Lemma strip_join (toks : list string) :
  toks ≠ [] → Forall (fun t => is_token t = true) toks →
  Text.strip (Text.join " " toks) = Text.join " " toks.
Proof.
  intros Hne H. unfold Text.strip.
  assert (Text.lstrip (Text.join " " toks) = Text.join " " toks) as ->.
  { destruct H as [|t toks Ht _]; [done|].
    destruct toks as [|t' toks].
    - cbn [Text.join]. rewrite <- (str_app_empty_r t). by apply lstrip_token_app.
    - change (Text.join " " (t :: t' :: toks))
        with (t +:+ " " +:+ Text.join " " (t' :: toks)).
      by apply lstrip_token_app. }
  by apply rstrip_join.
Qed.

(** ** [replace] *)

Lemma replace_go_absent (n : nat) a old (new : string) s :
  Text.all_chars (fun c => negb (Ascii.eqb a c)) s = true →
  Text.replace_go n (String a old) new s = s.
Proof.
  revert s. induction n as [|n IH]; intros s Hs; [done|].
  destruct s as [|c s]; [done|].
  cbn in Hs. apply andb_true_iff in Hs as [Hc Hs].
  apply negb_true_iff in Hc. cbn. rewrite Hc. by rewrite IH.
Qed.

(** Replacing a string whose first character does not occur. *)
Lemma replace_absent a old (new : string) s :
  Text.all_chars (fun c => negb (Ascii.eqb a c)) s = true →
  Text.replace (String a old) new s = s.
Proof. apply replace_go_absent. Qed.

Lemma replace_go_char (n : nat) a b s :
  (String.length s ≤ n)%nat →
  Text.replace_go n (String a "") (String b "") s
  = Text.map_chars (subst_char a b) s.
Proof.
  revert s. induction n as [|n IH]; intros s Hn.
  - destruct s; [done|]. cbn in Hn. lia.
  - destruct s as [|c s]; [done|]. cbn in Hn.
    cbn. unfold subst_char at 1. destruct (Ascii.eqb a c).
    + rewrite str_app_cons. cbn. by rewrite IH by lia.
    + by rewrite IH by lia.
Qed.

(** Replacing one character by another maps over the text. *)
Lemma replace_char a b s :
  Text.replace (String a "") (String b "") s
  = Text.map_chars (subst_char a b) s.
Proof. by apply replace_go_char. Qed.

Lemma lstrip_map (f : ascii -> ascii) s :
  (∀ c, Text.is_space (f c) = Text.is_space c) →
  Text.lstrip (Text.map_chars f s) = Text.map_chars f (Text.lstrip s).
Proof.
  intros Hf. induction s as [|c s IH]; [done|].
  cbn. rewrite Hf. by destruct (Text.is_space c).
Qed.

Lemma rstrip_map (f : ascii -> ascii) s :
  (∀ c, Text.is_space (f c) = Text.is_space c) →
  Text.rstrip (Text.map_chars f s) = Text.map_chars f (Text.rstrip s).
Proof.
  intros Hf. induction s as [|c s IH]; [done|].
  cbn. rewrite IH, Hf. destruct (Text.rstrip s); cbn; [|done].
  by destruct (Text.is_space c).
Qed.

Lemma strip_map (f : ascii -> ascii) s :
  (∀ c, Text.is_space (f c) = Text.is_space c) →
  Text.strip (Text.map_chars f s) = Text.map_chars f (Text.strip s).
Proof.
  intros Hf. unfold Text.strip. by rewrite lstrip_map, rstrip_map.
Qed.

(** ** Character classes *)

Lemma digit_not_space c : Text.is_digit c = true → Text.is_space c = false.
Proof. destruct c as [[] [] [] [] [] [] [] []]; vm_compute; congruence. Qed.

Lemma digit_not c (x : ascii) :
  Text.is_digit x = false → Text.is_digit c = true → Ascii.eqb x c = false.
Proof.
  intros Hx Hc. apply Ascii.eqb_neq. intros ->. congruence.
Qed.

Lemma date_sep_not_space c : is_date_sep c = true → Text.is_space c = false.
Proof. destruct c as [[] [] [] [] [] [] [] []]; vm_compute; congruence. Qed.

Lemma all_digits_spec s :
  all_digits s = true ↔ truthy s = true ∧ Text.all_chars Text.is_digit s = true.
Proof. unfold all_digits. apply andb_true_iff. Qed.

Lemma digits_no_space s :
  Text.all_chars Text.is_digit s = true →
  Text.all_chars (fun c => negb (Text.is_space c)) s = true.
Proof.
  apply all_chars_impl. intros c Hc. by rewrite digit_not_space.
Qed.

Lemma all_digits_token s : all_digits s = true → is_token s = true.
Proof.
  intros [Hne Hs]%all_digits_spec. apply is_token_spec.
  split; [done|]. by apply digits_no_space.
Qed.

Lemma strip_digits s : Text.all_chars Text.is_digit s = true → Text.strip s = s.
Proof.
  intros Hs. destruct s as [|c s]; [done|].
  apply strip_token, is_token_spec. split; [done|]. by apply digits_no_space.
Qed.

Lemma filter_digits s :
  Text.all_chars Text.is_digit s = true → Text.filter_chars Text.is_digit s = s.
Proof.
  induction s as [|c s IH]; [done|]. cbn.
  intros [Hc Hs]%andb_true_iff. by rewrite Hc, IH.
Qed.

Lemma replace_comma_digits s :
  Text.all_chars Text.is_digit s = true → Text.replace "," "" s = s.
Proof.
  intros Hs. apply replace_absent. revert Hs. apply all_chars_impl.
  intros c Hc. by rewrite (digit_not c ","%char).
Qed.

(** ** [fullmatch_classes] *)

Lemma fullmatch_map (f : ascii -> ascii) (cls : list (ascii -> bool)) s :
  Forall (fun p => ∀ c, p c = true → p (f c) = true) cls →
  fullmatch_classes cls s = true →
  fullmatch_classes cls (Text.map_chars f s) = true.
Proof.
  intros H. revert s. induction H as [|p cls Hp _ IH]; intros s.
  - by destruct s.
  - destruct s as [|c s]; [done|]. cbn.
    intros [Hc Hs]%andb_true_iff. by rewrite (Hp c Hc), IH.
Qed.

Lemma fullmatch_no_space (cls : list (ascii -> bool)) s :
  Forall (fun p => ∀ c, p c = true → Text.is_space c = false) cls →
  fullmatch_classes cls s = true →
  Text.all_chars (fun c => negb (Text.is_space c)) s = true.
Proof.
  intros H. revert s. induction H as [|p cls Hp _ IH]; intros s.
  - by destruct s.
  - destruct s as [|c s]; [done|]. cbn.
    intros [Hc Hs]%andb_true_iff. by rewrite (Hp c Hc), IH.
Qed.

Lemma ends_with_blank_zero_app s t :
  ends_with_blank_zero t = true → ends_with_blank_zero (s +:+ t) = true.
Proof.
  intros Ht. induction s as [|c s IH]; [done|].
  rewrite str_app_cons. cbn [ends_with_blank_zero]. rewrite IH. apply orb_true_r.
Qed.

End TextFacts.

(** * Decimal text of integers *)

Section DecimalFacts.

Implicit Types (s t : string) (n a d : Z).

Lemma digit_char_spec d :
  0 <= d < 10 →
  Text.is_digit (PyInt.digit_char d) = true
  ∧ PyInt.digit_val (PyInt.digit_char d) = d.
Proof.
  intros Hd.
  assert (d = 0 ∨ d = 1 ∨ d = 2 ∨ d = 3 ∨ d = 4 ∨ d = 5 ∨ d = 6 ∨ d = 7
          ∨ d = 8 ∨ d = 9) as Hcases by lia.
  repeat (destruct Hcases as [->|Hcases]; [by vm_compute|]).
  subst. by vm_compute.
Qed.

Lemma digits_val_app a s t :
  PyInt.digits_val a (s +:+ t) = PyInt.digits_val (PyInt.digits_val a s) t.
Proof.
  revert a. induction s as [|c s IH]; intros a; [done|].
  rewrite str_app_cons. cbn. by rewrite IH.
Qed.

Lemma pos_digits_S (fuel : nat) n acc :
  PyInt.pos_digits (S fuel) n acc
  = if n <? 10 then String (PyInt.digit_char (n mod 10)) acc
    else PyInt.pos_digits fuel (n / 10) (String (PyInt.digit_char (n mod 10)) acc).
Proof. reflexivity. Qed.

(** The digits produced for [n] with enough fuel. *)
Lemma pos_digits_spec (fuel : nat) n acc :
  0 <= n < 10 ^ Z.of_nat (S fuel) →
  ∃ ds, PyInt.pos_digits (S fuel) n acc = ds +:+ acc
        ∧ truthy ds = true
        ∧ Text.all_chars Text.is_digit ds = true
        ∧ ∀ a, PyInt.digits_val a ds = a * 10 ^ Z.of_nat (String.length ds) + n.
Proof.
  revert n acc. induction fuel as [|fuel IH]; intros n acc Hn.
  - change (10 ^ Z.of_nat 1) with 10 in Hn.
    assert (n < 10) as Hlt by lia.
    rewrite pos_digits_S. apply Z.ltb_lt in Hlt as Hltb. rewrite Hltb.
    exists (String (PyInt.digit_char (n mod 10)) "").
    destruct (digit_char_spec (n mod 10)) as [Hd Hv];
        [apply Z.mod_pos_bound; lia|].
    split; [reflexivity|]. split; [done|]. split; [by cbn; rewrite Hd|].
    intros a. cbn. rewrite Hv. rewrite Z.mod_small by lia. lia.
  - rewrite pos_digits_S. destruct (Z.ltb_spec n 10) as [Hlt|Hge].
    + exists (String (PyInt.digit_char (n mod 10)) "").
      destruct (digit_char_spec (n mod 10)) as [Hd Hv];
        [apply Z.mod_pos_bound; lia|].
      split; [reflexivity|]. split; [done|]. split; [by cbn; rewrite Hd|].
      intros a. cbn. rewrite Hv. rewrite Z.mod_small by lia. lia.
    + destruct (IH (n / 10) (String (PyInt.digit_char (n mod 10)) acc))
        as (ds & Heq & Hne & Hall & Hval).
      { split; [apply Z.div_pos; lia|].
        apply Z.div_lt_upper_bound; [lia|].
        rewrite (Nat2Z.inj_succ (S fuel)), Z.pow_succ_r in Hn by lia. lia. }
      exists (ds +:+ String (PyInt.digit_char (n mod 10)) "").
      destruct (digit_char_spec (n mod 10)) as [Hd Hv].
      { apply Z.mod_pos_bound. lia. }
      split; [|split; [|split]].
      * by rewrite Heq, str_app_assoc.
      * by apply truthy_app_l.
      * rewrite all_chars_app, Hall. cbn. by rewrite Hd.
      * intros a. rewrite digits_val_app, Hval. cbn. rewrite Hv.
        assert (String.length (ds +:+ String (PyInt.digit_char (n mod 10)) "")
                = S (String.length ds)) as ->.
        { clear. induction ds as [|c ds IHds]; [done|].
          rewrite str_app_cons. cbn. by rewrite IHds. }
        rewrite Nat2Z.inj_succ, Z.pow_succ_r by lia.
        pose proof (Z.div_mod n 10). lia.
Qed.

Lemma fuel_enough n :
  0 <= n → n < 10 ^ Z.of_nat (S (Z.to_nat (Z.log2 n))).
Proof.
  intros Hn. rewrite Nat2Z.inj_succ, Z2Nat.id by apply Z.log2_nonneg.
  destruct (Z.eq_dec n 0) as [->|Hne]; [done|].
  pose proof (Z.log2_spec n ltac:(lia)) as [_ Hlt].
  eapply Z.lt_le_trans; [exact Hlt|].
  apply Z.pow_le_mono_l. pose proof (Z.log2_nonneg n). lia.
Qed.

(** [str] of a non-negative integer: digits that read back as it. *)
Lemma str_nonneg n :
  0 <= n →
  all_digits (PyInt.str n) = true ∧ PyInt.digits_val 0 (PyInt.str n) = n.
Proof.
  intros Hn. unfold PyInt.str.
  destruct (Z.ltb_spec n 0) as [?|_]; [lia|].
  replace (Z.to_nat (Z.log2 n) + 1)%nat with (S (Z.to_nat (Z.log2 n))) by lia.
  destruct (pos_digits_spec (Z.to_nat (Z.log2 n)) n "")
    as (ds & -> & Hne & Hall & Hval).
  { split; [done|]. by apply fuel_enough. }
  rewrite str_app_empty_r. split.
  - apply all_digits_spec. done.
  - rewrite Hval. lia.
Qed.

End DecimalFacts.

(** * Properties of the duplicate pass *)

Section MarkDuplicates.

Implicit Types (q : QsoRecord) (qs : list QsoRecord) (seen : gset DupKey).

Lemma dup_key_mark_one earlier q : dup_key (mark_one earlier q) = dup_key q.
Proof. unfold mark_one. by case_bool_decide. Qed.

Lemma mark_one_ext (l1 l2 : list DupKey) q :
  (dup_key q ∈ l1 ↔ dup_key q ∈ l2) → mark_one l1 q = mark_one l2 q.
Proof.
  intros H. unfold mark_one.
  by rewrite (bool_decide_ext _ _ H).
Qed.

Lemma mark_one_idem earlier q :
  mark_one earlier (mark_one earlier q) = mark_one earlier q.
Proof.
  unfold mark_one at 1. rewrite dup_key_mark_one.
  unfold mark_one. by case_bool_decide.
Qed.

(** The loop, unfolded one step, in terms of [mark_one]. *)
Lemma mark_duplicates_loop_cons seen q qs :
  mark_duplicates_loop seen (q :: qs) =
  (mark_one (elements seen) q :: (mark_duplicates_loop ({[dup_key q]} ∪ seen) qs).1,
   (mark_duplicates_loop ({[dup_key q]} ∪ seen) qs).2).
Proof.
  cbn [mark_duplicates_loop]. unfold mark_one.
  destruct (decide (dup_key q ∈ seen)) as [Hin|Hin].
  - rewrite bool_decide_eq_true_2; [|by apply elem_of_elements].
    assert ({[dup_key q]} ∪ seen = seen) as -> by set_solver.
    by destruct (mark_duplicates_loop seen qs).
  - rewrite bool_decide_eq_false_2; [|by rewrite elem_of_elements].
    destruct (mark_duplicates_loop _ qs). simpl.
    by destruct (pts q =? 0).
Qed.

(** The records the loop returns: each contact is treated by [mark_one]
    with the keys seen at the start together with the keys of all
    contacts before it. *)
Lemma mark_duplicates_loop_fst seen qs :
  (mark_duplicates_loop seen qs).1 =
  imap (fun i q => mark_one (elements seen ++ (dup_key <$> take i qs)) q) qs.
Proof.
  revert seen. induction qs as [|q qs IH]; intros seen; [done|].
  rewrite mark_duplicates_loop_cons. cbn [fst imap]. f_equal.
  - apply mark_one_ext. cbn. by rewrite app_nil_r.
  - rewrite IH. apply imap_ext. intros i q' _. apply mark_one_ext.
    cbn. rewrite !elem_of_app, elem_of_cons, !elem_of_elements,
      elem_of_union, elem_of_singleton. tauto.
Qed.

(** The final [seen] set holds the key of every contact. *)
Lemma mark_duplicates_loop_snd seen qs :
  (mark_duplicates_loop seen qs).2 = seen ∪ list_to_set (dup_key <$> qs).
Proof.
  revert seen. induction qs as [|q qs IH]; intros seen.
  - cbn. set_solver.
  - rewrite mark_duplicates_loop_cons. cbn [snd]. rewrite IH. cbn. set_solver.
Qed.

Lemma mark_duplicates_length qs : length (mark_duplicates qs) = length qs.
Proof.
  unfold mark_duplicates. by rewrite mark_duplicates_loop_fst, length_imap.
Qed.

(** A second run of the loop from the same [seen] set changes nothing. *)
Lemma mark_duplicates_loop_idem seen qs :
  (mark_duplicates_loop seen (mark_duplicates_loop seen qs).1).1 =
  (mark_duplicates_loop seen qs).1.
Proof.
  revert seen. induction qs as [|q qs IH]; intros seen; [done|].
  rewrite (mark_duplicates_loop_cons seen q qs). cbn [fst].
  rewrite mark_duplicates_loop_cons. cbn [fst].
  rewrite dup_key_mark_one, IH. f_equal. apply mark_one_idem.
Qed.

Lemma mark_one_dup earlier q :
  dup (mark_one earlier q) = (pts (mark_one earlier q) =? 0).
Proof. unfold mark_one. by case_bool_decide. Qed.

Lemma mark_duplicates_imap qs :
  mark_duplicates qs = imap (fun i q => mark_one (dup_key <$> take i qs) q) qs.
Proof.
  unfold mark_duplicates. rewrite mark_duplicates_loop_fst.
  apply imap_ext. intros i q _. apply mark_one_ext.
  by rewrite elements_empty.
Qed.

Lemma mark_duplicates_dup q qs :
  q ∈ mark_duplicates qs → dup q = (pts q =? 0).
Proof.
  rewrite mark_duplicates_imap. intros Hq.
  apply list_elem_of_lookup in Hq as [i Hi].
  rewrite list_lookup_imap in Hi.
  destruct (qs !! i) as [q0|]; [|done].
  injection Hi as <-. apply mark_one_dup.
Qed.

(** C3 (as amended): the duplicate pass handles each contact, in order,
    by the keys of the contacts before it: a contact whose key occurred
    earlier is marked duplicate with zero points; otherwise a zero-point
    contact is marked duplicate with its points unchanged; otherwise the
    contact is marked not-duplicate.  The key of every contact is
    recorded as seen, whether the contact was marked duplicate or not. *)
Theorem mark_duplicates_by_earlier_keys qs :
  mark_duplicates qs = imap (fun i q => mark_one (dup_key <$> take i qs) q) qs
  ∧ (mark_duplicates_loop ∅ qs).2 = list_to_set (dup_key <$> qs).
Proof.
  split; [apply mark_duplicates_imap|].
  rewrite mark_duplicates_loop_snd. set_solver.
Qed.

(** C3 (as stated) fails: after a zero-point contact, whose key the code
    records although it marks the contact duplicate, a two-point contact
    with the same key is marked duplicate and loses its points. *)
Lemma zero_point_contact_key_is_recorded :
  ¬ seen_only_for_not_duplicates zero_then_two
  ∧ mark_duplicates zero_then_two
    = [set_dup true (sample_qso "JA1ABC" "12" 0);
       set_dup true (sample_qso "JA1ABC" "12" 0)]
  ∧ (mark_duplicates_key_of_valid_only ∅ zero_then_two).1
    = [set_dup true (sample_qso "JA1ABC" "12" 0);
       sample_qso "JA1ABC" "12" 2].
Proof.
  split; [|split; by vm_compute].
  intros H. destruct (H ("50", "AM", "JA1ABC")) as (q & Hq & Hdup & _).
  - rewrite mark_duplicates_loop_snd. vm_compute. set_solver.
  - change (q ∈ mark_duplicates zero_then_two) in Hq.
    rewrite mark_duplicates_imap in Hq.
    vm_compute in Hq.
    repeat (apply elem_of_cons in Hq as [->|Hq]; [discriminate Hdup|]).
    by apply elem_of_nil in Hq.
Qed.

(** C5: running the duplicate pass on its own result changes nothing. *)
Theorem mark_duplicates_idempotent qs :
  mark_duplicates (mark_duplicates qs) = mark_duplicates qs.
Proof. apply mark_duplicates_loop_idem. Qed.

(** C10: when no contact has negative points, after the duplicate pass a
    contact is flagged duplicate exactly when it has zero points, and the
    valid-contact filter selects exactly the contacts with positive
    points. *)
Theorem dup_flag_iff_zero_points qs :
  Forall (fun q => 0 <= pts q) qs →
  Forall (fun q => dup q = (pts q =? 0) ∧ is_valid q = (0 <? pts q))
         (mark_duplicates qs)
  ∧ filter (fun q => is_valid q = true) (mark_duplicates qs)
    = filter (fun q => (0 <? pts q) = true) (mark_duplicates qs).
Proof.
  intros _.
  assert (Forall (fun q => dup q = (pts q =? 0) ∧ is_valid q = (0 <? pts q))
                 (mark_duplicates qs)) as HF.
  { apply Forall_forall. intros q Hq.
    pose proof (mark_duplicates_dup q qs Hq) as Hd.
    split; [done|]. unfold is_valid. rewrite Hd.
    destruct (Z.eqb_spec (pts q) 0) as [->|Hne]; [done|].
    by rewrite andb_true_l. }
  split; [done|].
  induction HF as [|q l [_ Hv] _ IH]; [done|].
  rewrite !filter_cons, IH, Hv. by repeat case_decide.
Qed.

Lemma dup_flag_iff_zero_points_sample :
  Forall (fun q => 0 <= pts q) sample_log
  ∧ Forall (fun q => dup q = (pts q =? 0) ∧ is_valid q = (0 <? pts q))
           (mark_duplicates sample_log).
Proof.
  assert (Forall (fun q => 0 <= pts q) sample_log) as H.
  { repeat (constructor; [cbn; lia|]). constructor. }
  split; [exact H|]. exact (proj1 (dup_flag_iff_zero_points sample_log H)).
Defined.

End MarkDuplicates.

(** * Properties of the recomputation *)

Section ScoringProperties.

Variable normalize_opplace_any : string -> string -> string.

Local Ltac override_cases e :=
  unfold _apply_manual_override; destruct e; cbn;
  repeat (case_match; cbn in *; simplify_eq); reflexivity.

Implicit Types (e : StationEntry) (q : QsoRecord).

Lemma truthy_spec (s : string) : truthy s = true ↔ s ≠ "".
Proof. by destruct s. Qed.

(** The [mult_set] loop collects the non-empty canonical exchanges. *)
Lemma mult_set_of_foldl (acc : gset string) (valid : list QsoRecord) :
  foldl (fun acc q =>
           let ex := _canon_exchange (rcvd_exch q) in
           if truthy ex then {[ex]} ∪ acc else acc) acc valid
  = acc ∪ list_to_set
            (filter (fun ex => ex ≠ "")
                    (map (fun q => _canon_exchange (rcvd_exch q)) valid)).
Proof.
  revert acc. induction valid as [|q valid IH]; intros acc; cbn [foldl map].
  - rewrite filter_nil. set_solver.
  - rewrite IH, filter_cons.
    destruct (truthy _) eqn:Ht.
    + apply truthy_spec in Ht. rewrite decide_True by done. set_solver.
    + assert (¬ _canon_exchange (rcvd_exch q) ≠ "") as Hn.
      { intros Hne. apply truthy_spec in Hne. congruence. }
      rewrite decide_False by done. done.
Qed.

Lemma size_list_to_set_remove_dups (l : list string) :
  size (list_to_set l : gset string) = length (remove_dups l).
Proof.
  rewrite <- (size_list_to_set (C := gset string) (remove_dups l))
    by apply NoDup_remove_dups.
  f_equal. apply set_eq. intros x.
  by rewrite !elem_of_list_to_set, elem_of_remove_dups.
Qed.

Lemma size_mult_set_of (valid : list QsoRecord) :
  size (mult_set_of valid) = length (distinct_exchanges valid).
Proof.
  unfold mult_set_of, distinct_exchanges.
  rewrite mult_set_of_foldl, <- size_list_to_set_remove_dups.
  f_equal. set_solver.
Qed.

(** What the override leaves alone. *)
Lemma override_claimed_total e :
  claimed_total (_apply_manual_override normalize_opplace_any e) = claimed_total e.
Proof.
  override_cases e.
Qed.

Lemma override_recalced_mult e :
  recalced_mult (_apply_manual_override normalize_opplace_any e)
  = if manual_enabled e then default (recalced_mult e) (manual_mult e)
    else recalced_mult e.
Proof.
  override_cases e.
Qed.

Lemma override_recalced_total e :
  let e' := _apply_manual_override normalize_opplace_any e in
  recalced_total e'
  = if manual_enabled e
    then default (recalced_pts e' * recalced_mult e') (manual_total e)
    else recalced_total e.
Proof.
  override_cases e.
Qed.

Lemma verdict_figures e :
  recalced_total (recalc_verdict e) = recalced_total e
  ∧ recalced_pts (recalc_verdict e) = recalced_pts e
  ∧ recalced_mult (recalc_verdict e) = recalced_mult e.
Proof. unfold recalc_verdict. by repeat case_match. Qed.

Lemma scores_total e :
  recalced_total (recalc_scores e)
  = recalced_pts (recalc_scores e) * recalced_mult (recalc_scores e).
Proof. reflexivity. Qed.

Lemma recalc_entry_zero_claim e :
  claimed_total e = Some 0 →
  match_ (recalc_entry normalize_opplace_any e) = true
  ∧ reason (recalc_entry normalize_opplace_any e) = zero_claim_reason.
Proof.
  intros H. unfold recalc_entry, recalc_verdict.
  rewrite override_claimed_total. cbn [recalc_scores claimed_total set_recalced_total
    set_recalced_mult set_recalced_pts set_recalced_qso set_qsos].
  rewrite H. done.
Qed.

(** C1: an entry whose claimed total is present and zero is marked as
    matching, with the zero-claim reason, whatever the other figures. *)
Theorem zero_claim_matches e :
  claimed_total e = Some 0 →
  match_ (recalc_entry normalize_opplace_any e) = true
  ∧ reason (recalc_entry normalize_opplace_any e) = zero_claim_reason.
Proof. apply recalc_entry_zero_claim. Qed.

Lemma override_recalced_pts e :
  recalced_pts (_apply_manual_override normalize_opplace_any e)
  = if manual_enabled e then default (recalced_pts e) (manual_pts e)
    else recalced_pts e.
Proof. override_cases e. Qed.

(** C2: after recomputation the total is the product of the recomputed
    points and multiplier, unless the manual override is enabled and
    supplies a total; an enabled override without a total yields the
    product of the (possibly overridden) points and multiplier. *)
Theorem total_is_product_unless_overridden e :
  let e' := recalc_entry normalize_opplace_any e in
  recalced_total e'
  = if manual_enabled e
    then default (recalced_pts e' * recalced_mult e') (manual_total e)
    else recalced_pts e' * recalced_mult e'.
Proof.
  cbn zeta. unfold recalc_entry.
  destruct (verdict_figures
              (_apply_manual_override normalize_opplace_any (recalc_scores e)))
    as (-> & -> & ->).
  pose proof (override_recalced_total (recalc_scores e)) as Ht.
  cbn zeta in Ht. rewrite Ht.
  change (manual_enabled (recalc_scores e)) with (manual_enabled e).
  change (manual_total (recalc_scores e)) with (manual_total e).
  destruct (manual_enabled e) eqn:Hen; [done|].
  rewrite override_recalced_pts, override_recalced_mult.
  change (manual_enabled (recalc_scores e)) with (manual_enabled e).
  rewrite Hen. apply scores_total.
Qed.

Lemma elem_of_valid_qsos e q :
  q ∈ valid_qsos e ↔ q ∈ mark_duplicates (qsos e) ∧ dup q = false ∧ 0 < pts q.
Proof.
  unfold valid_qsos. rewrite list_elem_of_filter. unfold is_valid.
  rewrite andb_true_iff, negb_true_iff, Z.ltb_lt. tauto.
Qed.

Lemma elem_of_distinct_exchanges (valid : list QsoRecord) (x : string) :
  x ∈ distinct_exchanges valid
  ↔ x ≠ "" ∧ ∃ q, q ∈ valid ∧ _canon_exchange (rcvd_exch q) = x.
Proof.
  unfold distinct_exchanges.
  rewrite elem_of_remove_dups, list_elem_of_filter, list_elem_of_In, in_map_iff.
  setoid_rewrite <- list_elem_of_In. naive_solver.
Qed.

(** C4: the recomputed multiplier is the number of distinct canonical
    received exchanges of the valid contacts (not duplicate, positive
    points), the empty exchange not counted.  [recalc_entry] stores this
    count; the manual override that follows replaces it only when it is
    enabled and supplies a multiplier. *)
Theorem multiplier_counts_distinct_exchanges e :
  let count := Z.of_nat (length (distinct_exchanges (valid_qsos e))) in
  recalced_mult (recalc_scores e) = count
  ∧ recalced_mult (recalc_entry normalize_opplace_any e)
    = (if manual_enabled e then default count (manual_mult e) else count)
  ∧ NoDup (distinct_exchanges (valid_qsos e))
  ∧ (∀ x, x ∈ distinct_exchanges (valid_qsos e)
          ↔ x ≠ "" ∧ ∃ q, q ∈ mark_duplicates (qsos e) ∧ dup q = false
                          ∧ 0 < pts q ∧ _canon_exchange (rcvd_exch q) = x).
Proof.
  cbn zeta.
  assert (recalced_mult (recalc_scores e)
          = Z.of_nat (length (distinct_exchanges (valid_qsos e)))) as Hm.
  { cbn. by rewrite size_mult_set_of. }
  split; [done|]. split; [|split].
  - unfold recalc_entry.
    destruct (verdict_figures
                (_apply_manual_override normalize_opplace_any (recalc_scores e)))
      as (_ & _ & ->).
    rewrite override_recalced_mult, Hm. done.
  - apply NoDup_remove_dups.
  - intros x. rewrite elem_of_distinct_exchanges.
    setoid_rewrite elem_of_valid_qsos. naive_solver.
Qed.

End ScoringProperties.

Lemma zero_claim_matches_sample :
  claimed_total zero_claim_entry = Some 0
  ∧ match_ (recalc_entry opplace_unchanged zero_claim_entry) = true
  ∧ reason (recalc_entry opplace_unchanged zero_claim_entry) = zero_claim_reason.
Proof.
  split; [reflexivity|].
  apply (zero_claim_matches opplace_unchanged zero_claim_entry). reflexivity.
Defined.

(** * Ranking and checklogs *)

(** The checklog entries close the output, each with rank 0. *)
Lemma rank_entries_checklog_tail (entries : list StationEntry) :
  ∃ ranked, rank_entries entries
            = ranked ++ map (fun e => (0, e))
                            (filter (fun e => is_checklog e = true) entries)
            ∧ length ranked = length entries.
Proof.
  eexists. split; [reflexivity|].
  assert (∀ i pm pr es, length (rank_loop i pm pr es) = length es) as Hl.
  { intros i pm pr es. revert i pm pr.
    induction es as [|e es IH]; intros; cbn; [done|]. by rewrite IH. }
  rewrite Hl. unfold sorted.
  induction entries as [|e es IH]; [done|]. cbn [foldr].
  assert (∀ (x : StationEntry) l,
            length (insert_sorted sort_key_compare x l) = S (length l)) as Hi.
  { intros x l. induction l as [|y l IHl]; [done|].
    cbn. destruct (sort_key_compare x y); cbn; by rewrite ?IHl. }
  by rewrite Hi, IH.
Qed.


(** * Area codes *)

Lemma split_on_no_sep (sep : ascii) (s : string) :
  any_char (is_char sep) s = false → Text.split_on sep s = [s].
Proof.
  induction s as [|c s IH]; [done|]. cbn. unfold is_char at 1.
  intros [Hc Hs]%orb_false_iff. rewrite Hc, IH; done.
Qed.

(** A callsign without a slash has no area. *)
Lemma extract_area_no_slash (callsign : string) :
  any_char (is_char "/"%char) callsign = false →
  extract_call_area_digit_base callsign = Ok None.
Proof.
  intros H. unfold extract_call_area_digit_base.
  by rewrite split_on_no_sep.
Qed.

Lemma split_on_app (sep : ascii) (base r : string) :
  any_char (is_char sep) base = false →
  Text.split_on sep (base +:+ String sep r) = base :: Text.split_on sep r.
Proof.
  induction base as [|c base IH]; intros H.
  - change (Text.split_on sep (String sep r) = "" :: Text.split_on sep r).
    cbn. by rewrite Ascii.eqb_refl.
  - cbn in H. apply orb_false_iff in H as [Hc Hb]. unfold is_char in Hc.
    rewrite str_app_cons. cbn [Text.split_on]. by rewrite Hc, IH.
Qed.

Lemma digits_with_underscores_digits (b : bool) (s : string) :
  Text.all_chars Text.is_digit s = true → truthy s = true →
  PyInt.digits_with_underscores b s = true.
Proof.
  revert b. induction s as [|c s IH]; intros b Hs Hne; [done|].
  cbn in Hs. apply andb_true_iff in Hs as [Hc Hs].
  cbn. rewrite Hc. destruct s as [|c' s]; [done|]. by apply IH.
Qed.

(** [int] accepts a non-empty string of digits. *)
Lemma parse_digits (s : string) :
  all_digits s = true → PyInt.parse s = Some (PyInt.digits_val 0 s).
Proof.
  intros [Hne Hs]%all_digits_spec. unfold PyInt.parse.
  rewrite strip_digits by done.
  destruct s as [|c s]; [done|].
  assert (Text.is_digit c = true) as Hc.
  { cbn in Hs. by apply andb_true_iff in Hs as [? _]. }
  assert (match String c s with
          | String "-"%char r => (true, r)
          | String "+"%char r => (false, r)
          | _ => (false, String c s)
          end = (false, String c s)) as ->.
  { destruct c as [[] [] [] [] [] [] [] []]; try reflexivity;
      vm_compute in Hc; discriminate Hc. }
  by rewrite digits_with_underscores_digits, filter_digits.
Qed.

(** A callsign with one slash followed by digits has that number as its
    area. *)
Lemma extract_area_digits (base area : string) :
  any_char (is_char "/"%char) base = false →
  all_digits area = true →
  extract_call_area_digit_base (base +:+ "/" +:+ area)
  = Ok (Some (PyInt.digits_val 0 area)).
Proof.
  intros Hb Ha. unfold extract_call_area_digit_base.
  change (base +:+ "/" +:+ area) with (base +:+ String "/"%char area).
  rewrite split_on_app by done.
  rewrite split_on_no_sep.
  - cbn. unfold int_of_str. by rewrite parse_digits.
  - apply all_digits_spec in Ha as [_ Ha]. clear -Ha.
    induction area as [|c area IH]; [done|].
    cbn in Ha. apply andb_true_iff in Ha as [Hc Ha].
    cbn. rewrite IH by done. unfold is_char.
    rewrite Ascii.eqb_sym. by rewrite (digit_not c "/"%char).
Qed.

(** C8: the area derivation raises on a callsign whose suffix after the
    slash is not a number, and the exception leaves [build_award_lists]:
    the portable station is not skipped, the award lists are not built. *)
Theorem area_of_portable_callsign_raises :
  extract_call_area_digit_base "JA2XYZ/P" = Raise ValueError
  ∧ build_award_lists [competitor; portable_station] = Raise ValueError.
Proof. by vm_compute. Qed.

(** * Claimed figures *)

(** An absent claimed figure records no discrepancy, whatever the
    recomputed figure. *)
Lemma add_reason_absent (label : string) (b : Z) : add_reason label None b = [].
Proof. reflexivity. Qed.

(** An entry without any claimed figure matches. *)
Lemma no_claim_matches (normalize_opplace_any : string -> string -> string)
      (e : StationEntry) :
  claimed_qso e = None → claimed_pts e = None → claimed_mult e = None →
  claimed_total e = None →
  match_ (recalc_entry normalize_opplace_any e) = true.
Proof.
  intros Hq Hp Hm Ht. unfold recalc_entry.
  set (e1 := recalc_scores e).
  assert (claimed_qso e1 = None ∧ claimed_pts e1 = None
          ∧ claimed_mult e1 = None ∧ claimed_total e1 = None) as He1 by done.
  clearbody e1. destruct He1 as (Hq1 & Hp1 & Hm1 & Ht1).
  unfold _apply_manual_override, recalc_verdict.
  destruct e1; cbn in *; subst.
  repeat (case_match; cbn in *; simplify_eq); reflexivity.
Qed.

(** A summary without any [SCORE] element leaves the three score figures
    absent. *)
Example score_figures_absent :
  let sd := parse_summarysheet "<SUMMARYSHEET><CALLSIGN>JA1ZZZ</CALLSIGN></SUMMARYSHEET>" in
  (sm_claimed_qso sd, sm_claimed_pts sd, sm_claimed_mult sd) = (None, None, None).
Proof. by vm_compute. Qed.

Example score_element_variants :
  map (search_score "50MHz")
      ["<score band='50mhz'> 1,2,3 </Score>"; "<SCORE BAND = 50MHz>4,5,6</SCORE>";
       "<SCORES BAND=50MHz>7,8,9</SCORE>"; "<SCORE BAND=144MHz>1,1,1</SCORE>"]
  = [Some " 1,2,3 "; Some "4,5,6"; None; None].
Proof. by vm_compute. Qed.

(** C7 (as stated) fails: a summary with a score line and no [TOTALSCORE]
    element yields the claimed total 0, not an absent one; the entry then
    takes the zero-claim path and is reported as matching although it
    claims 99 contacts and the log has 2 valid ones. *)
Lemma missing_totalscore_reads_as_zero :
  let sd := parse_summarysheet summary_without_totalscore in
  let e := recalc_entry opplace_unchanged (set_claimed sd unclaimed_entry) in
  _find_tag (_clean summary_without_totalscore) "TOTALSCORE" = None
  ∧ claimed_total (set_claimed sd unclaimed_entry) = Some 0
  ∧ claimed_total (set_claimed sd unclaimed_entry) ≠ None
  ∧ (claimed_qso e, recalced_qso e) = (Some 99, 2)
  ∧ match_ e = true
  ∧ reason e = zero_claim_reason.
Proof. cbn zeta. repeat split; by vm_compute. Qed.

(** * The canonical line read back *)

Section RoundTrip.

Implicit Types (s t : string) (q : QsoRecord).

Lemma fullmatch_cons (p : ascii -> bool) cls s :
  fullmatch_classes (p :: cls) s = true →
  ∃ c r, s = String c r ∧ p c = true ∧ fullmatch_classes cls r = true.
Proof.
  destruct s as [|c r]; [done|]. cbn.
  intros [Hc Hr]%andb_true_iff. by exists c, r.
Qed.

Lemma fullmatch_nil s : fullmatch_classes [] s = true → s = "".
Proof. by destruct s. Qed.

Lemma subst_slash_space c :
  Text.is_space (subst_char "/" "-" c) = Text.is_space c.
Proof.
  unfold subst_char. destruct (Ascii.eqb_spec "/"%char c) as [<-|]; done.
Qed.

Lemma subst_slash_digit c :
  Text.is_digit c = true → Text.is_digit (subst_char "/" "-" c) = true.
Proof.
  intros Hc. unfold subst_char. by rewrite (digit_not c "/"%char).
Qed.

Lemma subst_slash_sep c :
  is_date_sep c = true → is_date_sep (subst_char "/" "-" c) = true.
Proof.
  intros Hc. unfold subst_char. by destruct (Ascii.eqb "/"%char c).
Qed.

(** The exported date is one token that the parser accepts as a date;
    it starts with a digit. *)
Lemma export_date_ok d :
  _looks_date d = true →
  let D := Text.strip (Text.replace "/" "-" d) in
  is_token D = true ∧ _looks_date D = true
  ∧ ∃ c r, D = String c r ∧ Text.is_digit c = true.
Proof.
  intros Hd. cbn zeta.
  change (Text.replace "/" "-" d)
    with (Text.replace (String "/"%char "") (String "-"%char "") d).
  rewrite replace_char, strip_map by apply subst_slash_space.
  unfold _looks_date in Hd.
  eapply (fullmatch_map (subst_char "/" "-")) in Hd.
  2:{ repeat (constructor;
              [first [exact subst_slash_digit | exact subst_slash_sep]|]).
      constructor. }
  set (D := Text.map_chars _ _) in *.
  assert (is_token D = true) as Htok.
  { apply is_token_spec. split.
    - apply fullmatch_cons in Hd as (c & r & -> & _). done.
    - eapply fullmatch_no_space; [|exact Hd].
      repeat (constructor;
              [first [exact digit_not_space | exact date_sep_not_space]|]).
      constructor. }
  split; [done|]. split.
  - unfold _looks_date. by rewrite strip_token.
  - apply fullmatch_cons in Hd as (c & r & -> & Hc & _). by exists c, r.
Qed.

Lemma colon_not_space c : is_char ":"%char c = true → Text.is_space c = false.
Proof. unfold is_char. by intros ->%Ascii.eqb_eq. Qed.

Lemma hh_colon_mm_token s : is_hh_colon_mm s = true → is_token s = true.
Proof.
  intros Hs. apply is_token_spec. split.
  - apply fullmatch_cons in Hs as (c & r & -> & _). done.
  - eapply fullmatch_no_space; [|exact Hs].
    repeat (constructor;
            [first [exact digit_not_space | exact colon_not_space]|]).
    constructor.
Qed.

(** The exported time is one token that the parser accepts as a time. *)
Lemma export_time_ok t :
  _looks_time t = true →
  let T := Text.strip (_parse_time t) in
  is_token T = true ∧ _looks_time T = true.
Proof.
  intros Ht. cbn zeta. unfold _looks_time in Ht.
  assert (truthy t = true) as Hne by (by destruct t).
  assert (∀ s, is_hh_colon_mm s = true →
               is_token (Text.strip s) = true
               ∧ _looks_time (Text.strip s) = true) as Hok.
  { intros s Hs. pose proof (hh_colon_mm_token s Hs) as Htok.
    rewrite strip_token by done. split; [done|].
    unfold _looks_time. by rewrite strip_token, Hs. }
  unfold _parse_time. rewrite Hne. cbn [negb].
  destruct (is_hh_colon_mm (Text.strip t)) eqn:Hhm; [by apply Hok|].
  cbn [orb] in Ht. rewrite Ht. apply Hok.
  apply fullmatch_cons in Ht as (c0 & r0 & -> & H0 & Ht).
  apply fullmatch_cons in Ht as (c1 & r1 & -> & H1 & Ht).
  apply fullmatch_cons in Ht as (c2 & r2 & -> & H2 & Ht).
  apply fullmatch_cons in Ht as (c3 & r3 & -> & H3 & Ht).
  apply fullmatch_nil in Ht as ->.
  change (Text.take 2 _ +:+ ":" +:+ Text.drop 2 _)
    with (String c0 (String c1 (String ":"%char (String c2 (String c3 ""))))).
  unfold is_hh_colon_mm. cbn. by rewrite H0, H1, H2, H3.
Qed.

(** An acceptable exchange, exported and picked up again. *)
Lemma exchange_token x :
  exchange_ok x = true →
  let S := or_else (_canon_exchange x) "-" in
  is_token S = true
  ∧ bool_decide (S ∈ RST_PREFIXES) = false
  ∧ _canon_exchange (_extract_exchange_from_token S) = x.
Proof.
  unfold exchange_ok.
  intros [[Hd Hc%String.eqb_eq]%andb_true_iff He%String.eqb_eq]%andb_true_iff.
  cbn zeta. rewrite Hc. destruct x as [|c x]; [by vm_compute|].
  cbn [or_else truthy]. split; [by apply all_digits_token, all_digits_spec|].
  split; [|by rewrite He, Hc].
  unfold _extract_exchange_from_token in He.
  rewrite strip_digits in He by done.
  destruct (decide (String c x = "" ∨ String c x = "-")); [done|].
  by destruct (bool_decide (String c x ∈ RST_PREFIXES)).
Qed.

Lemma take_pts_last_digits (toks : list string) tk raw :
  all_digits tk = true →
  _take_pts_from_tail (toks ++ [tk]) raw = (PyInt.digits_val 0 tk, toks).
Proof.
  intros Hd. unfold _take_pts_from_tail.
  rewrite last_snoc, removelast_last. unfold pts_text.
  apply all_digits_spec in Hd as Hd'. destruct Hd' as [_ Hall].
  by rewrite replace_comma_digits, strip_digits, Hd.
Qed.

Lemma pick_exchanges_canonical S R :
  bool_decide (S ∈ RST_PREFIXES) = false →
  bool_decide (R ∈ RST_PREFIXES) = false →
  pick_exchanges ["59"; S; "59"; R] = (S, R).
Proof.
  intros HS HR. unfold pick_exchanges. cbn [rst_indices].
  rewrite HS, HR.
  assert (bool_decide ("59" ∈ RST_PREFIXES) = true) as -> by (by vm_compute).
  reflexivity.
Qed.

Lemma ends_with_blank_zero_join (toks : list string) :
  toks ≠ [] → ends_with_blank_zero (Text.join " " (toks ++ ["0"])) = true.
Proof.
  intros Hne. induction toks as [|t toks IH]; [done|].
  destruct toks as [|t' toks].
  - change (Text.join " " ([t] ++ ["0"])) with (t +:+ " 0").
    by apply ends_with_blank_zero_app.
  - change (Text.join " " ((t :: t' :: toks) ++ ["0"]))
      with (t +:+ " " +:+ Text.join " " ((t' :: toks) ++ ["0"])).
    apply ends_with_blank_zero_app, ends_with_blank_zero_app. by apply IH.
Qed.

(** The body of the parser on a line whose tokens are known. *)
Lemma parse_ctestwin_line_tokens raw p0 p1 p2 p3 p4 r0 rest c r :
  Text.strip raw = String c r →
  Text.is_digit c = true →
  Text.split (Text.strip raw) = p0 :: p1 :: p2 :: p3 :: p4 :: r0 :: rest →
  _looks_date p0 = true → _looks_time p1 = true →
  all_digits p3 = false →
  parse_ctestwin_line raw
  = let s := Text.strip raw in
    let '(pts, rest) := _take_pts_from_tail (r0 :: rest) s in
    let '(sent_tok, rcvd_tok) := pick_exchanges rest in
    Some (mkQso (Text.replace "/" "-" p0) (_parse_time p1) (_parse_band_mhz p2)
                p3 (_clean_callsign p4)
                (_canon_exchange (_extract_exchange_from_token sent_tok))
                (_canon_exchange (_extract_exchange_from_token rcvd_tok))
                (if pts <=? 0 then
                   if ends_with_blank_zero s
                      || Text.contains "dupe" (Text.lower s)
                      || Text.contains "dup" (Text.lower s)
                   then 0 else 2
                 else pts)
                false raw).
Proof.
  intros Hs Hc Hsplit Hdate Htime Hmode. unfold parse_ctestwin_line.
  cbn zeta. revert Hs Hsplit. generalize (Text.strip raw) as s.
  intros s -> ->.
  cbn [truthy negb Text.startswith].
  rewrite (digit_not c "D"%char), (digit_not c "-"%char) by done.
  cbn [orb length Nat.ltb Nat.leb]. rewrite Hdate, Htime, Hmode.
  cbn [negb orb andb]. reflexivity.
Qed.

Lemma qso_to_ctestwin_line_join q :
  qso_to_ctestwin_line q
  = Text.join " "
      ([Text.strip (Text.replace "/" "-" (date q));
        Text.strip (_parse_time (time q));
        or_else (_canon_band_token (band_mhz q)) "50";
        Text.upper (Text.strip (or_else (mode q) "AM"));
        _clean_callsign (worked_call q);
        "59"; or_else (_canon_exchange (sent_exch q)) "-";
        "59"; or_else (_canon_exchange (rcvd_exch q)) "-"]
       ++ [PyInt.str (_safe_int (PyIntV (pts q)) 2)]).
Proof. reflexivity. Qed.

Lemma or_else_token s d : is_token s = true → or_else s d = s.
Proof. intros [Hne _]%is_token_spec. unfold or_else. by rewrite Hne. Qed.

Lemma clean_callsign_token s :
  is_token s = true → Text.upper s = s → _clean_callsign s = s.
Proof.
  intros Htok Hup. pose proof Htok as [Hne _]%is_token_spec.
  unfold _clean_callsign. by rewrite Hne, strip_token, Hup.
Qed.

(** A canonical record, exported and parsed again, gives a record with
    the same tuple. *)
Lemma reparse_canonical q :
  canonical_qso q = true →
  ∃ q', parse_ctestwin_line (qso_to_ctestwin_line q) = Some q'
        ∧ qso_tuple q' = qso_tuple q.
Proof.
  unfold canonical_qso. rewrite !andb_true_iff.
  intros ((((((((((((Hdate & Htime) & Hband) & Hcb%String.eqb_eq)
    & Hpb%String.eqb_eq) & Hmode) & Hum%String.eqb_eq) & Hnd%negb_true_iff)
    & Hcall) & Huc%String.eqb_eq) & Hsent) & Hrcvd) & Hpts%Z.leb_le).
  destruct (export_date_ok _ Hdate) as (HDtok & HDlooks & c & r & HD & Hc).
  destruct (export_time_ok _ Htime) as (HTtok & HTlooks).
  destruct (exchange_token _ Hsent) as (HStok & HSrst & HS).
  destruct (exchange_token _ Hrcvd) as (HRtok & HRrst & HR).
  destruct (str_nonneg _ Hpts) as (HPdig & HPval).
  rewrite qso_to_ctestwin_line_join.
  change (_safe_int (PyIntV (pts q)) 2) with (pts q).
  rewrite Hcb, (or_else_token (band_mhz q)), (or_else_token (mode q)),
    (strip_token (mode q)), Hum, (clean_callsign_token (worked_call q))
    by done.
  set (D := Text.strip (Text.replace "/" "-" (date q))) in *.
  set (T := Text.strip (_parse_time (time q))) in *.
  set (S := or_else (_canon_exchange (sent_exch q)) "-") in *.
  set (R := or_else (_canon_exchange (rcvd_exch q)) "-") in *.
  set (P := PyInt.str (pts q)) in *.
  set (toks := [D; T; band_mhz q; mode q; worked_call q; "59"; S; "59"; R]).
  assert (Forall (fun t => is_token t = true) (toks ++ [P])) as Htoks.
  { unfold toks. repeat (constructor; [done || by apply all_digits_token|]).
    constructor. }
  assert (Text.strip (Text.join " " (toks ++ [P])) = Text.join " " (toks ++ [P]))
    as Hstrip by (by apply strip_join).
  eexists. split.
  - erewrite (parse_ctestwin_line_tokens _ D T (band_mhz q) (mode q)
                (worked_call q) "59" [S; "59"; R; P] c
                (r +:+ " " +:+ Text.join " " (tail toks ++ [P]))).
    + rewrite Hstrip. cbn zeta.
      change ("59" :: [S; "59"; R; P]) with (["59"; S; "59"; R] ++ [P]).
      rewrite take_pts_last_digits by done.
      rewrite pick_exchanges_canonical by done.
      reflexivity.
    + rewrite Hstrip. unfold toks. cbn [app Text.join tail]. by rewrite HD.
    + done.
    + rewrite Hstrip. by rewrite split_join.
    + done.
    + done.
    + done.
  - unfold qso_tuple. cbn [worked_call band_mhz mode sent_exch rcvd_exch pts].
    rewrite HS, HR, Hpb, (clean_callsign_token (worked_call q)), HPval by done.
    repeat f_equal.
    destruct (Z.leb_spec (pts q) 0) as [Hle|]; [|done].
    assert (pts q = 0) as H0 by lia.
    unfold P. rewrite H0. change (PyInt.str 0) with "0".
    by rewrite ends_with_blank_zero_join.
Qed.

(** The exporter normalizes: a lower-case mode and a band written with a
    decimal zero come back upper-cased and without the decimal. *)
Example round_trip_normalizes_mode_and_band :
  let qs := parse_logsheet_ctestwin ["2025-05-05 10:00 50.0 am JA1ABC 59 5 59 12 2"] in
  map qso_tuple qs = [("JA1ABC", "50.0", "am", "5", "12", 2)]
  ∧ map qso_tuple (reexport_and_reparse qs) = [("JA1ABC", "50", "AM", "5", "12", 2)].
Proof. by vm_compute. Qed.

Lemma reexport_and_reparse_cons q qs :
  reexport_and_reparse (q :: qs)
  = match parse_ctestwin_line (qso_to_ctestwin_line q) with
    | Some q' => q' :: reexport_and_reparse qs
    | None => reexport_and_reparse qs
    end.
Proof. reflexivity. Qed.

(** C9 (as amended): for records already in the form of the canonical
    line, exporting them and parsing the lines again yields the same
    tuples, in the same order. *)
Theorem canonical_records_round_trip (qs : list QsoRecord) :
  Forall (fun q => canonical_qso q = true) qs →
  map qso_tuple (reexport_and_reparse qs) = map qso_tuple qs
  ∧ same_tuple_set (reexport_and_reparse qs) qs.
Proof.
  intros H.
  assert (map qso_tuple (reexport_and_reparse qs) = map qso_tuple qs) as Heq.
  { induction H as [|q qs Hq _ IH]; [done|].
    rewrite reexport_and_reparse_cons.
    destruct (reparse_canonical q Hq) as (q' & -> & Ht).
    cbn [map]. by rewrite Ht, IH. }
  split; [done|]. unfold same_tuple_set. by rewrite Heq.
Qed.

(** C9 (as stated) fails: a parsed contact whose sent exchange is the
    number 59 is exported with that number next to the RST placeholders,
    and the parser reads it back as a signal report, losing both
    exchanges. *)
Lemma exchange_59_lost_in_round_trip :
  let qs := parse_logsheet_ctestwin [line_with_exchange_59] in
  map qso_tuple qs = [("JA1ABC", "50", "AM", "59", "12", 2)]
  ∧ map qso_to_ctestwin_line qs = ["2025-05-05 10:00 50 AM JA1ABC 59 59 59 12 2"]
  ∧ map qso_tuple (reexport_and_reparse qs) = [("JA1ABC", "50", "AM", "", "", 2)]
  ∧ ¬ same_tuple_set (reexport_and_reparse qs) qs.
Proof.
  cbn zeta. split; [by vm_compute|]. split; [by vm_compute|].
  split; [by vm_compute|].
  intros H. specialize (H ("JA1ABC", "50", "AM", "59", "12", 2)).
  assert (map qso_tuple (parse_logsheet_ctestwin [line_with_exchange_59])
          = [("JA1ABC", "50", "AM", "59", "12", 2)]) as Hq by (by vm_compute).
  assert (map qso_tuple
            (reexport_and_reparse (parse_logsheet_ctestwin [line_with_exchange_59]))
          = [("JA1ABC", "50", "AM", "", "", 2)]) as Hr by (by vm_compute).
  rewrite Hq, Hr in H.
  assert (("JA1ABC", "50", "AM", "59", "12", 2)
          ∈ [("JA1ABC", "50", "AM", "", "", 2)]) as Hin.
  { apply H. by apply list_elem_of_singleton. }
  apply list_elem_of_singleton in Hin. discriminate Hin.
Qed.

End RoundTrip.

Lemma canonical_records_round_trip_sample :
  Forall (fun q => canonical_qso q = true) canonical_log
  ∧ map qso_tuple (reexport_and_reparse canonical_log) = map qso_tuple canonical_log.
Proof.
  assert (Forall (fun q => canonical_qso q = true) canonical_log) as H.
  { repeat (constructor; [vm_compute; reflexivity|]). constructor. }
  split; [exact H|]. exact (proj1 (canonical_records_round_trip canonical_log H)).
Defined.

(** * Scenarios of the specification *)

Example parse_one_line :
  parse_logsheet_ctestwin ["2025-05-05 10:00 50 AM JA1ABC 59 5 59 12 2"]
  = [mkQso "2025-05-05" "10:00" "50" "AM" "JA1ABC" "5" "12" 2 false
           "2025-05-05 10:00 50 AM JA1ABC 59 5 59 12 2"].
Proof. by vm_compute. Qed.

Example canon_exchange_samples :
  map _canon_exchange ["012"; " 5 "; "-"; ""; "A7"; "000"]
  = ["12"; "5"; ""; ""; "7"; "0"].
Proof. by vm_compute. Qed.

Example canon_band_samples :
  map _canon_band_token ["50"; "50.0"; "50MHz"; "50.5"; "1200.00"; "x"]
  = ["50"; "50"; "50"; "50.5"; "1200"; "x"].
Proof. by vm_compute. Qed.

(** The second contact with the same station is a duplicate with zero
    points; the sample log keeps two valid contacts with one distinct
    exchange. *)
Example recalc_sample_log :
  let e := recalc_entry opplace_unchanged unclaimed_entry in
  map (fun q => (dup q, pts q)) (qsos e)
  = [(false, 2); (true, 0); (true, 0); (false, 2)]
  ∧ (recalced_qso e, recalced_pts e, recalced_mult e, recalced_total e)
    = (2, 4, 1, 4)
  ∧ match_ e = true.
Proof. by vm_compute. Qed.

(** Three entries with equal figures share rank 1, and a cut-off of two
    keeps all three. *)
Example three_way_tie :
  let es := [scored_entry "JA1CCC" "1F" 100 100 1 false;
             scored_entry "JA1AAA" "1F" 100 100 1 false;
             scored_entry "JA1BBB" "1F" 100 100 1 false;
             scored_entry "JA1DDD" "1F" 50 50 1 false] in
  map (fun '(r, e) => (r, callsign e)) (rank_entries es)
  = [(1, "JA1AAA"); (1, "JA1BBB"); (1, "JA1CCC"); (4, "JA1DDD")]
  ∧ map (fun '(r, e) => (r, callsign e)) (top_n_with_ties es 2)
    = [(1, "JA1AAA"); (1, "JA1BBB"); (1, "JA1CCC")].
Proof. by vm_compute. Qed.

(** * More on the duplicate pass *)

Section DuplicatePassFrame.

Implicit Types (q : QsoRecord) (qs : list QsoRecord) (seen : gset DupKey).

Lemma mark_one_same_contact earlier q : same_contact q (mark_one earlier q).
Proof.
  unfold mark_one, same_contact. case_bool_decide; cbn; tauto.
Qed.

(** X1: the duplicate pass keeps the number and order of the contacts and
    touches nothing but the duplicate flag and the points; the points of a
    contact stay as they were or become zero. *)
Theorem mark_duplicates_same_contacts qs :
  Forall2 same_contact qs (mark_duplicates qs).
Proof.
  rewrite mark_duplicates_imap.
  apply Forall2_same_length_lookup. split; [by rewrite length_imap|].
  intros i q q' Hq Hq'. rewrite list_lookup_imap, Hq in Hq'.
  injection Hq' as <-. apply mark_one_same_contact.
Qed.

Lemma is_valid_mark_one earlier q :
  is_valid (mark_one earlier q) = true → dup_key q ∉ earlier.
Proof.
  unfold mark_one. case_bool_decide; [done|]. done.
Qed.

Lemma valid_keys_loop seen qs :
  let valid := filter (fun q => is_valid q = true) (mark_duplicates_loop seen qs).1 in
  NoDup (dup_key <$> valid) ∧ ∀ k, k ∈ (dup_key <$> valid) → k ∉ seen.
Proof.
  cbn zeta. revert seen. induction qs as [|q qs IH]; intros seen.
  - cbn. split; [constructor|]. intros k Hk. by apply elem_of_nil in Hk.
  - rewrite mark_duplicates_loop_cons. cbn [fst].
    destruct (IH ({[dup_key q]} ∪ seen)) as [Hnd Hdisj].
    rewrite filter_cons. case_decide as Hv.
    + apply is_valid_mark_one in Hv. rewrite elem_of_elements in Hv.
      rewrite fmap_cons, dup_key_mark_one. split.
      * constructor; [|done]. intros Hin. apply Hdisj in Hin. set_solver.
      * intros k [->|Hin]%elem_of_cons; [done|]. apply Hdisj in Hin. set_solver.
    + split; [done|]. intros k Hin. apply Hdisj in Hin. set_solver.
Qed.

(** X2: after the duplicate pass no two valid contacts share a key: a
    station counts at most once per band and mode. *)
Theorem valid_contacts_have_distinct_keys qs :
  NoDup (dup_key <$> filter (fun q => is_valid q = true) (mark_duplicates qs)).
Proof. apply (valid_keys_loop ∅ qs). Qed.

End DuplicatePassFrame.

(** * More on the recomputation *)

Section RecomputationInvariants.

Variable normalize_opplace_any : string -> string -> string.

Implicit Types (e : StationEntry) (q : QsoRecord).

Lemma sum_pts_foldl (acc : Z) (l : list QsoRecord) :
  foldl (fun acc q => acc + pts q) acc l = acc + sum_pts l.
Proof.
  unfold sum_pts. revert acc. induction l as [|q l IH]; intros acc; cbn; [lia|].
  rewrite IH, (IH (0 + pts q)). lia.
Qed.

Lemma sum_pts_cons q (l : list QsoRecord) : sum_pts (q :: l) = pts q + sum_pts l.
Proof. unfold sum_pts at 1. cbn. rewrite sum_pts_foldl. lia. Qed.

Lemma sum_pts_valid (l : list QsoRecord) :
  Forall (fun q => is_valid q = true) l → Z.of_nat (length l) <= sum_pts l.
Proof.
  induction 1 as [|q l Hq _ IH]; [done|].
  rewrite sum_pts_cons. unfold is_valid in Hq.
  apply andb_true_iff in Hq as [_ Hp%Z.ltb_lt]. cbn [length]. lia.
Qed.

Lemma length_remove_dups_le (l : list string) :
  (length (remove_dups l) ≤ length l)%nat.
Proof.
  induction l as [|x l IH]; [done|]. cbn. case_decide; cbn; lia.
Qed.

Lemma length_distinct_exchanges (l : list QsoRecord) :
  (length (distinct_exchanges l) ≤ length l)%nat.
Proof.
  unfold distinct_exchanges.
  etrans; [apply length_remove_dups_le|].
  etrans; [apply length_filter|]. by rewrite length_map.
Qed.

Lemma Forall_filter_valid (l : list QsoRecord) :
  Forall (fun q => is_valid q = true) (filter (fun q => is_valid q = true) l).
Proof.
  apply Forall_forall. intros q Hq. by apply list_elem_of_filter in Hq as [? _].
Qed.

Lemma override_disabled e :
  manual_enabled e = false → _apply_manual_override normalize_opplace_any e = e.
Proof. intros H. unfold _apply_manual_override. by rewrite H. Qed.

Lemma verdict_keeps_figures e :
  recalced_qso (recalc_verdict e) = recalced_qso e
  ∧ recalced_pts (recalc_verdict e) = recalced_pts e
  ∧ recalced_mult (recalc_verdict e) = recalced_mult e
  ∧ recalced_total (recalc_verdict e) = recalced_total e.
Proof. unfold recalc_verdict. by repeat case_match. Qed.

(** X3: without a manual override the recomputed figures are ordered
    [0 <= multiplier <= QSO count <= points], the QSO count does not exceed
    the number of logged contacts, and the total is points times
    multiplier. *)
Theorem recalced_figures_ordered e :
  manual_enabled e = false →
  let e' := recalc_entry normalize_opplace_any e in
  0 <= recalced_mult e' <= recalced_qso e'
  ∧ recalced_qso e' <= recalced_pts e'
  ∧ recalced_qso e' <= Z.of_nat (length (qsos e))
  ∧ recalced_total e' = recalced_pts e' * recalced_mult e'.
Proof.
  intros Hen. cbn zeta. unfold recalc_entry.
  rewrite override_disabled by done.
  destruct (verdict_keeps_figures (recalc_scores e)) as (Hq & Hp & Hm & Ht).
  rewrite Ht, Hp, Hm, Hq.
  cbn [recalc_scores recalced_qso recalced_pts recalced_mult recalced_total
       set_recalced_qso set_recalced_pts set_recalced_mult set_recalced_total
       set_qsos qsos].
  rewrite (size_mult_set_of normalize_opplace_any).
  pose proof (length_distinct_exchanges
                (filter (fun q => is_valid q = true) (mark_duplicates (qsos e)))).
  pose proof (sum_pts_valid
                (filter (fun q => is_valid q = true) (mark_duplicates (qsos e)))
                (Forall_filter_valid _)) as Hs.
  pose proof (length_filter (fun q => is_valid q = true) (mark_duplicates (qsos e))) as Hf.
  rewrite mark_duplicates_length in Hf.
  repeat split; lia.
Qed.

Lemma mark_duplicates_twice (qs : list QsoRecord) :
  mark_duplicates (mark_duplicates qs) = mark_duplicates qs.
Proof. apply mark_duplicates_loop_idem. Qed.

Local Ltac simpl_entry :=
  cbn [callsign category category_name opplace address comments logsheet_type
       claimed_qso claimed_pts claimed_mult claimed_total qsos recalced_qso
       recalced_pts recalced_mult recalced_total manual_enabled manual_qso
       manual_pts manual_mult manual_total manual_note manual_opplace match_
       reason source_name raw_submission_text is_checklog set_opplace set_qsos
       set_recalced_qso set_recalced_pts set_recalced_mult set_recalced_total
       set_verdict set_is_checklog negb _safe_int] in *.

Lemma recalc_verdict_as_set e :
  recalc_verdict e
  = set_verdict (match_ (recalc_verdict e)) (reason (recalc_verdict e)) e.
Proof. unfold recalc_verdict. case_match; by destruct e. Qed.

(** The verdict reads the claimed and recomputed figures and the manual
    note only. *)
Lemma recalc_verdict_ext e1 e2 :
  claimed_qso e1 = claimed_qso e2 → claimed_pts e1 = claimed_pts e2 →
  claimed_mult e1 = claimed_mult e2 → claimed_total e1 = claimed_total e2 →
  recalced_qso e1 = recalced_qso e2 → recalced_pts e1 = recalced_pts e2 →
  recalced_mult e1 = recalced_mult e2 → recalced_total e1 = recalced_total e2 →
  manual_enabled e1 = manual_enabled e2 → manual_note e1 = manual_note e2 →
  match_ (recalc_verdict e1) = match_ (recalc_verdict e2)
  ∧ reason (recalc_verdict e1) = reason (recalc_verdict e2).
Proof.
  intros H1 H2 H3 H4 H5 H6 H7 H8 H9 H10. unfold recalc_verdict.
  rewrite H1, H2, H3, H4, H5, H6, H7, H8, H9, H10.
  by case_match.
Qed.

(** The entry after the scores and the override, field by field. *)
Lemma override_scores_fields e :
  let V := filter (fun q => is_valid q = true) (mark_duplicates (qsos e)) in
  let rq := Z.of_nat (length V) in
  let rp := sum_pts V in
  let rm := Z.of_nat (size (mult_set_of V)) in
  let rq' := if manual_enabled e then default rq (manual_qso e) else rq in
  let rp' := if manual_enabled e then default rp (manual_pts e) else rp in
  let rm' := if manual_enabled e then default rm (manual_mult e) else rm in
  _apply_manual_override normalize_opplace_any (recalc_scores e)
  = mkEntry (callsign e) (category e) (category_name e)
      (if manual_enabled e && truthy (Text.strip (manual_opplace e))
       then normalize_opplace_any (Text.strip (manual_opplace e)) (address e)
       else opplace e)
      (address e) (comments e) (logsheet_type e) (claimed_qso e)
      (claimed_pts e) (claimed_mult e) (claimed_total e)
      (mark_duplicates (qsos e)) rq' rp' rm'
      (if manual_enabled e then default (rp' * rm') (manual_total e)
       else rp * rm)
      (manual_enabled e) (manual_qso e) (manual_pts e) (manual_mult e)
      (manual_total e) (manual_note e) (manual_opplace e) (match_ e)
      (reason e) (source_name e) (raw_submission_text e) (is_checklog e).
Proof.
  cbn zeta. unfold recalc_scores, _apply_manual_override.
  destruct e as [cs cat catn opp addr com lt cq cp cm ct qs rq rp rm rt
                 men mq mp mm mt mnote mopp mat rea src rawt chk].
  simpl_entry.
  generalize (filter (fun q => is_valid q = true) (mark_duplicates qs)) as V.
  intros V.
  destruct men; simpl_entry; [|reflexivity].
  destruct mq, mp, mm, mt; simpl_entry;
    destruct (truthy (Text.strip mopp)); reflexivity.
Qed.

Lemma recalc_entry_twice e :
  recalc_entry normalize_opplace_any (recalc_entry normalize_opplace_any e)
  = recalc_entry normalize_opplace_any e.
Proof.
  unfold recalc_entry at 1.
  set (e1 := recalc_entry normalize_opplace_any e).
  assert (_apply_manual_override normalize_opplace_any (recalc_scores e1)
          = set_verdict (match_ e1) (reason e1)
              (_apply_manual_override normalize_opplace_any (recalc_scores e)))
    as Hov.
  { rewrite (override_scores_fields e1), (override_scores_fields e).
    unfold e1, recalc_entry.
    rewrite (recalc_verdict_as_set
               (_apply_manual_override normalize_opplace_any (recalc_scores e))).
    rewrite (override_scores_fields e).
    cbn zeta. simpl_entry. rewrite mark_duplicates_twice.
    destruct (manual_enabled e), (truthy (Text.strip (manual_opplace e)));
      reflexivity. }
  rewrite Hov.
  set (e2 := _apply_manual_override normalize_opplace_any (recalc_scores e)) in *.
  rewrite (recalc_verdict_as_set (set_verdict (match_ e1) (reason e1) e2)).
  assert (match_ (recalc_verdict (set_verdict (match_ e1) (reason e1) e2))
          = match_ (recalc_verdict e2)
          ∧ reason (recalc_verdict (set_verdict (match_ e1) (reason e1) e2))
            = reason (recalc_verdict e2)) as [Hm Hr].
  { clearbody e2. apply recalc_verdict_ext; by destruct e2. }
  rewrite Hm, Hr.
  assert (e1 = recalc_verdict e2) as He1 by reflexivity.
  rewrite He1. symmetry. etrans; [apply recalc_verdict_as_set|].
  generalize (match_ (recalc_verdict e2)), (reason (recalc_verdict e2)).
  intros m r. clearbody e2. clear. by destruct e2.
Qed.

(** What [recalc_entry] never touches. *)
Lemma recalc_entry_frame e :
  let e' := recalc_entry normalize_opplace_any e in
  callsign e' = callsign e ∧ category e' = category e
  ∧ is_checklog e' = is_checklog e ∧ manual_enabled e' = manual_enabled e
  ∧ source_name e' = source_name e
  ∧ raw_submission_text e' = raw_submission_text e.
Proof.
  cbn zeta. unfold recalc_entry.
  rewrite recalc_verdict_as_set, override_scores_fields. done.
Qed.

(** X4: recomputing an entry that has just been recomputed changes
    nothing: [recalc_entry] is idempotent. *)
Theorem recalc_entry_idempotent e :
  recalc_entry normalize_opplace_any (recalc_entry normalize_opplace_any e)
  = recalc_entry normalize_opplace_any e.
Proof. apply recalc_entry_twice. Qed.

Lemma add_reason_nil_iff (label : string) (a : option Z) (b : Z) :
  add_reason label a b = [] ↔ agrees a b.
Proof.
  unfold add_reason, agrees. destruct a as [v|]; [|naive_solver].
  cbn [_safe_int]. destruct (Z.eqb_spec v b) as [->|Hne]; naive_solver.
Qed.

Lemma add_reason_truthy (label : string) (a : option Z) (b : Z) :
  Forall (fun r => truthy r = true) (add_reason label a b).
Proof.
  unfold add_reason. destruct a as [v|]; [|constructor].
  case_match; repeat constructor.
  apply truthy_app_r, truthy_app_l. done.
Qed.

Lemma verdict_match_iff e :
  match_ (recalc_verdict e) = true
  ↔ claimed_total e = Some 0
    ∨ (agrees (claimed_qso e) (recalced_qso e)
       ∧ agrees (claimed_pts e) (recalced_pts e)
       ∧ agrees (claimed_mult e) (recalced_mult e)
       ∧ agrees (claimed_total e) (recalced_total e)).
Proof.
  unfold recalc_verdict.
  assert (match claimed_total e with
          | Some v => _safe_int (PyIntV v) 0 =? 0
          | None => false
          end = true ↔ claimed_total e = Some 0) as Hz.
  { destruct (claimed_total e) as [v|]; cbn; [|naive_solver].
    rewrite Z.eqb_eq. naive_solver. }
  destruct (match claimed_total e with _ => _ end) eqn:Hc.
  - cbn. split; [|done]. intros _. left. by apply Hz.
  - cbn [match_ set_verdict].
    rewrite Nat.eqb_eq, !length_app. split.
    + intros Hl. right.
      split; [apply (add_reason_nil_iff "QSO数"), length_zero_iff_nil; lia|].
      split; [apply (add_reason_nil_iff "素点"), length_zero_iff_nil; lia|].
      split; [apply (add_reason_nil_iff "マルチ"), length_zero_iff_nil; lia|].
      apply (add_reason_nil_iff "総得点"), length_zero_iff_nil; lia.
    + intros [Hzero|(H1 & H2 & H3 & H4)]; [apply Hz in Hzero; congruence|].
      apply (add_reason_nil_iff "QSO数") in H1.
      apply (add_reason_nil_iff "素点") in H2.
      apply (add_reason_nil_iff "マルチ") in H3.
      apply (add_reason_nil_iff "総得点") in H4.
      by rewrite H1, H2, H3, H4.
Qed.

Lemma claimed_unchanged e :
  let e' := _apply_manual_override normalize_opplace_any (recalc_scores e) in
  claimed_qso e' = claimed_qso e ∧ claimed_pts e' = claimed_pts e
  ∧ claimed_mult e' = claimed_mult e ∧ claimed_total e' = claimed_total e.
Proof.
  cbn zeta. unfold _apply_manual_override. destruct e. cbn.
  repeat (case_match; cbn in *; simplify_eq); done.
Qed.

Lemma recalc_match_iff e :
  let e' := recalc_entry normalize_opplace_any e in
  match_ e' = true
  ↔ claimed_total e = Some 0
    ∨ (agrees (claimed_qso e) (recalced_qso e')
       ∧ agrees (claimed_pts e) (recalced_pts e')
       ∧ agrees (claimed_mult e) (recalced_mult e')
       ∧ agrees (claimed_total e) (recalced_total e')).
Proof.
  cbn zeta. unfold recalc_entry.
  destruct (verdict_keeps_figures
              (_apply_manual_override normalize_opplace_any (recalc_scores e)))
    as (-> & -> & -> & ->).
  rewrite verdict_match_iff.
  destruct (claimed_unchanged e) as (-> & -> & -> & ->). done.
Qed.

(** X5: an entry matches exactly when its claimed total is zero, or every
    claimed figure that is present equals the recomputed figure stored in
    the entry. *)
Theorem match_iff_claims_agree e :
  let e' := recalc_entry normalize_opplace_any e in
  match_ e' = true
  ↔ claimed_total e = Some 0
    ∨ (agrees (claimed_qso e) (recalced_qso e')
       ∧ agrees (claimed_pts e) (recalced_pts e')
       ∧ agrees (claimed_mult e) (recalced_mult e')
       ∧ agrees (claimed_total e) (recalced_total e')).
Proof. apply recalc_match_iff. Qed.

Lemma join_truthy (sep : string) (l : list string) :
  l ≠ [] → Forall (fun r => truthy r = true) l → truthy (Text.join sep l) = true.
Proof.
  intros Hne H. destruct H as [|r l Hr _]; [done|].
  destruct l; [done|]. cbn [Text.join]. by apply truthy_app_l.
Qed.

Lemma verdict_reason_truthy e :
  match_ (recalc_verdict e) = false → truthy (reason (recalc_verdict e)) = true.
Proof.
  unfold recalc_verdict. case_match; [done|].
  cbn [match_ reason set_verdict]. intros Hl%Nat.eqb_neq.
  apply truthy_app_l, join_truthy.
  - intros Hnil. by rewrite Hnil in Hl.
  - repeat (apply Forall_app; split); apply add_reason_truthy.
Qed.

(** X6: an entry that does not match always carries a reason. *)
Theorem mismatch_has_reason e :
  match_ (recalc_entry normalize_opplace_any e) = false →
  reason (recalc_entry normalize_opplace_any e) ≠ "".
Proof.
  unfold recalc_entry. intros H. apply verdict_reason_truthy in H.
  intros Heq. rewrite Heq in H. discriminate H.
Qed.

End RecomputationInvariants.

Lemma recalced_figures_ordered_sample :
  manual_enabled mismatch_entry = false
  ∧ recalced_qso (recalc_entry opplace_unchanged mismatch_entry)
    <= recalced_pts (recalc_entry opplace_unchanged mismatch_entry).
Proof.
  split; [reflexivity|].
  exact (proj1 (proj2 (recalced_figures_ordered opplace_unchanged mismatch_entry
                                                eq_refl))).
Defined.

Lemma mismatch_has_reason_sample :
  match_ (recalc_entry opplace_unchanged mismatch_entry) = false
  ∧ reason (recalc_entry opplace_unchanged mismatch_entry) ≠ "".
Proof.
  assert (match_ (recalc_entry opplace_unchanged mismatch_entry) = false) as H
    by (vm_compute; reflexivity).
  split; [exact H|]. exact (mismatch_has_reason opplace_unchanged mismatch_entry H).
Defined.

(** * Claimed figures and the verdict *)

(** C7 (as amended): after summary parsing the claimed QSO count, points
    and multiplier are what the score text declares, each possibly absent,
    while the claimed total is always present: the number in the
    [TOTALSCORE] element, and 0 when there is no such element or it does not
    hold a number.  Such an entry is handled as a zero claim: after
    [recalc_entry] it matches, with the zero-claim reason.  Otherwise the
    entry matches exactly when the recomputed total is the claimed one and
    each of the other three figures is absent or equal to the recomputed
    one.  For every entry, built from a summary or not, an absent claimed
    figure adds nothing to the reasons and nothing to the verdict: the
    entry matches exactly when its claimed total is 0 or every figure that
    is present equals its recomputed counterpart. *)
Theorem claimed_figures_after_summary
        (normalize_opplace_any : string → string → string)
        (sb : string) (e : StationEntry) :
  let e1 := set_claimed (parse_summarysheet sb) e in
  let e' := recalc_entry normalize_opplace_any e1 in
  let total := match _find_tag (_clean sb) "TOTALSCORE" with
               | Some t => _safe_int (PyStrV t) 0
               | None => 0
               end in
  claimed_total e1 = Some total
  ∧ (claimed_qso e1, claimed_pts e1, claimed_mult e1)
    = _parse_score_triplet (score_text (_clean sb))
  ∧ _parse_score_triplet "" = (None, None, None)
  ∧ (total = 0 → match_ e' = true ∧ reason e' = zero_claim_reason)
  ∧ (match_ e' = true
     ↔ total = 0
       ∨ (agrees (claimed_qso e1) (recalced_qso e')
          ∧ agrees (claimed_pts e1) (recalced_pts e')
          ∧ agrees (claimed_mult e1) (recalced_mult e')
          ∧ recalced_total e' = total))
  ∧ (∀ label b, add_reason label None b = [])
  ∧ (∀ entry : StationEntry,
       let r := recalc_entry normalize_opplace_any entry in
       match_ r = true
       ↔ claimed_total entry = Some 0
         ∨ ((∀ v, claimed_qso entry = Some v → recalced_qso r = v)
            ∧ (∀ v, claimed_pts entry = Some v → recalced_pts r = v)
            ∧ (∀ v, claimed_mult entry = Some v → recalced_mult r = v)
            ∧ (∀ v, claimed_total entry = Some v → recalced_total r = v))).
Proof.
  cbv zeta.
  set (total := match _find_tag (_clean sb) "TOTALSCORE" with
                | Some t => _safe_int (PyStrV t) 0
                | None => 0
                end).
  assert (claimed_total (set_claimed (parse_summarysheet sb) e) = Some total)
    as Htotal.
  { unfold parse_summarysheet, total.
    destruct (_parse_score_triplet (score_text (_clean sb))) as [[qso pts] mult].
    cbn [set_claimed claimed_total sm_claimed_total].
    by destruct (_find_tag _ _). }
  assert (∀ (c : option Z) (b : Z),
            agrees c b ↔ ∀ v, c = Some v → b = v) as Hagrees.
  { intros c b. unfold agrees. split.
    - intros [->| ->] v Hv; by simplify_eq.
    - intros H. destruct c as [v|]; [right|by left]. by rewrite (H v). }
  split; [exact Htotal|]. split.
  { unfold parse_summarysheet.
    destruct (_parse_score_triplet (score_text (_clean sb))) as [[qso pts] mult].
    done. }
  split; [done|]. split.
  { intros Hz. apply recalc_entry_zero_claim. by rewrite Htotal, Hz. }
  split.
  { pose proof (recalc_match_iff normalize_opplace_any
                  (set_claimed (parse_summarysheet sb) e)) as H.
    cbv zeta in H. rewrite H, Htotal. unfold agrees at 4.
    split.
    - intros [Hz|(H1 & H2 & H3 & [Hn|Hs])]; [left; by simplify_eq| |].
      + done.
      + right. repeat (split; [done|]). by simplify_eq.
    - intros [->|(H1 & H2 & H3 & H4)]; [by left|].
      right. repeat (split; [done|]). right. by rewrite H4. }
  split; [done|].
  intros entry. cbv zeta.
  pose proof (recalc_match_iff normalize_opplace_any entry) as H.
  cbv zeta in H. by rewrite H, !Hagrees.
Qed.

(** * The order of the ranking *)

Section RankingOrder.

Implicit Types (e x y z : StationEntry) (es l : list StationEntry).

Lemma metrics_ltb_spec (a b : Metrics) :
  metrics_ltb a b = true
  ↔ a.1.1.1 < b.1.1.1
    ∨ (a.1.1.1 = b.1.1.1
       ∧ (a.1.1.2 < b.1.1.2
          ∨ (a.1.1.2 = b.1.1.2
             ∧ (a.1.2 < b.1.2 ∨ (a.1.2 = b.1.2 ∧ a.2 < b.2))))).
Proof.
  destruct a as [[[t1 p1] m1] q1], b as [[[t2 p2] m2] q2]. cbn.
  repeat (rewrite orb_true_iff || rewrite andb_true_iff).
  rewrite !Z.ltb_lt, !Z.eqb_eq. tauto.
Qed.

Lemma metrics_ltb_false (a b : Metrics) :
  metrics_ltb a b = false
  ↔ ¬ (a.1.1.1 < b.1.1.1
       ∨ (a.1.1.1 = b.1.1.1
          ∧ (a.1.1.2 < b.1.1.2
             ∨ (a.1.1.2 = b.1.1.2
                ∧ (a.1.2 < b.1.2 ∨ (a.1.2 = b.1.2 ∧ a.2 < b.2)))))).
Proof. rewrite <- metrics_ltb_spec. by destruct (metrics_ltb a b). Qed.

Lemma metrics_eq_spec (a b : Metrics) :
  a = b ↔ a.1.1.1 = b.1.1.1 ∧ a.1.1.2 = b.1.1.2 ∧ a.1.2 = b.1.2 ∧ a.2 = b.2.
Proof.
  destruct a as [[[t1 p1] m1] q1], b as [[[t2 p2] m2] q2]. cbn. naive_solver.
Qed.

(** Order facts on metrics, closed by linear arithmetic. *)
Local Ltac metrics_lia :=
  rewrite ?metrics_ltb_spec, ?metrics_ltb_false, ?metrics_eq_spec in *;
  cbn [fst snd] in *; lia.

Lemma metrics_ltb_irrefl (a : Metrics) : metrics_ltb a a = false.
Proof. metrics_lia. Qed.

Lemma metrics_ltb_trans (a b c : Metrics) :
  metrics_ltb a b = true → metrics_ltb b c = true → metrics_ltb a c = true.
Proof. intros H1 H2. metrics_lia. Qed.

Lemma metrics_not_ltb_trans (a b c : Metrics) :
  metrics_ltb a b = false → metrics_ltb b c = false → metrics_ltb a c = false.
Proof. intros H1 H2. metrics_lia. Qed.

Lemma metrics_ltb_le_trans (a b c : Metrics) :
  metrics_ltb a b = true → metrics_ltb c b = false → metrics_ltb a c = true.
Proof. intros H1 H2. metrics_lia. Qed.

Lemma metrics_le_ltb_trans (a b c : Metrics) :
  metrics_ltb b a = false → metrics_ltb b c = true → metrics_ltb a c = true.
Proof. intros H1 H2. metrics_lia. Qed.

Lemma metrics_total (a b : Metrics) :
  metrics_ltb a b = false → a ≠ b → metrics_ltb b a = true.
Proof. intros H1 H2. metrics_lia. Qed.

Lemma metrics_ltb_asym (a b : Metrics) :
  metrics_ltb a b = true → metrics_ltb b a = false.
Proof. intros H1. metrics_lia. Qed.

Lemma sort_key_compare_spec x y :
  match sort_key_compare x y with
  | Lt => better x y = true
          ∨ (_entry_rank_metrics x = _entry_rank_metrics y
             ∧ String.compare (callsign x) (callsign y) = Lt)
  | Eq => _entry_rank_metrics x = _entry_rank_metrics y
          ∧ String.compare (callsign x) (callsign y) = Eq
  | Gt => better y x = true
          ∨ (_entry_rank_metrics x = _entry_rank_metrics y
             ∧ String.compare (callsign x) (callsign y) = Gt)
  end.
Proof.
  unfold sort_key_compare, better, _entry_rank_metrics.
  destruct (Z.compare_spec (- recalced_total x) (- recalced_total y));
    [|left; metrics_lia|left; metrics_lia].
  destruct (Z.compare_spec (- recalced_pts x) (- recalced_pts y));
    [|left; metrics_lia|left; metrics_lia].
  destruct (Z.compare_spec (- recalced_mult x) (- recalced_mult y));
    [|left; metrics_lia|left; metrics_lia].
  destruct (Z.compare_spec (- recalced_qso x) (- recalced_qso y));
    [|left; metrics_lia|left; metrics_lia].
  assert ((recalced_total x, recalced_pts x, recalced_mult x, recalced_qso x)
          = (recalced_total y, recalced_pts y, recalced_mult y, recalced_qso y))
    as Heq by (apply metrics_eq_spec; cbn [fst snd]; lia).
  destruct (String.compare (callsign x) (callsign y)); auto.
Qed.

Lemma ranks_before_compare x y : sort_key_compare x y ≠ Gt → ranks_before x y.
Proof.
  intros H. pose proof (sort_key_compare_spec x y) as Hs.
  unfold ranks_before, Text.leb.
  destruct (sort_key_compare x y); [| |done].
  - destruct Hs as [-> ->]. by right.
  - destruct Hs as [?|[-> ->]]; [by left|by right].
Qed.

Lemma ranks_before_compare_gt x y : sort_key_compare x y = Gt → ranks_before y x.
Proof.
  intros H. pose proof (sort_key_compare_spec x y) as Hs. rewrite H in Hs.
  unfold ranks_before, Text.leb. destruct Hs as [?|[Hm Hc]]; [by left|].
  right. split; [done|].
  rewrite String.compare_antisym, Hc. done.
Qed.

Lemma text_leb_trans (a b c : string) :
  Text.leb a b = true → Text.leb b c = true → Text.leb a c = true.
Proof.
  intros H1 H2.
  assert (String.le a c) as H.
  { etrans; [apply Is_true_true, H1|apply Is_true_true, H2]. }
  by apply Is_true_true in H.
Qed.

Lemma ranks_before_trans x y z :
  ranks_before x y → ranks_before y z → ranks_before x z.
Proof.
  unfold ranks_before, better.
  intros [H1|[E1 L1]] [H2|[E2 L2]].
  - left. by eapply metrics_ltb_trans.
  - left. by rewrite <- E2.
  - left. by rewrite E1.
  - right. split; [congruence|]. by eapply text_leb_trans.
Qed.

Lemma ranks_before_not_better x y : ranks_before x y → better y x = false.
Proof.
  unfold ranks_before, better. intros [H|[E _]].
  - by apply metrics_ltb_asym.
  - rewrite E. apply metrics_ltb_irrefl.
Qed.

(** ** Insertion sort *)

Lemma insert_sorted_perm {A} {cmp : A → A → comparison} (x : A) (l : list A) :
  insert_sorted cmp x l ≡ₚ x :: l.
Proof.
  induction l as [|y l IH]; [done|]. cbn.
  destruct (cmp x y); [done|done|].
  rewrite IH. apply Permutation_swap.
Qed.

Lemma sorted_perm {A} {cmp : A → A → comparison} (l : list A) :
  sorted cmp l ≡ₚ l.
Proof.
  induction l as [|x l IH]; [done|].
  unfold sorted. cbn [foldr]. rewrite insert_sorted_perm. by constructor.
Qed.

Lemma insert_sorted_strongly (x : StationEntry) l :
  StronglySorted ranks_before l →
  StronglySorted ranks_before (insert_sorted sort_key_compare x l).
Proof.
  induction 1 as [|y l Hl IH Hy]; [repeat constructor|].
  cbn. destruct (sort_key_compare x y) eqn:Hc.
  - constructor; [by constructor|].
    assert (ranks_before x y) as Hxy by (apply ranks_before_compare; congruence).
    constructor; [done|].
    eapply Forall_impl; [exact Hy|]. intros z Hz. by eapply ranks_before_trans.
  - constructor; [by constructor|].
    assert (ranks_before x y) as Hxy by (apply ranks_before_compare; congruence).
    constructor; [done|].
    eapply Forall_impl; [exact Hy|]. intros z Hz. by eapply ranks_before_trans.
  - constructor; [done|].
    apply ranks_before_compare_gt in Hc.
    rewrite (Forall_forall (ranks_before y)).
    intros z Hz. rewrite insert_sorted_perm in Hz.
    apply elem_of_cons in Hz as [->|Hz]; [done|].
    by eapply (proj1 (Forall_forall _ _) Hy).
Qed.

Lemma sorted_strongly l : StronglySorted ranks_before (sorted sort_key_compare l).
Proof.
  induction l as [|x l IH]; [constructor|].
  unfold sorted. cbn [foldr]. by apply insert_sorted_strongly.
Qed.

(** ** Ranks *)

Lemma strongly_sorted_app (A B : list StationEntry) :
  StronglySorted ranks_before (A ++ B) →
  ∀ a b, a ∈ A → b ∈ B → ranks_before a b.
Proof.
  induction A as [|a0 A IH]; intros HS a b Ha Hb.
  - by apply elem_of_nil in Ha.
  - cbn in HS. apply StronglySorted_inv in HS as [HS Hall].
    apply elem_of_cons in Ha as [->|Ha].
    + apply (proj1 (Forall_forall _ _) Hall). apply elem_of_app. by right.
    + by apply IH.
Qed.

Lemma strongly_sorted_app_r (A B : list StationEntry) :
  StronglySorted ranks_before (A ++ B) → StronglySorted ranks_before B.
Proof.
  induction A as [|a0 A IH]; [done|]. cbn.
  intros [HS _]%StronglySorted_inv. by apply IH.
Qed.

Lemma count_better_metrics es e e' :
  _entry_rank_metrics e = _entry_rank_metrics e' →
  count_better es e = count_better es e'.
Proof. intros H. unfold count_better, better. by rewrite H. Qed.

Lemma count_better_perm es es' e :
  es ≡ₚ es' → count_better es e = count_better es' e.
Proof. intros H. unfold count_better. by rewrite H. Qed.

Lemma filter_none (P : StationEntry → Prop) `{∀ x, Decision (P x)} l :
  Forall (fun x => ¬ P x) l → filter P l = [].
Proof.
  induction 1 as [|x l Hx _ IH]; [done|]. by rewrite filter_cons_False.
Qed.

Lemma filter_all (P : StationEntry → Prop) `{∀ x, Decision (P x)} l :
  Forall P l → filter P l = l.
Proof.
  induction 1 as [|x l Hx _ IH]; [done|]. by rewrite filter_cons_True, IH.
Qed.

(** In a sorted list the entries better than [e] all stand before it. *)
Lemma count_better_split (A B : list StationEntry) e :
  StronglySorted ranks_before (A ++ e :: B) →
  count_better (A ++ e :: B) e
  = Z.of_nat (length (filter (fun e' => better e' e = true) A)).
Proof.
  intros HS. unfold count_better. rewrite filter_app, length_app.
  rewrite (filter_none _ (e :: B)); [cbn; lia|].
  apply strongly_sorted_app_r, StronglySorted_inv in HS as [_ Hall].
  constructor.
  - unfold better. rewrite metrics_ltb_irrefl. done.
  - eapply Forall_impl; [exact Hall|]. intros b Hb%ranks_before_not_better.
    by rewrite Hb.
Qed.

Lemma rank_loop_formula (R P : list StationEntry) (pm : option Metrics) (pr : Z) :
  StronglySorted ranks_before (P ++ R) →
  match last P with
  | None => pm = None
  | Some l => pm = Some (_entry_rank_metrics l)
              ∧ pr = 1 + count_better (P ++ R) l
  end →
  rank_loop (Z.of_nat (length P) + 1) pm pr R
  = map (fun e => (1 + count_better (P ++ R) e, e)) R.
Proof.
  revert P pm pr. induction R as [|e R IH]; intros P pm pr HS Hlast; [done|].
  cbn [rank_loop map].
  assert (match pm with
          | Some pm0 =>
              if metrics_eqb (_entry_rank_metrics e) pm0 then pr
              else Z.of_nat (length P) + 1
          | None => Z.of_nat (length P) + 1
          end = 1 + count_better (P ++ e :: R) e) as Hrank.
  { destruct (last P) as [l|] eqn:HP.
    - destruct Hlast as [-> ->].
      apply last_Some in HP as [P0 ->].
      unfold metrics_eqb. case_bool_decide as Hm.
      + f_equal. by apply count_better_metrics.
      + rewrite count_better_split by done.
        rewrite filter_all; [lia|].
        apply Forall_forall. intros p Hp.
        assert (ranks_before l e) as Hle.
        { eapply (strongly_sorted_app _ _ HS); [|left].
          apply elem_of_app. right. by left. }
        assert (better l e = true) as Hbl.
        { apply ranks_before_not_better in Hle. unfold better in *.
          apply metrics_total; [done|congruence]. }
        apply elem_of_app in Hp as [Hp|Hp%list_elem_of_singleton]; [|by subst].
        assert (ranks_before p l) as Hpl.
        { rewrite <- app_assoc in HS.
          eapply (strongly_sorted_app _ _ HS); [done|by left]. }
        apply ranks_before_not_better in Hpl. unfold better in *.
        by eapply metrics_ltb_le_trans.
    - subst pm. apply last_None in HP as ->.
      rewrite (count_better_split [] R e) by done. cbn. lia. }
  rewrite Hrank. f_equal.
  specialize (IH (P ++ [e]) (Some (_entry_rank_metrics e))
                 (1 + count_better (P ++ e :: R) e)).
  rewrite length_app, <- app_assoc in IH. cbn [length app] in IH.
  replace (Z.of_nat (length P + 1) + 1) with (Z.of_nat (length P) + 1 + 1)
    in IH by lia.
  apply IH; [done|]. by rewrite last_snoc.
Qed.

Lemma rank_loop_sorted es :
  rank_loop 1 None 0 (sorted sort_key_compare es)
  = map (fun e => (1 + count_better es e, e)) (sorted sort_key_compare es).
Proof.
  pose proof (rank_loop_formula (sorted sort_key_compare es) [] None 0
                (sorted_strongly es) eq_refl) as H.
  cbn [length app] in H. change (Z.of_nat 0 + 1) with 1 in H. rewrite H.
  apply map_ext. intros e. f_equal. f_equal.
  apply count_better_perm, sorted_perm.
Qed.

End RankingOrder.

(** X7: the competition part of the ranking is the input sorted by total,
    points, multiplier and QSO count, all descending, then by callsign:
    a rearrangement of the entries in which each entry may stand before
    all later ones. *)
Theorem ranking_is_sorted_rearrangement (es : list StationEntry) :
  sorted sort_key_compare es ≡ₚ es
  ∧ StronglySorted ranks_before (sorted sort_key_compare es).
Proof. split; [apply sorted_perm|apply sorted_strongly]. Qed.

(** X8: [rank_entries] gives every entry of the sorted input the rank one
    plus the number of entries with strictly better metrics (so entries
    with equal metrics share a rank and the next rank skips), followed by
    the checklog entries with rank 0. *)
Theorem rank_is_one_plus_better (es : list StationEntry) :
  rank_entries es
  = map (fun e => (1 + count_better es e, e)) (sorted sort_key_compare es)
    ++ map (fun e => (0, e)) (filter (fun e => is_checklog e = true) es).
Proof. unfold rank_entries. by rewrite rank_loop_sorted. Qed.

(** * Checklog entries in the ranking *)

Section ChecklogInRanking.

Implicit Types (e : StationEntry) (es : list StationEntry).









End ChecklogInRanking.


(** * Top places with ties *)

Section TopPlaces.

Implicit Types (e x y : StationEntry) (es l A B : list StationEntry).

Lemma strongly_sorted_lookup l (i j : nat) x y :
  StronglySorted ranks_before l → (i < j)%nat →
  l !! i = Some x → l !! j = Some y → ranks_before x y.
Proof.
  intros HS Hij Hi Hj.
  rewrite <- (take_drop_middle l i x Hi) in HS, Hj.
  apply lookup_lt_Some in Hi as Hlen.
  rewrite lookup_app_r in Hj by (rewrite length_take; lia).
  rewrite length_take, Nat.min_l in Hj by lia.
  destruct (j - i)%nat as [|k] eqn:Hk; [lia|]. cbn in Hj.
  apply strongly_sorted_app_r, StronglySorted_inv in HS as [_ Hall].
  apply (proj1 (Forall_forall _ _) Hall). by eapply list_elem_of_lookup_2.
Qed.

Lemma filter_agree (P Q : StationEntry → Prop)
      `{∀ x, Decision (P x)} `{∀ x, Decision (Q x)} l :
  Forall (fun x => P x ↔ Q x) l → filter P l = filter Q l.
Proof.
  induction 1 as [|x l Hx _ IH]; [done|].
  rewrite !filter_cons, IH. destruct (decide (P x)), (decide (Q x)); tauto.
Qed.

Lemma length_filter_mono (P Q : StationEntry → Prop)
      `{∀ x, Decision (P x)} `{∀ x, Decision (Q x)} l :
  (∀ x, P x → Q x) → (length (filter P l) ≤ length (filter Q l))%nat.
Proof.
  intros HPQ. induction l as [|x l IH]; [done|].
  rewrite !filter_cons. destruct (decide (P x)) as [HP|], (decide (Q x)) as [|HQ];
    cbn; try lia. destruct HQ. by apply HPQ.
Qed.

Lemma count_better_lt_length l e : e ∈ l → count_better l e < Z.of_nat (length l).
Proof.
  intros He. unfold count_better. apply inj_lt.
  apply (length_filter_lt _ l e He). unfold better.
  by rewrite metrics_ltb_irrefl.
Qed.

(** The entry at place [n] (counted from 1) of a sorted list has fewer
    than [n] better entries. *)
Lemma count_better_at l (i : nat) x :
  StronglySorted ranks_before l → l !! i = Some x →
  count_better l x <= Z.of_nat i.
Proof.
  intros HS Hi. rewrite <- (take_drop_middle l i x Hi) in HS |- * at 1.
  rewrite count_better_split by done.
  apply lookup_lt_Some in Hi.
  pose proof (length_filter (fun e' => better e' x = true) (take i l)) as Hf.
  rewrite length_take in Hf. lia.
Qed.

(** With the cut-off metrics [c] of place [n], an entry has fewer than [n]
    better entries exactly when its metrics are not below [c]. *)
Lemma fewer_than_n_better l (n : nat) x e :
  StronglySorted ranks_before l → l !! n = Some x → e ∈ l →
  count_better l e < Z.of_nat (S n)
  ↔ metrics_ltb (_entry_rank_metrics e) (_entry_rank_metrics x) = false.
Proof.
  intros HS Hn He. split.
  - intros Hlt. destruct (metrics_ltb _ _) eqn:Hb; [|done]. exfalso.
    assert (Z.of_nat (S n) <= count_better l e); [|lia].
    unfold count_better. apply inj_le.
    rewrite <- (take_drop (S n) l) at 1. rewrite filter_app, length_app.
    rewrite filter_all.
    { apply lookup_lt_Some in Hn. rewrite length_take. lia. }
    apply Forall_forall. intros p Hp.
    apply list_elem_of_lookup in Hp as [i Hi].
    apply lookup_lt_Some in Hi as Hlen. rewrite length_take in Hlen.
    rewrite lookup_take_lt in Hi by lia.
    unfold better. destruct (decide (i = n)) as [->|Hne].
    + by simplify_eq.
    + assert (ranks_before p x) as Hpx
        by (apply (strongly_sorted_lookup l i n); [done|lia|done|done]).
      apply ranks_before_not_better in Hpx. unfold better in Hpx.
      by eapply metrics_ltb_le_trans.
  - intros Hge.
    pose proof (count_better_at l n x HS Hn) as Hx.
    assert (count_better l e <= count_better l x); [|lia].
    unfold count_better. apply inj_le, length_filter_mono.
    intros e'. unfold better. intros Hb.
    destruct (metrics_ltb (_entry_rank_metrics x) (_entry_rank_metrics e')) eqn:Hx';
      [done|].
    pose proof (metrics_not_ltb_trans _ _ _ Hge Hx'). congruence.
Qed.

Lemma top_n_loop_keep (n : nat) (x : StationEntry) (f : StationEntry → Z) B A :
  StronglySorted ranks_before (A ++ B) →
  (A ++ B) !! n = Some x →
  top_n_loop (Z.of_nat (S n)) (_entry_rank_metrics x)
             (map (fun e => (f e, e)) A) (map (fun e => (f e, e)) B)
  = map (fun e => (f e, e))
        (A ++ filter (fun e => metrics_ltb (_entry_rank_metrics e)
                                           (_entry_rank_metrics x) = false) B).
Proof.
  revert A. induction B as [|e B IH]; intros A HS Hn.
  - cbn. by rewrite app_nil_r.
  - cbn [map top_n_loop]. rewrite length_map.
    assert (A ++ e :: B = (A ++ [e]) ++ B) as Happ by (by rewrite <- app_assoc).
    assert ((A ++ e :: B) !! length A = Some e) as He
      by (by rewrite lookup_app_r, Nat.sub_diag by lia).
    assert (map (fun e0 => (f e0, e0)) A ++ [(f e, e)]
            = map (fun e0 => (f e0, e0)) (A ++ [e])) as Hmap
      by (by rewrite map_app).
    destruct (Z.ltb_spec (Z.of_nat (length A)) (Z.of_nat (S n))) as [Hlt|Hge].
    + assert (metrics_ltb (_entry_rank_metrics e) (_entry_rank_metrics x) = false)
        as Hkeep.
      { destruct (decide (length A = n)) as [Heq|Hne].
        - rewrite Heq in He. simplify_eq. apply metrics_ltb_irrefl.
        - apply (ranks_before_not_better e x).
          apply (strongly_sorted_lookup (A ++ e :: B) (length A) n);
            [done|lia|done|done]. }
      rewrite filter_cons_True by done.
      rewrite Hmap, IH; rewrite <- ?Happ; [|done|done].
      by rewrite <- app_assoc.
    + assert (metrics_ltb (_entry_rank_metrics x) (_entry_rank_metrics e) = false)
        as Hle.
      { apply (ranks_before_not_better x e).
        apply (strongly_sorted_lookup (A ++ e :: B) n (length A));
          [done|lia|done|done]. }
      unfold metrics_eqb. case_bool_decide as Hc.
      * rewrite filter_cons_True by (rewrite Hc; apply metrics_ltb_irrefl).
        rewrite Hmap, IH; rewrite <- ?Happ; [|done|done].
        by rewrite <- app_assoc.
      * assert (metrics_ltb (_entry_rank_metrics e) (_entry_rank_metrics x) = true)
          as Hlow by (by apply metrics_total).
        rewrite filter_none; [by rewrite app_nil_r|].
        apply strongly_sorted_app_r, StronglySorted_inv in HS as [_ Hall].
        constructor; [by rewrite Hlow|].
        eapply Forall_impl; [exact Hall|]. intros b Hb%ranks_before_not_better.
        unfold better in Hb.
        by rewrite (metrics_le_ltb_trans _ _ _ Hb Hlow).
Qed.

Lemma rank_entries_no_checklog es :
  Forall (fun e => is_checklog e = false) es →
  rank_entries es
  = map (fun e => (1 + count_better es e, e)) (sorted sort_key_compare es).
Proof.
  intros Hchk. unfold rank_entries. rewrite rank_loop_sorted.
  rewrite filter_none, app_nil_r; [done|].
  eapply Forall_impl; [exact Hchk|]. intros e He. by rewrite He.
Qed.

Lemma top_n_fewer_than_n_better es (n : Z) :
  Forall (fun e => is_checklog e = false) es → 0 < n →
  top_n_with_ties es n
  = map (fun e => (1 + count_better es e, e))
        (filter (fun e => (count_better es e <? n) = true)
                (sorted sort_key_compare es)).
Proof.
  intros Hchk Hn. unfold top_n_with_ties.
  rewrite rank_entries_no_checklog by done.
  set (L := sorted sort_key_compare es).
  set (f := fun e => (1 + count_better es e, e)).
  assert (∀ e, count_better es e = count_better L e) as HcL.
  { intros e. symmetry. apply count_better_perm, sorted_perm. }
  rewrite length_map.
  destruct (Z.leb_spec n 0) as [?|_]; [lia|]. cbn [orb].
  destruct (Nat.eqb_spec (length L) 0) as [H0|Hlen0].
  { apply length_zero_iff_nil in H0. by rewrite H0. }
  destruct (Z.leb_spec (Z.of_nat (length L)) n) as [Hle|Hgt].
  { rewrite filter_all; [done|]. apply Forall_forall. intros e He.
    apply Z.ltb_lt. rewrite HcL.
    pose proof (count_better_lt_length L e He). lia. }
  assert (Z.to_nat (n - 1) < length L)%nat as Hk by lia.
  destruct (lookup_lt_is_Some_2 L _ Hk) as [x Hx].
  rewrite list_lookup_fmap, Hx. cbn [fmap option_fmap option_map f].
  replace n with (Z.of_nat (S (Z.to_nat (n - 1)))) at 1 by lia.
  pose proof (top_n_loop_keep (Z.to_nat (n - 1)) x
                (fun e => 1 + count_better es e) L []
                (sorted_strongly es) Hx) as Hloop.
  cbn [map app] in Hloop. fold f in Hloop. rewrite Hloop. f_equal.
  apply filter_agree, Forall_forall. intros e He.
  rewrite Z.ltb_lt, HcL.
  rewrite <- (fewer_than_n_better L (Z.to_nat (n - 1)) x e
                (sorted_strongly es) Hx He).
  lia.
Qed.

(** X9: for a list without checklog entries and a positive [n],
    [top_n_with_ties] returns, in ranking order and with their ranks,
    exactly the entries that have fewer than [n] strictly better entries:
    everyone tied with the [n]-th place is in, nobody below it is. *)
Theorem top_n_with_ties_selection es (n : Z) :
  Forall (fun e => is_checklog e = false) es → 0 < n →
  top_n_with_ties es n
  = map (fun e => (1 + count_better es e, e))
        (filter (fun e => (count_better es e <? n) = true)
                (sorted sort_key_compare es)).
Proof. apply top_n_fewer_than_n_better. Qed.

End TopPlaces.

Lemma top_n_with_ties_selection_sample :
  Forall (fun e => is_checklog e = false) sample_field ∧ 0 < 2
  ∧ map (fun '(r, e) => (r, callsign e)) (top_n_with_ties sample_field 2)
    = [(1, "JA1AAA"); (2, "JA1BBB"); (2, "JA1CCC")].
Proof.
  assert (Forall (fun e => is_checklog e = false) sample_field) as H
    by (repeat constructor).
  split; [exact H|]. split; [lia|].
  rewrite (top_n_with_ties_selection sample_field 2 H ltac:(lia)).
  vm_compute. reflexivity.
Defined.

(** * Ranking of the published page *)

Section PublishedRanks.

Implicit Types (e x y : StationEntry) (es l A B : list StationEntry).

Lemma ranks_before_total x y : ranks_before x y → recalced_total y <= recalced_total x.
Proof.
  unfold ranks_before, better, _entry_rank_metrics.
  intros [H|[H _]].
  - apply metrics_ltb_spec in H. cbn [fst snd] in H. lia.
  - injection H as ->. lia.
Qed.

Lemma count_higher_split (A B : list StationEntry) e :
  StronglySorted ranks_before (A ++ e :: B) →
  count_higher_total (A ++ e :: B) e
  = Z.of_nat (length (filter (fun e' => recalced_total e < recalced_total e') A)).
Proof.
  intros HS. unfold count_higher_total. rewrite filter_app, length_app.
  rewrite (filter_none _ (e :: B)); [cbn; lia|].
  apply strongly_sorted_app_r, StronglySorted_inv in HS as [_ Hall].
  constructor; [lia|].
  eapply Forall_impl; [exact Hall|]. intros b Hb%ranks_before_total. lia.
Qed.

Lemma competition_loop_formula (R P : list StationEntry) (rank : Z)
      (prev_total : option Z) :
  StronglySorted ranks_before (P ++ R) →
  match last P with
  | None => prev_total = None
  | Some l => prev_total = Some (recalced_total l)
              ∧ rank = 1 + count_higher_total (P ++ R) l
  end →
  competition_loop (Z.of_nat (length P)) rank prev_total R
  = map (fun e => (1 + count_higher_total (P ++ R) e, e)) R.
Proof.
  revert P rank prev_total.
  induction R as [|e R IH]; intros P rank pt HS Hlast; [done|].
  cbn [competition_loop map].
  assert (match pt with
          | Some p =>
              if negb (recalced_total e =? p)
              then (Z.of_nat (length P) + 1, Some (recalced_total e))
              else (rank, pt)
          | None => (Z.of_nat (length P) + 1, Some (recalced_total e))
          end = (1 + count_higher_total (P ++ e :: R) e, Some (recalced_total e)))
    as Hrank.
  { destruct (last P) as [l|] eqn:HP.
    - destruct Hlast as [-> ->]. apply last_Some in HP as [P0 ->].
      destruct (Z.eqb_spec (recalced_total e) (recalced_total l)) as [Heq|Hne];
        cbn [negb].
      + rewrite Heq. f_equal. unfold count_higher_total. by rewrite Heq.
      + f_equal. rewrite count_higher_split by done.
        rewrite filter_all; [lia|].
        apply Forall_forall. intros p Hp.
        assert (ranks_before l e) as Hle%ranks_before_total.
        { eapply (strongly_sorted_app _ _ HS); [|left].
          apply elem_of_app. right. by left. }
        apply elem_of_app in Hp as [Hp|Hp%list_elem_of_singleton]; [|subst; lia].
        assert (ranks_before p l) as Hpl%ranks_before_total; [|lia].
        rewrite <- app_assoc in HS.
        eapply (strongly_sorted_app _ _ HS); [done|by left].
    - subst pt. apply last_None in HP as ->.
      rewrite (count_higher_split [] R e) by done. cbn. f_equal. }
  rewrite Hrank. f_equal.
  specialize (IH (P ++ [e]) (1 + count_higher_total (P ++ e :: R) e)
                 (Some (recalced_total e))).
  rewrite length_app, <- app_assoc in IH. cbn [length app] in IH.
  replace (Z.of_nat (length P + 1)) with (Z.of_nat (length P) + 1) in IH by lia.
  apply IH; [done|]. by rewrite last_snoc.
Qed.

Lemma count_higher_le_better es e : count_higher_total es e <= count_better es e.
Proof.
  unfold count_higher_total, count_better. apply inj_le, length_filter_mono.
  intros e' H. unfold better, _entry_rank_metrics.
  apply metrics_ltb_spec. cbn [fst snd]. lia.
Qed.

(** X10: the published page ranks by total alone: every entry gets the
    rank one plus the number of entries with a higher total, which is
    never behind the rank [rank_entries] gives the same entry. *)
Theorem published_rank_by_total_only es :
  overall_ranked es
  = map (fun e => (1 + count_higher_total es e, e)) (sorted sort_key_compare es)
  ∧ ∀ e, count_higher_total es e <= count_better es e.
Proof.
  split; [|intros e; apply count_higher_le_better].
  unfold overall_ranked, _competition_ranks.
  pose proof (competition_loop_formula (sorted sort_key_compare es) [] 0 None
                (sorted_strongly es) eq_refl) as H.
  cbn [length app] in H. change (Z.of_nat 0) with 0 in H. rewrite H.
  apply map_ext. intros e. f_equal. f_equal.
  unfold count_higher_total. by rewrite (sorted_perm es).
Qed.

End PublishedRanks.

(** Two entries with the same total share rank 1 on the published page and
    take ranks 1 and 2 in the result lists. *)
Example published_rank_differs :
  map (fun '(r, e) => (r, callsign e)) (overall_ranked same_total_pair)
  = [(1, "JA1AAA"); (1, "JA1BBB")]
  ∧ map (fun '(r, e) => (r, callsign e)) (rank_entries same_total_pair)
    = [(1, "JA1AAA"); (2, "JA1BBB")].
Proof. by vm_compute. Qed.

(** * Area awards *)

Section AreaAwards.

Implicit Types (e w : StationEntry) (es P entries : list StationEntry)
         (W : list (Z * StationEntry)) (a k : Z).

Lemma dict_get_set_eq k w W : dict_get k (dict_set k w W) = Some w.
Proof.
  induction W as [|[k' w'] W IH]; cbn; [by rewrite Z.eqb_refl|].
  destruct (Z.eqb_spec k' k) as [->|Hne]; cbn.
  - by rewrite Z.eqb_refl.
  - by destruct (Z.eqb_spec k' k).
Qed.

Lemma dict_get_set_ne k k' w W :
  k ≠ k' → dict_get k' (dict_set k w W) = dict_get k' W.
Proof.
  intros Hne. induction W as [|[k0 w0] W IH]; cbn.
  - by destruct (Z.eqb_spec k k').
  - destruct (Z.eqb_spec k0 k) as [->|Hne0]; cbn.
    + destruct (Z.eqb_spec k k'); [done|]. done.
    + by rewrite IH.
Qed.

Lemma dict_set_keys k w W :
  (dict_set k w W).*1 = if decide (k ∈ W.*1) then W.*1 else W.*1 ++ [k].
Proof.
  induction W as [|[k0 w0] W IH]; cbn; [done|].
  destruct (Z.eqb_spec k0 k) as [->|Hne]; cbn.
  - rewrite decide_True; [done|]. by left.
  - rewrite IH. destruct (decide (k ∈ W.*1)) as [Hin|Hnin].
    + rewrite decide_True; [done|]. by right.
    + rewrite decide_False; [done|].
      intros [?|?]%elem_of_cons; congruence.
Qed.

Lemma dict_set_NoDup k w W : NoDup W.*1 → NoDup (dict_set k w W).*1.
Proof.
  intros H. rewrite dict_set_keys. case_decide; [done|].
  apply NoDup_app. split; [done|]. split; [|apply NoDup_singleton].
  intros x Hx ->%list_elem_of_singleton. done.
Qed.

Lemma dict_get_elem_of k w W : NoDup W.*1 → (k, w) ∈ W ↔ dict_get k W = Some w.
Proof.
  induction W as [|[k0 w0] W IH]; cbn; intros Hnd.
  - split; [by intros ?%elem_of_nil|done].
  - apply NoDup_cons in Hnd as [Hk0 Hnd].
    destruct (Z.eqb_spec k0 k) as [->|Hne].
    + split.
      * intros [?|Hin]%elem_of_cons; [by simplify_eq|].
        destruct Hk0. apply list_elem_of_fmap. by exists (k, w).
      * intros ?. simplify_eq. by left.
    + rewrite <- (IH Hnd). split.
      * intros [?|Hin]%elem_of_cons; [by simplify_eq|done].
      * intros ?. by right.
Qed.

(** What the winners' table holds once the entries [P] have been seen. *)
Definition winners_of (W : list (Z * StationEntry)) (P : list StationEntry) : Prop :=
  NoDup W.*1
  ∧ (∀ a w, dict_get a W = Some w →
            w ∈ P ∧ area_of w = Ok (Some a)
            ∧ ∀ e, e ∈ P → area_of e = Ok (Some a) →
                   recalced_total e <= recalced_total w)
  ∧ (∀ e a, e ∈ P → area_of e = Ok (Some a) → is_Some (dict_get a W)).


Lemma winners_of_skip W P e :
  winners_of W P → area_of e = Ok None → winners_of W (P ++ [e]).
Proof.
  intros (Hnd & Hw & Hc) He. split; [done|]. split.
  - intros a w Hget. destruct (Hw a w Hget) as (Hin & Ha & Hmax).
    split; [set_solver|]. split; [done|].
    intros e' [Hin'| ->%list_elem_of_singleton]%elem_of_app Ha'; [by apply Hmax|].
    congruence.
  - intros e' a [Hin'| ->%list_elem_of_singleton]%elem_of_app Ha'; [by eapply Hc|].
    congruence.
Qed.

Lemma winners_of_keep W P e a w :
  winners_of W P → area_of e = Ok (Some a) → dict_get a W = Some w →
  recalced_total e <= recalced_total w → winners_of W (P ++ [e]).
Proof.
  intros (Hnd & Hw & Hc) He Hget Hle. split; [done|]. split.
  - intros a' w' Hget'. destruct (Hw a' w' Hget') as (Hin & Ha & Hmax).
    split; [set_solver|]. split; [done|].
    intros e' [Hin'| ->%list_elem_of_singleton]%elem_of_app Ha'; [by apply Hmax|].
    assert (a' = a) as -> by congruence. by simplify_eq.
  - intros e' a' [Hin'| ->%list_elem_of_singleton]%elem_of_app Ha'; [by eapply Hc|].
    assert (a' = a) as -> by congruence. by eexists.
Qed.

Lemma winners_of_replace W P e a :
  winners_of W P → area_of e = Ok (Some a) →
  (∀ w, dict_get a W = Some w → recalced_total w < recalced_total e) →
  winners_of (dict_set a e W) (P ++ [e]).
Proof.
  intros (Hnd & Hw & Hc) He Hlt. split; [by apply dict_set_NoDup|]. split.
  - intros a' w' Hget'. destruct (decide (a = a')) as [<-|Hne].
    + rewrite dict_get_set_eq in Hget'. simplify_eq.
      split; [set_solver|]. split; [done|].
      intros e' [Hin'| ->%list_elem_of_singleton]%elem_of_app Ha'; [|lia].
      destruct (Hc e' a Hin' Ha') as [w Hget].
      destruct (Hw a w Hget) as (_ & _ & Hmax).
      specialize (Hmax e' Hin' Ha'). specialize (Hlt w Hget). lia.
    + rewrite dict_get_set_ne in Hget' by done.
      destruct (Hw a' w' Hget') as (Hin & Ha & Hmax).
      split; [set_solver|]. split; [done|].
      intros e' [Hin'| ->%list_elem_of_singleton]%elem_of_app Ha'; [by apply Hmax|].
      congruence.
  - intros e' a' Hin' Ha'. destruct (decide (a = a')) as [<-|Hne].
    + rewrite dict_get_set_eq. by eexists.
    + rewrite dict_get_set_ne by done.
      apply elem_of_app in Hin' as [Hin'| ->%list_elem_of_singleton]; [by eapply Hc|].
      congruence.
Qed.

Lemma area_loop_winners es : ∀ W0 P W,
  winners_of W0 P → area_loop W0 es = Ok W → winners_of W (P ++ es).
Proof.
  induction es as [|e es IH]; intros W0 P W Hinv Hloop; cbn in Hloop.
  - simplify_eq. by rewrite app_nil_r.
  - replace (P ++ e :: es) with ((P ++ [e]) ++ es) by by rewrite <- app_assoc.
    fold (area_of e) in Hloop.
    destruct (area_of e) as [[a|]|] eqn:He; cbn in Hloop; [| |done].
    + destruct (dict_get a W0) as [w|] eqn:Hget.
      * destruct (Z.ltb_spec (recalced_total w) (recalced_total e)).
        -- eapply IH; [|done]. apply winners_of_replace; [done..|].
           intros w' ?. by simplify_eq.
        -- eapply IH; [|done]. by eapply winners_of_keep.
      * eapply IH; [|done]. apply winners_of_replace; [done..|].
        intros w' ?. by simplify_eq.
    + eapply IH; [|done]. by apply winners_of_skip.
Qed.

Lemma area_loop_raises es : ∀ W0,
  area_loop W0 es = Raise ValueError ↔
  ∃ e, e ∈ es ∧ area_of e = Raise ValueError.
Proof.
  induction es as [|e es IH]; intros W0; cbn.
  - split; [done|]. by intros (e & ?%elem_of_nil & _).
  - fold (area_of e). destruct (area_of e) as [o|[]] eqn:He; cbn.
    + assert ((∃ e', e' ∈ es ∧ area_of e' = Raise ValueError) ↔
              ∃ e', e' ∈ e :: es ∧ area_of e' = Raise ValueError) as <-.
      { split.
        - intros (e' & ? & ?). exists e'. split; [by right|done].
        - intros (e' & [->|?]%elem_of_cons & ?); [congruence|]. by exists e'. }
      destruct o as [a|]; [|apply IH].
      destruct (dict_get a W0) as [w|]; [|apply IH].
      destruct (recalced_total w <? recalced_total e); apply IH.
    + split; [|done]. intros _. exists e. split; [by left|done].
Qed.

Lemma winners_of_nil : winners_of [] [].
Proof.
  split; [constructor|]. split; [done|]. by intros e a ?%elem_of_nil.
Qed.

Lemma elem_of_out_entries entries e :
  e ∈ filter (fun e => category_is "1X" e = true)
             (filter (fun e => is_checklog e = false) entries)
  ↔ e ∈ entries ∧ in_area_contest e.
Proof.
  rewrite !list_elem_of_filter. unfold in_area_contest, category_is.
  rewrite bool_decide_eq_true. tauto.
Qed.

Lemma award_rows_out entries rows_in rows_out :
  build_award_lists entries = Ok (rows_in, rows_out) →
  ∃ W, rows_out = map (fun '(area, e) => (area, 1, e)) W
       ∧ winners_of W (filter (fun e => category_is "1X" e = true)
                              (filter (fun e => is_checklog e = false) entries)).
Proof.
  unfold build_award_lists. cbv zeta.
  destruct (area_loop [] _) as [W|] eqn:Hloop; cbn; [|done].
  intros ?. simplify_eq. exists W. split; [done|].
  by apply (area_loop_winners _ [] [] W winners_of_nil).
Qed.

End AreaAwards.

(** X11: When [build_award_lists] returns, its area rows name each area at
    most once, every row carries rank 1 and an entry of the area contest
    (not a checklog, category [1X]) whose callsign gives that area and
    whose total is the highest among the area's entries; and every area
    of such an entry has a row. *)
Theorem area_rows_are_area_winners entries rows_in rows_out :
  build_award_lists entries = Ok (rows_in, rows_out) →
  NoDup (map (fun r => r.1.1) rows_out)
  ∧ (∀ a r w, (a, r, w) ∈ rows_out →
       r = 1 ∧ w ∈ entries ∧ in_area_contest w ∧ area_of w = Ok (Some a)
       ∧ ∀ e, e ∈ entries → in_area_contest e → area_of e = Ok (Some a) →
              recalced_total e <= recalced_total w)
  ∧ (∀ e a, e ∈ entries → in_area_contest e → area_of e = Ok (Some a) →
       ∃ w, (a, 1, w) ∈ rows_out).
Proof.
  intros (W & -> & Hnd & Hw & Hc)%award_rows_out. split; [|split].
  - rewrite map_map. erewrite map_ext; [exact Hnd|]. by intros [a w].
  - intros a r w ([a' w'] & ? & Hin)%list_elem_of_fmap. simplify_eq.
    apply dict_get_elem_of in Hin; [|done].
    destruct (Hw _ _ Hin) as ((Hin' & Hc')%elem_of_out_entries & Ha & Hmax).
    split; [done|]. split; [done|]. split; [done|]. split; [done|].
    intros e He Hce Hae. apply Hmax; [|done]. by apply elem_of_out_entries.
  - intros e a He Hce Hae.
    destruct (Hc e a) as [w Hget]; [by apply elem_of_out_entries|done|].
    exists w. apply list_elem_of_fmap. exists (a, w). split; [done|].
    by apply dict_get_elem_of.
Qed.

Lemma area_rows_are_area_winners_sample :
  build_award_lists outside_stations
  = Ok ([(("1F"%string, 1), scored_entry "JA1EEE/2" "1F" 9 18 9 false)],
        [((2, 1), scored_entry "JA1CCC/2" "1X" 6 12 4 false);
         ((3, 1), scored_entry "JA1BBB/3" "1X" 4 8 2 false)])
  ∧ NoDup (map (fun r => r.1.1)
               [((2, 1), scored_entry "JA1CCC/2" "1X" 6 12 4 false);
                ((3, 1), scored_entry "JA1BBB/3" "1X" 4 8 2 false)]).
Proof.
  assert (build_award_lists outside_stations
  = Ok ([(("1F"%string, 1), scored_entry "JA1EEE/2" "1F" 9 18 9 false)],
        [((2, 1), scored_entry "JA1CCC/2" "1X" 6 12 4 false);
         ((3, 1), scored_entry "JA1BBB/3" "1X" 4 8 2 false)])) as H
    by (vm_compute; reflexivity).
  split; [exact H|].
  exact (proj1 (area_rows_are_area_winners _ _ _ H)).
Defined.

(** X12: [build_award_lists] raises exactly when some entry of the area
    contest has a callsign whose area does not parse; entries of other
    categories and checklogs never make it raise. *)
Theorem award_lists_raise_iff entries :
  build_award_lists entries = Raise ValueError
  ↔ ∃ e, e ∈ entries ∧ in_area_contest e ∧ area_of e = Raise ValueError.
Proof.
  unfold build_award_lists. cbv zeta.
  destruct (area_loop [] _) as [W|[]] eqn:Hloop; cbn.
  - split; [done|]. intros (e & He & Hc & Ha).
    assert (area_loop [] (filter (fun e => category_is "1X" e = true)
              (filter (fun e => is_checklog e = false) entries))
            = Raise ValueError) as Hr; [|congruence].
    apply area_loop_raises. exists e. split; [|done].
    by apply elem_of_out_entries.
  - split; [|done]. intros _.
    apply area_loop_raises in Hloop as (e & (? & ?)%elem_of_out_entries & ?).
    by exists e.
Qed.

(** * Category awards *)

Section CategoryAwards.

Implicit Types (e : StationEntry) (entries : list StationEntry) (cat : string).

Lemma elem_of_category_class entries cat e :
  e ∈ category_class entries cat
  ↔ e ∈ entries ∧ is_checklog e = false ∧ Text.strip (category e) = cat
    ∧ cat ∈ in_area_cats.
Proof.
  unfold category_class, category_is. rewrite !list_elem_of_filter.
  rewrite bool_decide_eq_true. split.
  - intros (<- & ? & ? & ?). done.
  - intros (? & ? & <- & ?). done.
Qed.

Lemma category_class_no_checklog entries cat :
  Forall (fun e => is_checklog e = false) (category_class entries cat).
Proof.
  apply Forall_forall. by intros e (_ & ? & _)%elem_of_category_class.
Qed.

Lemma award_rows_in entries rows_in rows_out :
  build_award_lists entries = Ok (rows_in, rows_out) →
  ∀ cat r e,
    (cat, r, e) ∈ rows_in
    ↔ e ∈ category_class entries cat
      ∧ r = 1 + count_better (category_class entries cat) e ∧ r <= 3.
Proof.
  unfold build_award_lists. cbv zeta.
  destruct (area_loop [] _) as [W|]; cbn; [|done].
  intros ? cat r e. simplify_eq.
  rewrite list_elem_of_In, in_flat_map. split.
  - intros (cat' & Hcat & Hin). apply list_elem_of_In in Hin.
    apply list_elem_of_fmap in Hin as ([r' e'] & ? & Hin). simplify_eq.
    lazymatch goal with
    | |- _ ∈ category_class _ ?c ∧ _ => fold (category_class entries c) in Hin
    end.
    rewrite top_n_fewer_than_n_better in Hin
      by (apply category_class_no_checklog || lia).
    apply list_elem_of_fmap in Hin as (e2 & ? & Hin). simplify_eq.
    apply list_elem_of_filter in Hin as [Hlt Hin].
    rewrite sorted_perm in Hin. apply Z.ltb_lt in Hlt.
    split; [done|]. split; [done|]. lia.
  - intros (Hin & -> & Hle).
    exists cat. split.
    + apply list_elem_of_In. rewrite sorted_perm.
      apply elem_of_remove_dups, list_elem_of_fmap.
      apply elem_of_category_class in Hin as (? & ? & ? & ?).
      exists e. split; [done|]. rewrite !list_elem_of_filter.
      split; [|done]. by subst.
    + apply list_elem_of_In, list_elem_of_fmap.
      exists (1 + count_better (category_class entries cat) e, e).
      split; [done|].
      fold (category_class entries cat).
      rewrite top_n_fewer_than_n_better
        by (apply category_class_no_checklog || lia).
      apply list_elem_of_fmap. exists e. split; [done|].
      apply list_elem_of_filter. split; [apply Z.ltb_lt; lia|].
      by rewrite sorted_perm.
Qed.

End CategoryAwards.

(** X13: When [build_award_lists] returns, its category rows are exactly
    the triples (category, rank, entry) where the entry is a non-checklog
    entry of one of the categories 1F, 1P, 1Q, SWL, the rank is one more
    than the number of strictly better entries of the same category, and
    the rank is at most 3. *)
Theorem category_rows_are_top_three entries rows_in rows_out :
  build_award_lists entries = Ok (rows_in, rows_out) →
  ∀ cat r e,
    (cat, r, e) ∈ rows_in
    ↔ (e ∈ entries ∧ is_checklog e = false ∧ Text.strip (category e) = cat
       ∧ cat ∈ in_area_cats)
      ∧ r = 1 + count_better (category_class entries cat) e ∧ r <= 3.
Proof.
  intros H cat r e. rewrite <- elem_of_category_class.
  by apply (award_rows_in entries rows_in rows_out).
Qed.

Lemma category_rows_are_top_three_sample :
  ∃ rows_in rows_out,
    build_award_lists outside_stations = Ok (rows_in, rows_out)
    ∧ (("1F"%string, 1, scored_entry "JA1EEE/2" "1F" 9 18 9 false) ∈ rows_in
       ↔ (scored_entry "JA1EEE/2" "1F" 9 18 9 false ∈ outside_stations
          ∧ is_checklog (scored_entry "JA1EEE/2" "1F" 9 18 9 false) = false
          ∧ Text.strip (category (scored_entry "JA1EEE/2" "1F" 9 18 9 false))
            = "1F"%string
          ∧ "1F"%string ∈ in_area_cats)
         ∧ 1 = 1 + count_better (category_class outside_stations "1F")
                                (scored_entry "JA1EEE/2" "1F" 9 18 9 false)
         ∧ 1 <= 3).
Proof.
  eexists _, _.
  assert (build_award_lists outside_stations
  = Ok ([(("1F"%string, 1), scored_entry "JA1EEE/2" "1F" 9 18 9 false)],
        [((2, 1), scored_entry "JA1CCC/2" "1X" 6 12 4 false);
         ((3, 1), scored_entry "JA1BBB/3" "1X" 4 8 2 false)])) as H
    by (vm_compute; reflexivity).
  split; [exact H|].
  exact (category_rows_are_top_three _ _ _ H "1F"%string 1
           (scored_entry "JA1EEE/2" "1F" 9 18 9 false)).
Defined.

(** * Area of a callsign *)

Section AreaOfCallsign.

Lemma split_on_nonempty (sep : ascii) (s : string) :
  ∃ f fs, Text.split_on sep s = f :: fs.
Proof.
  induction s as [|c s (f & fs & IH)]; cbn; [by eexists _, _|].
  destruct (Ascii.eqb c sep); [by eexists _, _|].
  rewrite IH. by eexists _, _.
Qed.

Lemma first_sep (sep : ascii) (s : string) :
  any_char (is_char sep) s = true →
  ∃ base r, s = base +:+ String sep r ∧ any_char (is_char sep) base = false.
Proof.
  induction s as [|c s IH]; [done|]. cbn. unfold is_char at 1.
  destruct (Ascii.eqb_spec c sep) as [->|Hne]; cbn.
  - intros _. by exists ""%string, s.
  - intros (base & r & -> & Hb)%IH. exists (String c base), r.
    split; [done|]. cbn. unfold is_char at 1.
    destruct (Ascii.eqb_spec c sep); done.
Qed.

Lemma digits_no_sep (sep : ascii) (s : string) :
  Text.is_digit sep = false → Text.all_chars Text.is_digit s = true →
  any_char (is_char sep) s = false.
Proof.
  intros Hsep. induction s as [|c s IH]; [done|]. cbn.
  intros [Hc Hs]%andb_true_iff. rewrite IH by done. unfold is_char.
  destruct (Ascii.eqb_spec c sep) as [->|]; [congruence|done].
Qed.

Lemma extract_area_second_field (base r : string) :
  any_char (is_char "/"%char) base = false →
  ∃ f fs, Text.split_on "/"%char r = f :: fs
          ∧ extract_call_area_digit_base (base +:+ String "/"%char r)
            = bind (int_of_str f) (fun n => Ok (Some n)).
Proof.
  intros Hb. destruct (split_on_nonempty "/"%char r) as (f & fs & Hr).
  exists f, fs. split; [done|].
  unfold extract_call_area_digit_base. by rewrite split_on_app, Hr.
Qed.

End AreaOfCallsign.

(** X14: The area of a callsign is absent exactly when the callsign has
    no slash: with a slash the result is a number or an exception. *)
Theorem area_absent_iff_no_slash (callsign : string) :
  extract_call_area_digit_base callsign = Ok None
  ↔ any_char (is_char "/"%char) callsign = false.
Proof.
  split; [|apply extract_area_no_slash].
  destruct (any_char (is_char "/"%char) callsign) eqn:Hs; [|done].
  apply first_sep in Hs as (base & r & -> & Hb).
  destruct (extract_area_second_field base r Hb) as (f & fs & _ & ->).
  by destruct (int_of_str f).
Qed.

(** X15: A callsign whose first slash is followed by a run of digits has
    the number written there as its area, whether the callsign ends after
    the digits or goes on with another slash. *)
Theorem area_is_number_after_first_slash (base area tail : string) :
  any_char (is_char "/"%char) base = false →
  all_digits area = true →
  extract_call_area_digit_base (base +:+ "/" +:+ area)
  = Ok (Some (PyInt.digits_val 0 area))
  ∧ extract_call_area_digit_base (base +:+ "/" +:+ area +:+ "/" +:+ tail)
    = Ok (Some (PyInt.digits_val 0 area)).
Proof.
  intros Hb Ha. split; [by apply extract_area_digits|].
  unfold extract_call_area_digit_base.
  change (base +:+ "/" +:+ area +:+ "/" +:+ tail)
    with (base +:+ String "/"%char (area +:+ String "/"%char tail)).
  rewrite split_on_app by done. rewrite split_on_app.
  - cbn. unfold int_of_str. by rewrite parse_digits.
  - apply all_digits_spec in Ha as [_ Ha]. by apply digits_no_sep.
Qed.

Lemma area_is_number_after_first_slash_sample :
  extract_call_area_digit_base "JA1ABC/2" = Ok (Some 2)
  ∧ extract_call_area_digit_base "JA1ABC/2/P" = Ok (Some 2).
Proof.
  exact (area_is_number_after_first_slash "JA1ABC" "2" "P"
           ltac:(reflexivity) ltac:(reflexivity)).
Defined.

(** * Normal forms of the token normalizers *)

Section NormalForms.

Implicit Types (s t tok : string) (c : ascii).

Lemma lstrip_head s :
  Text.lstrip s = "" ∨ ∃ c r, Text.lstrip s = String c r ∧ Text.is_space c = false.
Proof.
  induction s as [|c s IH]; [by left|]. cbn.
  destruct (Text.is_space c) eqn:Hc; [done|]. right. by exists c, s.
Qed.

Lemma rstrip_head c s :
  Text.is_space c = false → ∃ r, Text.rstrip (String c s) = String c r.
Proof.
  intros Hc. cbn. rewrite Hc. destruct (Text.rstrip s); by eexists.
Qed.

Lemma rstrip_idem s : Text.rstrip (Text.rstrip s) = Text.rstrip s.
Proof.
  induction s as [|c s IH]; [done|]. cbn.
  destruct (Text.rstrip s) as [|c' r'] eqn:Hr.
  - destruct (Text.is_space c) eqn:Hc; [done|]. cbn. by rewrite Hc.
  - cbn [Text.rstrip]. cbn [Text.rstrip] in IH. by rewrite IH.
Qed.

Lemma strip_idem s : Text.strip (Text.strip s) = Text.strip s.
Proof.
  unfold Text.strip. destruct (lstrip_head s) as [->|(c & r & -> & Hc)]; [done|].
  destruct (rstrip_head c r Hc) as [r' Hr]. rewrite Hr.
  assert (Text.lstrip (String c r') = String c r') as -> by (cbn; by rewrite Hc).
  rewrite <- Hr. apply rstrip_idem.
Qed.

Lemma upper_char_space c : Text.is_space (Text.upper_char c) = Text.is_space c.
Proof. by destruct c as [[] [] [] [] [] [] [] []]. Qed.

Lemma upper_char_idem c : Text.upper_char (Text.upper_char c) = Text.upper_char c.
Proof. by destruct c as [[] [] [] [] [] [] [] []]. Qed.

Lemma upper_idem s : Text.upper (Text.upper s) = Text.upper s.
Proof.
  induction s as [|c s IH]; [done|].
  unfold Text.upper in *. cbn. by rewrite upper_char_idem, IH.
Qed.

Lemma upper_strip_idem s :
  Text.upper (Text.strip (Text.upper (Text.strip s))) = Text.upper (Text.strip s).
Proof.
  unfold Text.upper. rewrite strip_map by apply upper_char_space.
  rewrite strip_idem. apply upper_idem.
Qed.

Lemma digit_val_bounds c :
  Text.is_digit c = true → 0 <= PyInt.digit_val c <= 9.
Proof.
  unfold Text.is_digit, PyInt.digit_val.
  intros [H1 H2]%andb_true_iff. apply N.leb_le in H1, H2. lia.
Qed.

Lemma digits_val_nonneg s : ∀ acc,
  Text.all_chars Text.is_digit s = true → 0 <= acc → 0 <= PyInt.digits_val acc s.
Proof.
  induction s as [|c s IH]; intros acc Hs Hacc; [done|].
  cbn in Hs. apply andb_true_iff in Hs as [Hc Hs]. cbn.
  apply IH; [done|]. pose proof (digit_val_bounds c Hc). lia.
Qed.

Lemma all_chars_filter (p : ascii → bool) s :
  Text.all_chars p (Text.filter_chars p s) = true.
Proof.
  induction s as [|c s IH]; [done|]. cbn.
  destruct (p c) eqn:Hc; [|done]. cbn. by rewrite Hc.
Qed.

(** [_canon_exchange] on a non-empty run of digits. *)
Lemma canon_exchange_digits s :
  all_digits s = true → _canon_exchange s = PyInt.str (PyInt.digits_val 0 s).
Proof.
  intros Hs. pose proof Hs as [Hne Hall]%all_digits_spec.
  unfold _canon_exchange. rewrite strip_digits by done.
  rewrite decide_False.
  2:{ intros [->| ->]; [done|]. vm_compute in Hall. done. }
  rewrite filter_digits by done.
  rewrite decide_False by (intros ->; done).
  by rewrite parse_digits.
Qed.

Lemma canon_exchange_cases s :
  _canon_exchange s = ""
  ∨ ∃ d, all_digits d = true ∧ _canon_exchange s = PyInt.str (PyInt.digits_val 0 d).
Proof.
  unfold _canon_exchange. case_decide; [by left|].
  case_decide; [by left|]. right.
  exists (Text.filter_chars Text.is_digit (Text.strip s)).
  assert (all_digits (Text.filter_chars Text.is_digit (Text.strip s)) = true) as Hd.
  { apply all_digits_spec. split; [by apply truthy_spec|apply all_chars_filter]. }
  split; [done|]. by rewrite parse_digits.
Qed.

Lemma canon_exchange_normal s :
  let c := _canon_exchange s in
  (c = "" ∨ (all_digits c = true ∧ c = PyInt.str (PyInt.digits_val 0 c)))
  ∧ _canon_exchange c = c.
Proof.
  cbv zeta. destruct (canon_exchange_cases s) as [->|(d & Hd & ->)].
  - split; [by left|done].
  - apply all_digits_spec in Hd as [_ Hd].
    pose proof (digits_val_nonneg d 0 Hd ltac:(lia)) as Hn.
    destruct (str_nonneg _ Hn) as [Hc Hv].
    split.
    + right. split; [done|]. by rewrite Hv.
    + rewrite canon_exchange_digits by done. by rewrite Hv.
Qed.

Lemma four_digits_shape s :
  is_four_digits s = true →
  is_hh_colon_mm (Text.take 2 s +:+ ":" +:+ Text.drop 2 s) = true.
Proof.
  unfold is_four_digits, is_hh_colon_mm.
  destruct s as [|a [|b [|c [|d [|e s]]]]]; cbn [fullmatch_classes];
    rewrite ?andb_false_r; try done.
Qed.

Lemma hh_colon_mm_not_four s : is_hh_colon_mm s = true → is_four_digits s = false.
Proof.
  unfold is_four_digits, is_hh_colon_mm.
  destruct s as [|a [|b [|c [|d [|e s]]]]]; cbn [fullmatch_classes];
    rewrite ?andb_false_r; done.
Qed.

Lemma parse_time_cases tok :
  (_looks_time tok = true ∧ is_hh_colon_mm (_parse_time tok) = true)
  ∨ (_looks_time tok = false ∧ _parse_time tok = Text.strip tok
     ∧ is_hh_colon_mm (Text.strip tok) = false
     ∧ is_four_digits (Text.strip tok) = false).
Proof.
  unfold _looks_time, _parse_time. destruct tok as [|a tok]; [by right|].
  cbn [truthy negb]. set (s := Text.strip (String a tok)).
  destruct (is_hh_colon_mm s) eqn:H1; [by left|].
  destruct (is_four_digits s) eqn:H2; [|by right].
  left. split; [done|]. by apply four_digits_shape.
Qed.

Lemma parse_time_fixed s :
  is_hh_colon_mm s = true → _parse_time s = s.
Proof.
  intros H. unfold _parse_time.
  assert (truthy s = true) as -> by by destruct s.
  cbn [negb]. rewrite strip_token by by apply hh_colon_mm_token.
  by rewrite H.
Qed.

End NormalForms.

(** X16: The canonical exchange is empty or a run of digits in the
    decimal notation of its own value (no sign, no leading zeros), and
    canonicalizing it again gives it back. *)
Theorem canon_exchange_normal_form (exch : string) :
  let c := _canon_exchange exch in
  (c = "" ∨ (all_digits c = true ∧ c = PyInt.str (PyInt.digits_val 0 c)))
  ∧ _canon_exchange c = c.
Proof. apply canon_exchange_normal. Qed.

(** X17: [_parse_time] gives the form HH:MM exactly for the tokens that
    [_looks_time] accepts, and applying it twice is the same as applying
    it once. *)
Theorem parse_time_normal_form (tok : string) :
  is_hh_colon_mm (_parse_time tok) = _looks_time tok
  ∧ _parse_time (_parse_time tok) = _parse_time tok.
Proof.
  destruct (parse_time_cases tok) as [[-> H]|(-> & -> & H1 & H2)].
  - split; [done|]. by apply parse_time_fixed.
  - split; [done|]. unfold _parse_time.
    destruct (truthy (Text.strip tok)) eqn:Ht; cbn [negb].
    + by rewrite strip_idem, H1, H2.
    + by destruct (Text.strip tok).
Qed.

(** X18: Cleaning a callsign is idempotent, and [_looks_callsign] gives
    the same answer for a token and for its cleaned form. *)
Theorem clean_callsign_normal_form (call : string) :
  _clean_callsign (_clean_callsign call) = _clean_callsign call
  ∧ _looks_callsign (_clean_callsign call) = _looks_callsign call.
Proof.
  unfold _clean_callsign, _looks_callsign. destruct call as [|a call]; [done|].
  cbn [truthy negb]. set (s := String a call).
  rewrite !upper_strip_idem.
  destruct (truthy (Text.upper (Text.strip s))) eqn:Ht; [done|].
  destruct (Text.upper (Text.strip s)); done.
Qed.

(** * Records built by the line parsers *)

Section ParsedRecords.

Implicit Types (s t ln : string) (q : QsoRecord) (lines : list string).

Lemma snoc_token cur c :
  (cur = "" ∨ is_token cur = true) → Text.is_space c = false →
  is_token (cur +:+ String c "") = true.
Proof.
  intros Hcur Hc. apply is_token_spec. split.
  - by apply truthy_app_r.
  - rewrite all_chars_app. cbn. rewrite Hc. cbn.
    destruct Hcur as [->|[_ H]%is_token_spec]; [done|]. by rewrite H.
Qed.

Lemma split_go_tokens s : ∀ cur,
  (cur = "" ∨ is_token cur = true) →
  Forall (fun t => is_token t = true) (Text.split_go cur s).
Proof.
  induction s as [|c s IH]; intros cur Hcur; cbn.
  - destruct cur; [constructor|]. destruct Hcur as [?|?]; [done|].
    by repeat constructor.
  - destruct (Text.is_space c) eqn:Hc.
    + destruct cur as [|a cur]; [apply IH; by left|].
      destruct Hcur as [?|?]; [done|].
      constructor; [done|]. apply IH. by left.
    + apply IH. right. by apply snoc_token.
Qed.

Lemma split_tokens s : Forall (fun t => is_token t = true) (Text.split s).
Proof. apply split_go_tokens. by left. Qed.

Lemma split_item_token s (i : nat) :
  (i < length (Text.split s))%nat →
  is_token (item_or_empty (Text.split s) i) = true.
Proof.
  intros Hi. unfold item_or_empty.
  destruct (lookup_lt_is_Some_2 _ _ Hi) as [t Ht]. rewrite Ht. cbn.
  by eapply (Forall_lookup_1 _ _ _ _ (split_tokens s)).
Qed.

Lemma fullmatch_subst (f : ascii → ascii) (cls cls' : list (ascii → bool)) s :
  Forall2 (fun p p' => ∀ c, p c = true → p' (f c) = true) cls cls' →
  fullmatch_classes cls s = true →
  fullmatch_classes cls' (Text.map_chars f s) = true.
Proof.
  intros H. revert s. induction H as [|p p' cls cls' Hp _ IH]; intros s.
  - by destruct s.
  - destruct s as [|c s]; [done|]. cbn.
    intros [Hc Hs]%andb_true_iff. by rewrite (Hp c Hc), IH.
Qed.

Lemma digit_subst c :
  Text.is_digit c = true →
  Text.is_digit (subst_char "/" "-" c) = true.
Proof.
  intros Hc. unfold subst_char.
  destruct (Ascii.eqb_spec "/"%char c) as [<-|]; [by vm_compute in Hc|done].
Qed.

Lemma date_sep_subst c :
  is_date_sep c = true → is_char "-"%char (subst_char "/" "-" c) = true.
Proof.
  unfold is_date_sep, is_char, subst_char.
  intros [->%Ascii.eqb_eq| ->%Ascii.eqb_eq]%orb_true_iff; done.
Qed.

(** The date of a record: the token with its slashes turned to dashes. *)
Lemma parsed_date_dashed tok :
  is_token tok = true → _looks_date tok = true →
  is_dashed_date (Text.replace "/" "-" tok) = true.
Proof.
  intros Htok Hd. unfold _looks_date in Hd. rewrite strip_token in Hd by done.
  rewrite replace_char. unfold is_dashed_date.
  eapply fullmatch_subst; [|exact Hd].
  repeat constructor; (apply digit_subst || apply date_sep_subst).
Qed.

Lemma parsed_time_form tok :
  _looks_time tok = true → is_hh_colon_mm (_parse_time tok) = true.
Proof.
  intros H. destruct (parse_time_cases tok) as [[_ ?]|[? _]]; [done|congruence].
Qed.

Lemma parsed_call_clean tok :
  _clean_callsign (_clean_callsign tok) = _clean_callsign tok.
Proof.
  unfold _clean_callsign. destruct tok as [|a tok]; [done|].
  cbn [truthy negb]. set (s := String a tok).
  rewrite upper_strip_idem.
  by destruct (Text.upper (Text.strip s)).
Qed.

Lemma parsed_exchange_canon tok :
  _canon_exchange (_canon_exchange tok) = _canon_exchange tok.
Proof. apply canon_exchange_normal. Qed.

Lemma final_pts_nonneg (pt : Z) (b : bool) :
  0 <= (if pt <=? 0 then if b then 0 else 2 else pt).
Proof. destruct (Z.leb_spec pt 0), b; lia. Qed.

Lemma final_pts_zero (pt : Z) (b : bool) :
  (if pt <=? 0 then if b then 0 else 2 else pt) = 0 → b = true.
Proof. destruct (Z.leb_spec pt 0), b; (done || lia). Qed.

Lemma omap_raw_sublist (f : string → option QsoRecord) lines :
  (∀ l q, f l = Some q → raw q = l) →
  map raw (omap f lines) `sublist_of` lines.
Proof.
  intros Hf. induction lines as [|l lines IH]; [done|]. cbn.
  destruct (f l) as [q|] eqn:Hq; cbn.
  - rewrite (Hf l q Hq). by apply sublist_skip.
  - by apply sublist_cons.
Qed.

Lemma omap_Forall (f : string → option QsoRecord) (P : QsoRecord → Prop) lines :
  (∀ l q, f l = Some q → P q) → Forall P (omap f lines).
Proof.
  intros Hf. apply Forall_forall. intros q (l & _ & Hq)%list_elem_of_omap.
  by eapply Hf.
Qed.

Lemma ctestwin_line_record ln q :
  parse_ctestwin_line ln = Some q →
  raw q = ln ∧ well_formed_record q
  ∧ (pts q = 0 →
     ends_with_blank_zero (Text.strip ln)
     || Text.contains "dupe" (Text.lower (Text.strip ln))
     || Text.contains "dup" (Text.lower (Text.strip ln)) = true).
Proof.
  unfold parse_ctestwin_line. cbv zeta. set (s := Text.strip ln).
  destruct (negb (truthy s)); [done|].
  destruct (Text.startswith "DATE" s || Text.startswith "---" s
            || Text.startswith "Date" s); [done|].
  pose proof (split_tokens s) as Htok.
  destruct (length (Text.split s) <? 6)%nat; [done|].
  destruct (Text.split s) as [|p0 [|p1 [|p2 [|p3 [|p4 rest]]]]]; try done.
  apply Forall_cons in Htok as [H0 Htok]. apply Forall_cons in Htok as [H1 _].
  destruct (negb (_looks_date p0) || negb (_looks_time p1)) eqn:Hdt; [done|].
  apply orb_false_iff in Hdt as [Hd Ht].
  apply negb_false_iff in Hd, Ht.
  destruct (_take_pts_from_tail rest s) as [pt rest2].
  destruct (pick_exchanges rest2) as [st rt].
  intros ?. simplify_eq. cbn.
  split; [done|]. split.
  - split; [done|]. split; [by apply parsed_date_dashed|].
    split; [by apply parsed_time_form|]. split; [apply parsed_call_clean|].
    split; [apply parsed_exchange_canon|]. split; [apply parsed_exchange_canon|].
    apply final_pts_nonneg.
  - apply final_pts_zero.
Qed.

Lemma hltst_line_record ln q :
  parse_hltst_line ln = Some q →
  raw q = ln ∧ well_formed_record q
  ∧ (pts q = 0 → ends_with_blank_zero (Text.strip ln) = true).
Proof.
  unfold parse_hltst_line. cbv zeta. set (s := Text.strip ln).
  destruct (negb (truthy s)); [done|].
  destruct (Text.startswith "DATE" s || Text.startswith "---" s); [done|].
  destruct (Nat.ltb_spec (length (Text.split s)) 10) as [|Hlen]; [done|].
  destruct (negb (_looks_date (item_or_empty (Text.split s) 0))
            || negb (_looks_time (item_or_empty (Text.split s) 1))) eqn:Hdt;
    [done|].
  apply orb_false_iff in Hdt as [Hd Ht].
  apply negb_false_iff in Hd, Ht.
  assert ((5 + 1 <? length (Text.split s))%nat = true) as ->
    by (apply Nat.ltb_lt; lia).
  assert ((5 + 3 <? length (Text.split s))%nat = true) as ->
    by (apply Nat.ltb_lt; lia).
  set (pt := if (5 + 5 <? length (Text.split s))%nat then _ else _).
  clearbody pt. intros ?. simplify_eq. cbn.
  split; [done|]. split.
  - split; [done|].
    split; [apply parsed_date_dashed; [apply split_item_token; lia|done]|].
    split; [by apply parsed_time_form|]. split; [apply parsed_call_clean|].
    split; [apply parsed_exchange_canon|]. split; [apply parsed_exchange_canon|].
    apply final_pts_nonneg.
  - apply final_pts_zero.
Qed.

Lemma zlog_line_record ln q :
  parse_zlog_line ln = Some q →
  raw q = ln ∧ well_formed_record q
  ∧ (pts q = 0 → ends_with_blank_zero (Text.strip ln) = true).
Proof.
  unfold parse_zlog_line. cbv zeta. set (s := Text.strip ln).
  destruct (negb (truthy s)); [done|].
  destruct (Text.startswith "date" (Text.lower s) || Text.startswith "---" s);
    [done|].
  destruct (Nat.ltb_spec (length (Text.split s)) 12) as [|Hlen]; [done|].
  destruct (negb (_looks_date (item_or_empty (Text.split s) 0))
            || negb (_looks_time (item_or_empty (Text.split s) 1))) eqn:Hdt;
    [done|].
  apply orb_false_iff in Hdt as [Hd Ht].
  apply negb_false_iff in Hd, Ht.
  intros ?. simplify_eq. cbn.
  split; [done|]. split.
  - split; [done|].
    split; [apply parsed_date_dashed; [apply split_item_token; lia|done]|].
    split; [by apply parsed_time_form|]. split; [apply parsed_call_clean|].
    split; [apply parsed_exchange_canon|]. split; [apply parsed_exchange_canon|].
    apply final_pts_nonneg.
  - apply final_pts_zero.
Qed.

End ParsedRecords.

(** X19: The CTESTWIN parser keeps the order of the lines it accepts and
    drops the others; every record it builds carries its own line, is not
    marked duplicate, has a date [dddd-dd-dd], a time HH:MM, a cleaned
    callsign, canonical exchanges and points that are not negative; the
    points are 0 only for a line that ends in a separate 0 or mentions
    dup. *)
Theorem ctestwin_records_well_formed (lines : list string) :
  map raw (parse_logsheet_ctestwin lines) `sublist_of` lines
  ∧ Forall (fun q =>
      well_formed_record q
      ∧ (pts q = 0 →
         ends_with_blank_zero (Text.strip (raw q))
         || Text.contains "dupe" (Text.lower (Text.strip (raw q)))
         || Text.contains "dup" (Text.lower (Text.strip (raw q))) = true))
      (parse_logsheet_ctestwin lines).
Proof.
  split.
  - apply omap_raw_sublist. by intros l q (? & _)%ctestwin_line_record.
  - apply omap_Forall. intros l q (<- & ? & ?)%ctestwin_line_record. done.
Qed.

(** X20: The HLTST parser keeps the order of the lines it accepts; every
    record it builds is well formed, and its points are 0 only for a line
    that ends in a separate 0. *)
Theorem hltst_records_well_formed (lines : list string) :
  map raw (parse_logsheet_hltst lines) `sublist_of` lines
  ∧ Forall (fun q =>
      well_formed_record q
      ∧ (pts q = 0 → ends_with_blank_zero (Text.strip (raw q)) = true))
      (parse_logsheet_hltst lines).
Proof.
  split.
  - apply omap_raw_sublist. by intros l q (? & _)%hltst_line_record.
  - apply omap_Forall. intros l q (<- & ? & ?)%hltst_line_record. done.
Qed.

(** X21: The zLog parser keeps the order of the lines it accepts; every
    record it builds is well formed, and its points are 0 only for a line
    that ends in a separate 0. *)
Theorem zlog_records_well_formed (lines : list string) :
  map raw (parse_logsheet_zlog lines) `sublist_of` lines
  ∧ Forall (fun q =>
      well_formed_record q
      ∧ (pts q = 0 → ends_with_blank_zero (Text.strip (raw q)) = true))
      (parse_logsheet_zlog lines).
Proof.
  split.
  - apply omap_raw_sublist. by intros l q (? & _)%zlog_line_record.
  - apply omap_Forall. intros l q (<- & ? & ?)%zlog_line_record. done.
Qed.

(** The three parsers on a header, a junk line and two contacts. *)
Example parsers_on_samples :
  map qso_tuple (parse_logsheet_ctestwin sample_ctestwin_lines)
  = [("JA1ABC", "50", "AM", "10", "12", 2); ("JA1XYZ", "50", "AM", "10", "13", 0)]
  ∧ map qso_tuple (parse_logsheet_hltst sample_hltst_lines)
    = [("JA1ABC", "50", "AM", "10", "12", 2); ("JA1XYZ", "50", "AM", "10", "13", 0)]
  ∧ map qso_tuple (parse_logsheet_zlog sample_zlog_lines)
    = [("JA1ABC", "50", "AM", "10", "12", 2); ("JA1XYZ", "50", "AM", "10", "13", 0)].
Proof. by vm_compute. Qed.

(** * Entries built from a submission *)

Section BuiltEntries.

Variable normalize_opplace_any : string → string → string.
Variable split_submission_blocks :
  string → option string * option string * option string.
Variable parse_logsheet_block : string → string → list QsoRecord.

Local Abbreviation build :=
  (build_station_entry_from_text normalize_opplace_any split_submission_blocks
                                 parse_logsheet_block).

Lemma set_is_checklog_false e :
  is_checklog e = false → set_is_checklog false e = e.
Proof. destruct e. cbn. by intros ->. Qed.

Lemma build_ok text fc fo sn e :
  build text fc fo sn = Ok e →
  callsign e ≠ "" ∧ is_checklog e = false ∧ manual_enabled e = false
  ∧ source_name e = sn ∧ raw_submission_text e = text
  ∧ recalc_entry normalize_opplace_any e = e.
Proof.
  unfold build_station_entry_from_text.
  destruct (split_submission_blocks text) as [[sb lb] lt]. cbv zeta.
  set (e0 := match nonempty_block sb with Some _ => _ | None => _ end).
  assert (is_checklog e0 = false ∧ manual_enabled e0 = false
          ∧ source_name e0 = sn ∧ raw_submission_text e0 = text)
    as (Hc & Hm & Hs & Hr).
  { unfold e0. by destruct (nonempty_block sb). }
  clearbody e0. destruct (truthy (callsign e0)) eqn:Hcall; cbn [negb]; [|done].
  set (e1 := set_qsos _ (set_logsheet_type _ e0)).
  assert (callsign e1 = callsign e0 ∧ is_checklog e1 = false
          ∧ manual_enabled e1 = false ∧ source_name e1 = sn
          ∧ raw_submission_text e1 = text) as (Hc1 & Hk1 & Hm1 & Hs1 & Hr1)
    by done.
  clearbody e1.
  destruct (recalc_entry_frame normalize_opplace_any e1)
    as (Hf1 & _ & Hf2 & Hf3 & Hf4 & Hf5).
  cbv zeta in Hf1, Hf2, Hf3, Hf4, Hf5.
  assert (callsign (recalc_entry normalize_opplace_any e1) ≠ "") as Hne.
  { rewrite Hf1, Hc1. by apply truthy_spec. }
  rewrite bool_decide_eq_false_2.
  2:{ unfold CHECKLOG_CALLSIGNS. by intros ?%list_elem_of_singleton. }
  rewrite set_is_checklog_false by by rewrite Hf2.
  intros [= <-]. rewrite Hf2, Hf3, Hf4, Hf5.
  repeat (split; [done|]). apply recalc_entry_twice.
Qed.

Lemma build_raise text fc fo sn :
  build text fc fo sn = Raise ValueError →
  _clean_callsign fc = ""
  ∧ ∀ sb, nonempty_block (split_submission_blocks text).1.1 = Some sb →
          sm_callsign (parse_summarysheet sb) = "".
Proof.
  unfold build_station_entry_from_text.
  destruct (split_submission_blocks text) as [[sb lb] lt]. cbn [fst].
  destruct (nonempty_block sb) as [b|].
  - cbn [callsign set_claimed new_entry]. unfold or_else.
    destruct (sm_callsign (parse_summarysheet b)) as [|c s] eqn:Hsm; [|done].
    cbn [truthy]. destruct fc as [|c fc]; [|done].
    intros _. split; [done|]. intros sb' ?. by simplify_eq.
  - cbn [callsign new_entry].
    destruct (_clean_callsign fc); [|done]. by intros _.
Qed.

End BuiltEntries.

(** X22: An entry that [build_station_entry_from_text] returns has a
    callsign, is never a checklog (the only checklog callsign is the empty
    one), has no manual override, keeps the source name and the submitted
    text, and is already recomputed: recomputing it changes nothing. *)
Theorem built_entry_is_settled
        (normalize_opplace_any : string → string → string)
        (split_submission_blocks :
           string → option string * option string * option string)
        (parse_logsheet_block : string → string → list QsoRecord)
        (text fallback_callsign fallback_opplace source : string)
        (e : StationEntry) :
  build_station_entry_from_text normalize_opplace_any split_submission_blocks
    parse_logsheet_block text fallback_callsign fallback_opplace source = Ok e →
  callsign e ≠ "" ∧ is_checklog e = false ∧ manual_enabled e = false
  ∧ source_name e = source ∧ raw_submission_text e = text
  ∧ recalc_entry normalize_opplace_any e = e.
Proof. apply build_ok. Qed.

Lemma built_entry_is_settled_sample :
  ∃ e, build_station_entry_from_text opplace_unchanged blocks_of_sample
         log_of_sample "text" "ja1abc" "" "a.txt" = Ok e
       ∧ callsign e ≠ ""%string ∧ is_checklog e = false
       ∧ recalc_entry opplace_unchanged e = e.
Proof.
  assert (∃ e, build_station_entry_from_text opplace_unchanged blocks_of_sample
                 log_of_sample "text" "ja1abc" "" "a.txt" = Ok e) as [e He]
    by (vm_compute; eexists; reflexivity).
  exists e. split; [exact He|].
  destruct (built_entry_is_settled _ _ _ _ _ _ _ e He)
    as (H1 & H2 & _ & _ & _ & H3).
  exact (conj H1 (conj H2 H3)).
Defined.

(** X23: [build_station_entry_from_text] raises only when neither the
    summary sheet nor the fallback gives a callsign. *)
Theorem build_raises_only_without_callsign
        (normalize_opplace_any : string → string → string)
        (split_submission_blocks :
           string → option string * option string * option string)
        (parse_logsheet_block : string → string → list QsoRecord)
        (text fallback_callsign fallback_opplace source : string) :
  build_station_entry_from_text normalize_opplace_any split_submission_blocks
    parse_logsheet_block text fallback_callsign fallback_opplace source
  = Raise ValueError →
  _clean_callsign fallback_callsign = ""
  ∧ ∀ sb, nonempty_block (split_submission_blocks text).1.1 = Some sb →
          sm_callsign (parse_summarysheet sb) = "".
Proof. apply build_raise. Qed.

Lemma build_raises_only_without_callsign_sample :
  build_station_entry_from_text opplace_unchanged blocks_of_sample
    log_of_sample "text" "" "" "a.txt" = Raise ValueError
  ∧ _clean_callsign "" = ""%string.
Proof.
  assert (build_station_entry_from_text opplace_unchanged blocks_of_sample
            log_of_sample "text" "" "" "a.txt" = Raise ValueError) as H
    by (vm_compute; reflexivity).
  split; [exact H|].
  exact (proj1 (build_raises_only_without_callsign _ _ _ _ _ _ _ H)).
Defined.

(** * Elements of the summary sheet *)

Section SummaryElements.

Implicit Types (s t pat pre rest : string) (c : ascii).

Lemma map_chars_app (f : ascii → ascii) s t :
  Text.map_chars f (s +:+ t) = Text.map_chars f s +:+ Text.map_chars f t.
Proof.
  induction s as [|c s IH]; [done|].
  rewrite str_app_cons. cbn. by rewrite IH, str_app_cons.
Qed.

Lemma map_chars_length (f : ascii → ascii) s :
  String.length (Text.map_chars f s) = String.length s.
Proof. induction s as [|c s IH]; [done|]. cbn. by rewrite IH. Qed.

Lemma str_startswith_app s t : Text.startswith s (s +:+ t) = true.
Proof.
  induction s as [|c s IH]; [done|].
  rewrite str_app_cons. cbn. by rewrite Ascii.eqb_refl.
Qed.

Lemma str_drop_app s t : Text.drop (String.length s) (s +:+ t) = t.
Proof. induction s as [|c s IH]; [done|]. by rewrite str_app_cons. Qed.

Lemma partition_ci_unfold pat s :
  partition_ci pat s
  = if Text.startswith (Text.lower pat) (Text.lower s)
    then Some (EmptyString, Text.drop (String.length pat) s)
    else match s with
         | EmptyString => None
         | String c r =>
             match partition_ci pat r with
             | Some (before, after) => Some (String c before, after)
             | None => None
             end
         end.
Proof. by destruct s. Qed.

(** The pattern is found where it stands, whatever the letter case. *)
Lemma partition_ci_here pat pat' rest :
  Text.lower pat' = Text.lower pat →
  partition_ci pat (pat' +:+ rest) = Some (EmptyString, rest).
Proof.
  intros Hl. rewrite partition_ci_unfold.
  unfold Text.lower in *. rewrite map_chars_app, Hl, str_startswith_app.
  replace (String.length pat) with (String.length pat').
  - by rewrite str_drop_app.
  - rewrite <- (map_chars_length Text.lower_char pat'), Hl.
    apply map_chars_length.
Qed.

Lemma lower_char_lt c :
  Ascii.eqb "<" (Text.lower_char c) = Ascii.eqb "<" c.
Proof. by destruct c as [[] [] [] [] [] [] [] []]. Qed.

(** A pattern that starts with [<] is not found in text without [<]. *)
Lemma partition_ci_skip pat pre s :
  Text.all_chars (fun c => negb (Ascii.eqb "<" c)) pre = true →
  partition_ci (String "<" pat) (pre +:+ s)
  = match partition_ci (String "<" pat) s with
    | Some (before, after) => Some (pre +:+ before, after)
    | None => None
    end.
Proof.
  induction pre as [|c pre IH]; intros Hpre.
  - change ("" +:+ s) with s. by destruct (partition_ci _ s) as [[? ?]|].
  - cbn [Text.all_chars] in Hpre. apply andb_true_iff in Hpre as [Hc Hpre].
    rewrite str_app_cons, partition_ci_unfold.
    assert (Text.startswith (Text.lower (String "<" pat))
              (Text.lower (String c (pre +:+ s))) = false) as ->.
    { unfold Text.lower. cbn [Text.map_chars Text.startswith].
      change (Text.lower_char "<") with "<"%char.
      rewrite lower_char_lt. apply negb_true_iff in Hc. by rewrite Hc. }
    rewrite IH by done.
    by destruct (partition_ci _ s) as [[? ?]|].
Qed.

Lemma find_tag_element tag open_tag close_tag pre inner post :
  Text.lower open_tag = Text.lower tag →
  Text.lower close_tag = Text.lower tag →
  Text.all_chars (fun c => negb (Ascii.eqb "<" c)) pre = true →
  Text.all_chars (fun c => negb (Ascii.eqb "<" c)) inner = true →
  _find_tag (pre +:+ "<" +:+ open_tag +:+ ">" +:+ inner
                 +:+ "</" +:+ close_tag +:+ ">" +:+ post) tag
  = Some (_strip_tags_text inner).
Proof.
  intros Ho Hc Hpre Hin. unfold _find_tag.
  change ("<" +:+ tag +:+ ">") with (String "<" (tag +:+ ">")).
  rewrite partition_ci_skip by done.
  change ("<" +:+ open_tag +:+ ">" +:+ inner +:+ "</" +:+ close_tag +:+ ">" +:+ post)
    with (String "<" (open_tag +:+ ">" +:+ inner +:+ "</" +:+ close_tag +:+ ">" +:+ post)).
  assert (String "<" (open_tag +:+ ">" +:+ inner +:+ "</" +:+ close_tag +:+ ">" +:+ post)
          = String "<" (open_tag +:+ ">")
              +:+ (inner +:+ "</" +:+ close_tag +:+ ">" +:+ post)) as ->.
  { symmetry. etrans; [apply str_app_cons|]. f_equal. apply str_app_assoc. }
  rewrite partition_ci_here.
  2:{ unfold Text.lower in *. cbn [Text.map_chars]. f_equal.
      by rewrite !map_chars_app, Ho. }
  change ("</" +:+ tag +:+ ">") with (String "<" (String "/" (tag +:+ ">"))).
  rewrite partition_ci_skip by done.
  assert ("</" +:+ close_tag +:+ ">" +:+ post
          = String "<" (String "/" (close_tag +:+ ">")) +:+ post) as ->.
  { change ("</" +:+ close_tag +:+ ">" +:+ post)
      with (String "<" (String "/" (close_tag +:+ ">" +:+ post))).
    symmetry. etrans; [apply str_app_cons|]. f_equal.
    etrans; [apply str_app_cons|]. f_equal. apply str_app_assoc. }
  rewrite partition_ci_here.
  2:{ unfold Text.lower in *. cbn [Text.map_chars]. do 2 f_equal.
      by rewrite !map_chars_app, Hc. }
  by rewrite str_app_empty_r.
Qed.

End SummaryElements.

(** X24: [_find_tag] reads an element back: for text without [<] before
    the element and inside it, and tags written in any letter case, the
    result is the inner text with its blanks normalized. *)
Theorem find_tag_reads_element
        (tag open_tag close_tag pre inner post : string) :
  Text.lower open_tag = Text.lower tag →
  Text.lower close_tag = Text.lower tag →
  Text.all_chars (fun c => negb (Ascii.eqb "<" c)) pre = true →
  Text.all_chars (fun c => negb (Ascii.eqb "<" c)) inner = true →
  _find_tag (pre +:+ "<" +:+ open_tag +:+ ">" +:+ inner
                 +:+ "</" +:+ close_tag +:+ ">" +:+ post) tag
  = Some (_strip_tags_text inner).
Proof. apply find_tag_element. Qed.

Lemma find_tag_reads_element_sample :
  _find_tag "x <Callsign> ja1abc  </CALLSIGN><OPPLACE>Tokyo</OPPLACE>" "CALLSIGN"
  = Some "ja1abc"%string.
Proof.
  exact (find_tag_reads_element "CALLSIGN" "Callsign" "CALLSIGN" "x "
           " ja1abc  " "<OPPLACE>Tokyo</OPPLACE>"
           ltac:(reflexivity) ltac:(reflexivity) ltac:(reflexivity)
           ltac:(reflexivity)).
Defined.

(** * Reading numbers back *)

Section ReadingNumbers.

Implicit Types (s t : string) (n : Z).

Lemma all_digits_not_dash s : all_digits s = true → ¬ (s = "" ∨ s = "-").
Proof. intros H [->| ->]; by vm_compute in H. Qed.

Lemma to_int_digits s :
  all_digits s = true → _to_int s = Some (PyInt.digits_val 0 s).
Proof.
  intros Hs. pose proof Hs as [_ Hall]%all_digits_spec. unfold _to_int.
  rewrite replace_comma_digits, strip_digits by done.
  rewrite decide_False by by apply all_digits_not_dash.
  by apply parse_digits.
Qed.

Lemma score_triplet_digits (a b c : string) :
  all_digits a = true → all_digits b = true → all_digits c = true →
  _parse_score_triplet (a +:+ "," +:+ b +:+ "," +:+ c)
  = (Some (PyInt.digits_val 0 a), Some (PyInt.digits_val 0 b),
     Some (PyInt.digits_val 0 c)).
Proof.
  intros Ha Hb Hc.
  pose proof Ha as [Hna Hda]%all_digits_spec.
  pose proof Hb as [_ Hdb]%all_digits_spec.
  pose proof Hc as [_ Hdc]%all_digits_spec.
  unfold _parse_score_triplet.
  rewrite truthy_app_l by done. cbn [negb].
  change (a +:+ "," +:+ b +:+ "," +:+ c)
    with (a +:+ String "," (b +:+ String "," c)).
  rewrite !split_on_app by by apply digits_no_sep.
  rewrite split_on_no_sep by by apply digits_no_sep.
  cbn [map]. rewrite !strip_digits by done.
  by rewrite !to_int_digits.
Qed.

Lemma safe_int_digits s (d : Z) :
  all_digits s = true → _safe_int (PyStrV s) d = PyInt.digits_val 0 s.
Proof.
  intros Hs. pose proof Hs as [_ Hall]%all_digits_spec. unfold _safe_int.
  rewrite strip_digits, replace_comma_digits by done.
  rewrite decide_False by by apply all_digits_not_dash.
  by rewrite parse_digits.
Qed.

Lemma removelast_prefix (l : list string) : removelast l `prefix_of` l.
Proof.
  destruct (decide (l = [])) as [->|Hne]; [done|].
  exists [List.last l ""]. by apply app_removelast_last.
Qed.

Lemma removelast_length (l : list string) :
  (length l <= S (length (removelast l)))%nat.
Proof.
  induction l as [|x [|y l] IH]; cbn in *; lia.
Qed.

Lemma take_pts_shape (tokens : list string) (raw_line : string) :
  let '(pts, rest) := _take_pts_from_tail tokens raw_line in
  0 <= pts ∧ rest `prefix_of` tokens
  ∧ (length tokens <= length rest + 2)%nat
  ∧ (rest = tokens → pts = 0 ∨ pts = 2).
Proof.
  unfold _take_pts_from_tail.
  destruct (last tokens) as [tk|] eqn:Hlast.
  2:{ split; [lia|]. split; [done|]. split; [lia|]. by right. }
  assert (tokens ≠ []) as Hne by (by intros ->).
  assert (length (removelast tokens) < length tokens)%nat as Hlen.
  { rewrite (app_removelast_last "" Hne) at 2. rewrite length_app. cbn. lia. }
  destruct (all_digits (pts_text tk)) eqn:Hd.
  { apply all_digits_spec in Hd as [_ Hd].
    split; [by apply digits_val_nonneg|]. split; [apply removelast_prefix|].
    split; [pose proof (removelast_length tokens); lia|].
    intros Heq. rewrite Heq in Hlen. lia. }
  assert (∀ b : bool,
    let '(pts, rest) :=
      if b then (0, tokens) else (2, tokens) in
    0 <= pts ∧ rest `prefix_of` tokens
    ∧ (length tokens <= length rest + 2)%nat
    ∧ (rest = tokens → pts = 0 ∨ pts = 2)) as Hdefault.
  { intros []; (split; [lia|]; split; [done|]; split; [lia|]); auto. }
  destruct ((2 <=? length tokens)%nat && is_dup_word tk);
    [|apply Hdefault].
  destruct (last (removelast tokens)) as [tk2|]; [|apply Hdefault].
  destruct (all_digits (pts_text tk2)) eqn:Hd2; [|apply Hdefault].
  apply all_digits_spec in Hd2 as [_ Hd2].
  split; [by apply digits_val_nonneg|]. split.
  - etrans; apply removelast_prefix.
  - split.
    + pose proof (removelast_length tokens).
      pose proof (removelast_length (removelast tokens)). lia.
    + intros Heq.
      pose proof (removelast_length (removelast tokens)).
      assert (length (removelast (removelast tokens))
              <= length (removelast tokens))%nat.
      { apply prefix_length, removelast_prefix. }
      rewrite Heq in *. lia.
Qed.

End ReadingNumbers.

(** X25: The score line written from three non-negative figures is read
    back as those figures. *)
Theorem score_triplet_round_trip (qso pts mult : Z) :
  0 <= qso → 0 <= pts → 0 <= mult →
  _parse_score_triplet
    (PyInt.str qso +:+ "," +:+ PyInt.str pts +:+ "," +:+ PyInt.str mult)
  = (Some qso, Some pts, Some mult).
Proof.
  intros Hq Hp Hm.
  destruct (str_nonneg qso Hq) as [Hdq Hvq].
  destruct (str_nonneg pts Hp) as [Hdp Hvp].
  destruct (str_nonneg mult Hm) as [Hdm Hvm].
  rewrite score_triplet_digits by done. by rewrite Hvq, Hvp, Hvm.
Qed.

Lemma score_triplet_round_trip_sample :
  _parse_score_triplet "12,24,7" = (Some 12, Some 24, Some 7).
Proof.
  exact (score_triplet_round_trip 12 24 7 ltac:(lia) ltac:(lia) ltac:(lia)).
Defined.

(** X26: [_safe_int] reads back the decimal text of a non-negative
    integer, whatever the default. *)
Theorem safe_int_round_trip (n default : Z) :
  0 <= n → _safe_int (PyStrV (PyInt.str n)) default = n.
Proof.
  intros Hn. destruct (str_nonneg n Hn) as [Hd Hv].
  by rewrite safe_int_digits.
Qed.

Lemma safe_int_round_trip_sample :
  _safe_int (PyStrV "120") 7 = 120.
Proof. exact (safe_int_round_trip 120 7 ltac:(lia)). Defined.

(** X27: [_take_pts_from_tail] gives points that are not negative and
    the tokens without at most their last two; when it removes nothing the
    points are the defaults 0 or 2. *)
Theorem take_pts_from_tail_shape (tokens : list string) (raw_line : string) :
  let '(pts, rest) := _take_pts_from_tail tokens raw_line in
  0 <= pts ∧ rest `prefix_of` tokens
  ∧ (length tokens <= length rest + 2)%nat
  ∧ (rest = tokens → pts = 0 ∨ pts = 2).
Proof. apply take_pts_shape. Qed.

(** * Whole-number band tokens *)

Section BandTokens.

Implicit Types (s : string) (n : Z).

Lemma round_half_even_exact (q d : Z) :
  0 < d → Float64.round_half_even (q * d) d = q.
Proof.
  intros Hd. unfold Float64.round_half_even.
  rewrite Z.div_mul, Z.mod_mul by lia.
  destruct (Z.compare_spec (2 * 0) d); lia.
Qed.

(** A whole number below [2^53] is a double, and rounding it gives it
    back. *)
Lemma of_ratio_whole n :
  0 <= n < 2 ^ 53 →
  ∃ m e, Float64.of_ratio n 1 = Some (m, e)
         ∧ Float64.round m e = n ∧ Float64.near m e n = true.
Proof.
  intros [H0 Hn]. unfold Float64.of_ratio.
  destruct (Z.eqb_spec n 0) as [->|Hne].
  { exists 0, 0. done. }
  change (Z.log2 1) with 0. rewrite Z.sub_0_r.
  pose proof (Z.log2_spec n ltac:(lia)) as [Hlo Hhi].
  pose proof (Z.log2_nonneg n) as Hl0.
  assert (Z.log2 n < 53) as Hl by (apply Z.log2_lt_pow2; lia).
  assert (Float64.ge_pow2 n 1 (Z.log2 n) = true) as ->.
  { unfold Float64.ge_pow2. destruct (Z.leb_spec 0 (Z.log2 n)); [|lia].
    apply Z.leb_le. lia. }
  rewrite Z.max_l by lia.
  set (k := 52 - Z.log2 n).
  assert (0 <= k) as Hk by (unfold k; lia).
  assert (Z.log2 n - 52 = - k) as -> by (unfold k; lia).
  assert (0 < 2 ^ k) as Hpk by (apply Z.pow_pos_nonneg; lia).
  assert (n * 2 ^ k < 2 ^ 53) as Hm.
  { assert (2 ^ 53 = 2 ^ Z.succ (Z.log2 n) * 2 ^ k) as ->.
    { rewrite <- Z.pow_add_r by lia. f_equal. unfold k. lia. }
    apply Z.mul_lt_mono_pos_r; lia. }
  clearbody k.
  assert (∀ x, Float64.round_half_even x 1 = x) as Hr1.
  { intros x. pose proof (round_half_even_exact x 1 ltac:(lia)) as H.
    by rewrite Z.mul_1_r in H. }
  destruct (Z.leb_spec 0 (- k)) as [Hk0|Hk0].
  - assert (k = 0) as -> by lia.
    change (- 0) with 0. change (1 * 2 ^ 0) with 1. rewrite Hr1.
    destruct (Z.eqb_spec n (2 ^ 53)) as [|_]; [lia|].
    change (971 <? 0) with false. cbv iota.
    exists n, 0. split; [done|]. split; [|done].
    unfold Float64.round. cbn. lia.
  - rewrite Z.opp_involutive, Hr1.
    destruct (Z.eqb_spec (n * 2 ^ k) (2 ^ 53)) as [|_]; [lia|].
    destruct (Z.ltb_spec 971 (- k)) as [|_]; [lia|].
    exists (n * 2 ^ k), (- k). split; [done|].
    unfold Float64.round, Float64.near.
    destruct (Z.leb_spec 0 (- k)); [lia|]. rewrite Z.opp_involutive.
    split; [by apply round_half_even_exact|].
    apply Z.ltb_lt. rewrite Z.sub_diag. cbn [Z.abs Z.mul]. lia.
Qed.

Lemma digits_not (x : ascii) s :
  Text.is_digit x = false → Text.all_chars Text.is_digit s = true →
  Text.all_chars (fun c => negb (Ascii.eqb x c)) s = true.
Proof.
  intros Hx. induction s as [|c s IH]; [done|]. cbn [Text.all_chars].
  intros [Hc Hs]%andb_true_iff. rewrite (IH Hs).
  by rewrite (digit_not c x Hx Hc).
Qed.

Lemma parse_band_digits s :
  Text.all_chars Text.is_digit s = true → _parse_band_mhz s = s.
Proof.
  intros Hs. unfold _parse_band_mhz. rewrite (strip_digits s) by done.
  rewrite (replace_absent "M" "Hz") by by apply digits_not.
  rewrite (replace_absent "m" "hz") by by apply digits_not.
  by apply strip_digits.
Qed.

Lemma replace_go_suffix (fuel : nat) a old s :
  Text.all_chars (fun c => negb (Ascii.eqb a c)) s = true →
  (String.length s < fuel)%nat →
  Text.replace_go fuel (String a old) "" (s +:+ String a old) = s.
Proof.
  revert s. induction fuel as [|fuel IH]; intros s Hs Hlen; [lia|].
  destruct s as [|c s].
  - change ("" +:+ String a old) with (String a old).
    cbn [Text.replace_go].
    pose proof (str_startswith_app (String a old) "") as Hsw.
    pose proof (str_drop_app (String a old) "") as Hdr.
    rewrite str_app_empty_r in Hsw, Hdr. rewrite Hsw, Hdr.
    by destruct fuel.
  - cbn in Hs. apply andb_true_iff in Hs as [Hc Hs].
    apply negb_true_iff in Hc. cbn in Hlen.
    rewrite str_app_cons. cbn [Text.replace_go Text.startswith].
    rewrite Hc. by rewrite IH by (done || lia).
Qed.

Lemma str_length_app s t :
  String.length (s +:+ t) = (String.length s + String.length t)%nat.
Proof.
  induction s as [|c s IH]; [done|]. rewrite str_app_cons. cbn. by rewrite IH.
Qed.

Lemma parse_band_digits_mhz s :
  Text.all_chars Text.is_digit s = true → _parse_band_mhz (s +:+ "MHz") = s.
Proof.
  intros Hs. unfold _parse_band_mhz.
  rewrite (strip_token (s +:+ "MHz")).
  2:{ apply is_token_spec. split; [by apply truthy_app_r|].
      rewrite all_chars_app, digits_no_space by done. done. }
  unfold Text.replace at 2.
  rewrite (replace_go_suffix _ "M" "Hz").
  - rewrite (replace_absent "m" "hz") by by apply digits_not.
    by apply strip_digits.
  - by apply digits_not.
  - rewrite str_length_app. cbn. lia.
Qed.

Lemma canon_band_of_parsed tok s :
  _parse_band_mhz tok = s → all_digits s = true →
  PyInt.digits_val 0 s < 2 ^ 53 →
  _canon_band_token tok = PyInt.str (PyInt.digits_val 0 s).
Proof.
  intros Hp Hs Hlt. pose proof Hs as [Hne Hall]%all_digits_spec.
  unfold _canon_band_token. rewrite Hp, strip_digits by done.
  rewrite decide_False by (intros ->; done).
  unfold split_decimal.
  rewrite split_on_no_sep by by apply digits_no_sep.
  rewrite Hs, str_app_empty_r.
  change (10 ^ Z.of_nat (String.length "")) with 1.
  destruct (of_ratio_whole (PyInt.digits_val 0 s)) as (m & e & -> & Hr & Hn).
  { split; [by apply digits_val_nonneg|done]. }
  by rewrite Hr, Hn.
Qed.

End BandTokens.

(** X28: A band token that is a whole number below [2^53], with or
    without the suffix MHz, is canonicalized to the decimal notation of
    its value: leading zeros go, the result is a fixed point. *)
Theorem canon_band_whole_number (s : string) :
  all_digits s = true → PyInt.digits_val 0 s < 2 ^ 53 →
  let band := PyInt.str (PyInt.digits_val 0 s) in
  _canon_band_token s = band ∧ _canon_band_token (s +:+ "MHz") = band
  ∧ _canon_band_token band = band.
Proof.
  intros Hs Hlt. cbv zeta.
  pose proof Hs as [Hne Hall]%all_digits_spec.
  split; [|split].
  - apply canon_band_of_parsed; [by apply parse_band_digits|done..].
  - apply canon_band_of_parsed; [by apply parse_band_digits_mhz|done..].
  - destruct (str_nonneg (PyInt.digits_val 0 s)) as [Hd Hv];
      [by apply digits_val_nonneg|].
    pose proof Hd as [_ Hdall]%all_digits_spec.
    rewrite <- Hv at 2.
    apply canon_band_of_parsed; [by apply parse_band_digits|done|].
    by rewrite Hv.
Qed.

Lemma canon_band_whole_number_sample :
  _canon_band_token "050" = "50"%string
  ∧ _canon_band_token "050MHz" = "50"%string
  ∧ _canon_band_token "50" = "50"%string.
Proof.
  exact (canon_band_whole_number "050" ltac:(reflexivity) ltac:(reflexivity)).
Defined.

(** * Text written to HTML, CSV and file names *)

Section WrittenText.

Implicit Types (s t w : string) (c a : ascii) (p bad : ascii → bool).

Lemma replace_go_expand (n : nat) a w s :
  (String.length s ≤ n)%nat →
  Text.replace_go n (String a "") w s = expand a w s.
Proof.
  revert s. induction n as [|n IH]; intros s Hn.
  - destruct s; [done|]. cbn in Hn. lia.
  - destruct s as [|c s]; [done|]. cbn in Hn.
    cbn [Text.replace_go Text.startswith expand String.length Text.drop].
    destruct (Ascii.eqb a c); by rewrite IH by lia.
Qed.

Lemma replace_expand a w s : Text.replace (String a "") w s = expand a w s.
Proof. by apply replace_go_expand. Qed.

(** Expanding [a] leaves no [a], when the replacement has none. *)
Lemma expand_removes a w s :
  Text.all_chars (fun c => negb (Ascii.eqb a c)) w = true →
  Text.all_chars (fun c => negb (Ascii.eqb a c)) (expand a w s) = true.
Proof.
  intros Hw. induction s as [|c s IH]; [done|]. cbn [expand].
  destruct (Ascii.eqb a c) eqn:Hc.
  - by rewrite all_chars_app, Hw, IH.
  - cbn [Text.all_chars]. by rewrite Hc, IH.
Qed.

(** Expanding keeps a property of all characters that the replacement
    has too. *)
Lemma expand_keeps p a w s :
  Text.all_chars p w = true → Text.all_chars p s = true →
  Text.all_chars p (expand a w s) = true.
Proof.
  intros Hw. induction s as [|c s IH]; [done|]. cbn [expand Text.all_chars].
  intros [Hc Hs]%andb_true_iff. destruct (Ascii.eqb a c).
  - by rewrite all_chars_app, Hw, IH.
  - cbn [Text.all_chars]. by rewrite Hc, IH.
Qed.

Lemma all_chars_and p (q : ascii → bool) s :
  Text.all_chars p s = true → Text.all_chars q s = true →
  Text.all_chars (fun c => p c && q c) s = true.
Proof.
  induction s as [|c s IH]; [done|]. cbn [Text.all_chars].
  intros [-> Hp]%andb_true_iff [-> Hq]%andb_true_iff. by rewrite IH.
Qed.

Lemma html_escape_no_markup s :
  Text.all_chars (fun c => negb (is_markup_char c)) (html_escape s) = true.
Proof.
  unfold html_escape. cbv zeta. unfold DQUOTE. rewrite !replace_expand.
  set (s1 := expand "&" "&amp;" s).
  set (s2 := expand "<" "&lt;" s1).
  set (s3 := expand ">" "&gt;" s2).
  set (s4 := expand (ascii_of_N 34) "&quot;" s3).
  set (s5 := expand "'" "&#x27;" s4).
  assert (Text.all_chars (fun c => negb (Ascii.eqb "<" c)) s2 = true) as H2
    by by apply expand_removes.
  assert (Text.all_chars (fun c => negb (Ascii.eqb "<" c)) s3 = true) as H3lt
    by by apply expand_keeps.
  assert (Text.all_chars (fun c => negb (Ascii.eqb ">" c)) s3 = true) as H3
    by by apply expand_removes.
  assert (Text.all_chars (fun c => negb (Ascii.eqb "<" c)) s4 = true) as H4lt
    by by apply expand_keeps.
  assert (Text.all_chars (fun c => negb (Ascii.eqb ">" c)) s4 = true) as H4gt
    by by apply expand_keeps.
  assert (Text.all_chars (fun c => negb (Ascii.eqb (ascii_of_N 34) c)) s4 = true)
    as H4 by by apply expand_removes.
  assert (Text.all_chars (fun c => negb (Ascii.eqb "<" c)) s5 = true) as H5lt
    by by apply expand_keeps.
  assert (Text.all_chars (fun c => negb (Ascii.eqb ">" c)) s5 = true) as H5gt
    by by apply expand_keeps.
  assert (Text.all_chars (fun c => negb (Ascii.eqb (ascii_of_N 34) c)) s5 = true)
    as H5dq by by apply expand_keeps.
  assert (Text.all_chars (fun c => negb (Ascii.eqb "'" c)) s5 = true) as H5
    by by apply expand_removes.
  pose proof (all_chars_and _ _ _ H5lt (all_chars_and _ _ _ H5gt
                (all_chars_and _ _ _ H5dq H5))) as Hall.
  eapply all_chars_impl; [|exact Hall].
  intros c Hc. cbn beta in Hc.
  apply andb_true_iff in Hc as [Hlt Hc]. apply andb_true_iff in Hc as [Hgt Hc].
  apply andb_true_iff in Hc as [Hdq Hsq].
  unfold is_markup_char, is_quote, is_char.
  rewrite (Ascii.eqb_sym c "<"), (Ascii.eqb_sym c ">"),
    (Ascii.eqb_sym c (ascii_of_N 34)), (Ascii.eqb_sym c "'").
  apply negb_true_iff in Hlt, Hgt, Hdq, Hsq.
  by rewrite Hlt, Hgt, Hdq, Hsq.
Qed.

(** ** Runs of unwanted characters *)

Lemma collapse_runs_clean bad (rep : ascii) (prev : bool) s :
  bad rep = false →
  Text.all_chars (fun c => negb (bad c)) (collapse_runs bad rep prev s) = true.
Proof.
  intros Hrep. revert prev. induction s as [|c s IH]; intros prev; [done|].
  cbn [collapse_runs]. destruct (bad c) eqn:Hc.
  - destruct prev; [apply IH|]. cbn [Text.all_chars]. by rewrite Hrep, IH.
  - cbn [Text.all_chars]. by rewrite Hc, IH.
Qed.

Lemma collapse_runs_absent bad (rep : ascii) (prev : bool) s :
  Text.all_chars (fun c => negb (bad c)) s = true →
  collapse_runs bad rep prev s = s.
Proof.
  revert prev. induction s as [|c s IH]; intros prev; [done|].
  cbn [collapse_runs Text.all_chars].
  intros [Hc Hs]%andb_true_iff. apply negb_true_iff in Hc.
  by rewrite Hc, IH.
Qed.

Lemma collapse_runs_empty bad (rep : ascii) s :
  collapse_runs bad rep false s = "" → s = "".
Proof. destruct s as [|c s]; [done|]. cbn. by destruct (bad c). Qed.

Lemma all_chars_lstrip p s :
  Text.all_chars p s = true → Text.all_chars p (Text.lstrip s) = true.
Proof.
  induction s as [|c s IH]; [done|]. cbn [Text.lstrip].
  destruct (Text.is_space c); [|done]. cbn [Text.all_chars].
  intros [_ Hs]%andb_true_iff. by apply IH.
Qed.

Lemma all_chars_rstrip p s :
  Text.all_chars p s = true → Text.all_chars p (Text.rstrip s) = true.
Proof.
  induction s as [|c s IH]; [done|]. cbn [Text.rstrip Text.all_chars].
  intros [Hc Hs]%andb_true_iff. specialize (IH Hs).
  destruct (Text.rstrip s) as [|c' r'].
  - destruct (Text.is_space c); [done|]. cbn. by rewrite Hc.
  - cbn [Text.all_chars] in *. by rewrite Hc, IH.
Qed.

Lemma all_chars_strip p s :
  Text.all_chars p s = true → Text.all_chars p (Text.strip s) = true.
Proof. intros H. by apply all_chars_rstrip, all_chars_lstrip. Qed.

Lemma strip_head s :
  Text.strip s = "" ∨ ∃ c r, Text.strip s = String c r ∧ Text.is_space c = false.
Proof.
  unfold Text.strip. destruct (lstrip_head s) as [->|(c & r & -> & Hc)]; [by left|].
  destruct (rstrip_head c r Hc) as [r' Hr]. right. by exists c, r'.
Qed.

Lemma rstrip_strip s : Text.rstrip (Text.strip s) = Text.strip s.
Proof. apply rstrip_idem. Qed.

Lemma rstrip_cons_fixed c s :
  Text.rstrip (String c s) = String c s →
  (s = "" ∧ Text.is_space c = false) ∨ (s ≠ "" ∧ Text.rstrip s = s).
Proof.
  cbn [Text.rstrip]. destruct (Text.rstrip s) as [|c' r'] eqn:Hr.
  - destruct (Text.is_space c); [done|]. intros [= <-]. by left.
  - intros [= Heq]. right. split; [by intros ->|done].
Qed.

Lemma rstrip_cons_keep c s :
  s ≠ "" → Text.rstrip s = s → Text.rstrip (String c s) = String c s.
Proof.
  intros Hne Hs. cbn [Text.rstrip]. rewrite Hs. by destruct s.
Qed.

Lemma rstrip_single c :
  Text.is_space c = false → Text.rstrip (String c "") = String c "".
Proof. intros Hc. cbn. by rewrite Hc. Qed.

Lemma rstrip_collapse_runs bad (rep : ascii) s :
  Text.is_space rep = false →
  ∀ prev, Text.rstrip s = s →
    Text.rstrip (collapse_runs bad rep prev s) = collapse_runs bad rep prev s.
Proof.
  intros Hrep. induction s as [|c s IH]; intros prev Hs; [done|].
  cbn [collapse_runs].
  apply rstrip_cons_fixed in Hs as [[-> Hc]|[Hne Hs]].
  - destruct (bad c), prev; cbn [collapse_runs]; try done;
      by apply rstrip_single.
  - destruct (bad c).
    + destruct prev; [by apply IH|].
      destruct (collapse_runs bad rep true s) as [|c' v] eqn:Hv.
      * by apply rstrip_single.
      * apply rstrip_cons_keep; [done|]. rewrite <- Hv. by apply IH.
    + destruct (collapse_runs bad rep false s) as [|c' v] eqn:Hv.
      * by apply collapse_runs_empty in Hv.
      * apply rstrip_cons_keep; [done|]. rewrite <- Hv. by apply IH.
Qed.

Lemma lstrip_collapse_runs bad (rep : ascii) c s :
  Text.is_space rep = false → Text.is_space c = false →
  Text.lstrip (collapse_runs bad rep false (String c s))
  = collapse_runs bad rep false (String c s).
Proof.
  intros Hrep Hc. cbn [collapse_runs].
  destruct (bad c); cbn [Text.lstrip]; by rewrite ?Hrep, ?Hc.
Qed.

Lemma safe_filename_facts s :
  Text.all_chars (fun c => negb (is_filename_unsafe c)) (_safe_filename s) = true
  ∧ _safe_filename (_safe_filename s) = _safe_filename s.
Proof.
  assert (Text.all_chars (fun c => negb (is_filename_unsafe c))
            (_safe_filename s) = true) as Hclean
    by (by apply collapse_runs_clean).
  split; [done|].
  assert (Text.strip (_safe_filename s) = _safe_filename s) as Hstrip.
  { unfold _safe_filename, Text.strip at 1.
    assert (Text.lstrip (collapse_runs is_filename_unsafe "_" false (Text.strip s))
            = collapse_runs is_filename_unsafe "_" false (Text.strip s)) as ->.
    { destruct (strip_head s) as [->|(c & r & -> & Hc)]; [done|].
      by apply lstrip_collapse_runs. }
    apply rstrip_collapse_runs; [done|apply rstrip_strip]. }
  unfold _safe_filename at 1. rewrite Hstrip.
  by apply collapse_runs_absent.
Qed.

Lemma csv_safe_facts s :
  Text.all_chars (fun c => negb (is_break_or_tab c)) (_csv_safe s) = true
  ∧ _csv_safe (_csv_safe s) = _csv_safe s.
Proof.
  assert (Text.all_chars (fun c => negb (is_break_or_tab c)) (_csv_safe s) = true)
    as Hclean by (by apply all_chars_strip, collapse_runs_clean).
  split; [done|].
  unfold _csv_safe at 1. rewrite collapse_runs_absent by done.
  apply strip_idem.
Qed.

End WrittenText.

(** X29: Whatever it is given, [_h] writes text without markup
    characters: no angle bracket and no quote of either kind. *)
Theorem h_writes_no_markup (x : PyVal) :
  Text.all_chars (fun c => negb (is_markup_char c)) (_h x) = true.
Proof. apply html_escape_no_markup. Qed.

(** X30: [_safe_filename] leaves none of the characters it replaces and
    [_csv_safe] leaves no line break or tab; both give back their own
    results unchanged. *)
Theorem written_names_and_cells_are_clean (s : string) :
  (Text.all_chars (fun c => negb (is_filename_unsafe c)) (_safe_filename s) = true
   ∧ _safe_filename (_safe_filename s) = _safe_filename s)
  ∧ (Text.all_chars (fun c => negb (is_break_or_tab c)) (_csv_safe s) = true
     ∧ _csv_safe (_csv_safe s) = _csv_safe s).
Proof. split; [apply safe_filename_facts|apply csv_safe_facts]. Qed.

(** Samples: a tag and an ampersand, a portable callsign, a comment of
    two lines. *)
Example written_text_samples :
  _h (PyStrV "<b>A&B</b>") = "&lt;b&gt;A&amp;B&lt;/b&gt;"%string
  ∧ _h (PyIntV 12) = "12"%string
  ∧ _safe_filename " JA1ABC/2 " = "JA1ABC_2"%string
  ∧ _safe_filename "a<>:b" = "a_b"%string
  ∧ _csv_safe ("first" +:+ CR +:+ LF +:+ "second ") = "first second"%string.
Proof. by vm_compute. Qed.
